(** * Audio unlock, playback, speech synthesis and recording state machines

    A shallow embedding of the client-side audio code of the chat widget:
    - [public/js/audio/audioUnlockUtils.js]  (AudioUnlockUtils)
    - [public/js/audio/ttsManager.js]        (TTSManager, AudioPlaybackManager)
    - [recordingManager.js]                  (RecordingManager)
    - [AudioManager.js]                      (AudioManager)
    - [public/js/apicommunication.js]        (getBotResponse)

    The browser is represented by an explicit environment record ([Env]):
    every answer the platform gives to the code (does [play()] succeed, what
    does the server reply, which user agent is it) is a field of it.  The
    JavaScript objects are records, the [Map] of playback states is a [gmap],
    message elements are references into a store of DOM nodes, and code that
    can throw runs in a small state-and-exception monad.  An [async] function
    is run to completion: each [await] takes its outcome from the
    environment and no other handler is interleaved. *)

From Stdlib Require Import QArith ZArith Bool String List Lia.
From stdpp Require Import base option list gmap strings fin_maps.

Close Scope Q_scope.
Open Scope string_scope.

(** ** JavaScript values *)

Module JS.

(** A JavaScript number: a finite value, [NaN] or an infinity. *)
Inductive jsnum : Type :=
  | JNum (q : Q)
  | JNaN
  | JPosInf
  | JNegInf.

(** [a === b] on numbers. *)
Definition strict_eq (a b : jsnum) : bool :=
  match a, b with
  | JNum x, JNum y => Qeq_bool x y
  | JPosInf, JPosInf => true
  | JNegInf, JNegInf => true
  | _, _ => false
  end.

Definition one : jsnum := JNum 1.
Definition one_and_half : jsnum := JNum (3 # 2).
Definition two : jsnum := JNum 2.

(** Truthiness of a possibly undefined string ([!s] is its negation). *)
Definition truthy (s : option string) : bool :=
  match s with
  | Some "" => false
  | Some _ => true
  | None => false
  end.

(** What [element.dataset.key = v] stores: the string form of [v]. *)
Definition to_dataset_string (v : option string) : string :=
  match v with
  | Some s => s
  | None => "undefined"
  end.

(** Completion of a statement: normal, or an exception in flight. *)
Inductive res (A : Type) : Type :=
  | Ok (a : A)
  | Throw (e : string).
Arguments Ok {A} a.
Arguments Throw {A} e.

(** Settlement of a promise. *)
Inductive settled (A : Type) : Type :=
  | Resolved (a : A)
  | Rejected (e : string).
Arguments Resolved {A} a.
Arguments Rejected {A} e.

(** What [HTMLMediaElement.play()] does when called. *)
Inductive PlayResult : Type :=
  | PlayThrows        (* the call itself throws *)
  | PlayUndefined     (* legacy engines: no promise is returned *)
  | PlayFulfilled
  | PlayRejected.

End JS.
Export JS.

(** ** State-and-exception monad *)

Module Monad.

Definition M (S A : Type) : Type := S -> S * res A.

Definition ret {S A} (a : A) : M S A := fun s => (s, Ok a).

Definition bind {S A B} (c : M S A) (k : A -> M S B) : M S B :=
  fun s =>
    match c s with
    | (s', Ok a) => k a s'
    | (s', Throw e) => (s', Throw e)
    end.

Definition throw {S A} (e : string) : M S A := fun s => (s, Throw e).

(** [try { c } catch (e) { h e }]: the state changes made before the throw
    are kept. *)
Definition try_catch {S A} (c : M S A) (h : string -> M S A) : M S A :=
  fun s =>
    match c s with
    | (s', Ok a) => (s', Ok a)
    | (s', Throw e) => h e s'
    end.

Definition get {S} : M S S := fun s => (s, Ok s).
Definition modify {S} (f : S -> S) : M S unit := fun s => (f s, Ok tt).
Definition when {S} (b : bool) (c : M S unit) : M S unit :=
  if b then c else ret tt.

(** How an [async] function's body settles the promise it returns. *)
Definition settle {A} (r : res A) : settled A :=
  match r with
  | Ok a => Resolved a
  | Throw e => Rejected e
  end.

End Monad.
Export Monad.

Notation "'do' x <- c ; k" := (bind c (fun x => k))
  (at level 10, x name, c at level 100, k at level 200).
Notation "c ;; k" := (bind c (fun _ => k))
  (at level 100, k at level 200, right associativity).

(** ** The page: DOM nodes, audio elements, environment *)

Module Page.

(** Playback state of a message, the values of [messageStateMap]. *)
Inductive PState : Type := IDLE | PLAYING | PAUSED | FINISHED.

(** The [.vocal-button] of a message: the style fields the code assigns,
    the [loading] class and the [src] of the icon it contains. *)
Record VocalButton : Type := {
  vb_display : string;
  vb_visibility : string;
  vb_loading : bool;
  vb_icon : string
}.

(** A message element ([msgDiv]): its [dataset] and its control cluster. *)
Record MsgDiv : Type := {
  ds_messageId : option string;
  ds_audioUrl : option string;
  ds_currentPosition : option string;
  vocalButton : option VocalButton;
  pauseButton : bool;
  playButton : bool;
  replayButton : bool;
  speedButton : option string        (* textContent of the .speed-button *)
}.

Definition empty_div : MsgDiv :=
  {| ds_messageId := None; ds_audioUrl := None; ds_currentPosition := None;
     vocalButton := None; pauseButton := false; playButton := false;
     replayButton := false; speedButton := None |}.

(** A dedicated [Audio] element ([AudioPlaybackManager.unlockedAudio]). *)
Record AudioElem : Type := {
  a_src : string;
  a_paused : bool;
  a_currentTime : Q;
  a_playbackRate : jsnum;
  a_owner : nat                      (* the msgDiv its handlers close over *)
}.

(** The shared inline [<audio id="inline-audio-element">]. *)
Record InlineAudio : Type := {
  i_src : string;
  i_paused : bool;
  i_currentTime : Q;
  i_playbackRate : jsnum;
  i_onended : option nat             (* msgDiv of the [onended] handler *)
}.

Definition silentSound : string :=
  "data:audio/mp3;base64,//uQxAAAAAAAAAAAAAAAAAAAAAAAWGluZwAAAA8AAAACAAACcQCAgICAgICAgICAgICAgICAgICAgICAgICAgICAgICAgICAgICAgICAgICAgICAgICA".

(** The unlock techniques, in the order [unlockAudio] runs them. *)
Inductive Technique : Type :=
  | TAudioContext
  | TSilentAudio (i : nat)
  | TInlineElement
  | TSimulateInteractions
  | TStoredAudio.

(** [AudioUnlockUtils]. [inlineAudioElement] is the field of that name: the
    inline element as the code reaches it through the field.
    [inline_in_document] tells whether
    [document.getElementById('inline-audio-element')] finds an element; the
    element can be in the document while the field is still [null].
    [unlock_log] is a ghost field: the techniques run so far. *)
Record UnlockSt : Type := {
  audioUnlocked : bool;
  audioUnlockAttempts : nat;
  stored_unlockedAudio : bool;       (* AudioUnlockUtils.unlockedAudio != null *)
  inlineAudioElement : option InlineAudio;
  inline_in_document : bool;
  unlock_log : list Technique
}.

(** [AudioPlaybackManager]. [map_history] is a ghost field: the value of
    [messageStateMap] after each [set], most recent first. *)
Record PlaybackSt : Type := {
  currentlyPlayingMsgDiv : option nat;
  globalPlaybackRate : jsnum;
  messageStateMap : gmap (option string) PState;
  unlockedAudio : option AudioElem;
  isMobileDevice : bool;
  isIOS : bool;
  map_history : list (gmap (option string) PState)
}.

Record World : Type := {
  unlock : UnlockSt;
  pb : PlaybackSt;
  divs : gmap nat MsgDiv;
  localStorage : gmap string string
}.

(** What [fetch('/api/text-to-speech', ...)] gives back: a network failure,
    or a response with its status, [content-type] header and body. *)
Inductive TTSFetch : Type :=
  | TTSNetworkError (e : string)
  | TTSResponse (ok : bool) (status : string) (contentType : option string)
      (blob_size : N) (blob_url : string).

(** The platform's answers. *)
Record Env : Type := {
  num_to_string : jsnum -> string;            (* Number.prototype.toString *)
  parseFloat : string -> jsnum;
  ua_mobile : bool;       (* /iPhone|iPad|iPod|Android/i.test(userAgent) *)
  alwaysReadOutLoud : bool;                   (* #alwaysReadOutLoud checked *)
  had_user_interaction : bool;                (* body.had-user-interaction *)
  audioContext_technique_throws : bool;
  silent_play : nat -> PlayResult;            (* play() of the i-th probe *)
  inline_create_throws : bool;   (* play() on a new inline element throws
                                    or returns no promise *)
  stored_play : PlayResult;
  inline_playback_starts : bool;              (* playViaInlineElement resolves *)
  rate_supported : Q -> bool;    (* the browser plays at this finite rate *)
  tts_fetch : string -> TTSFetch              (* reply to a synthesis request *)
}.

(** *** Field updates *)

Definition with_unlock (f : UnlockSt -> UnlockSt) (w : World) : World :=
  {| unlock := f (unlock w); pb := pb w; divs := divs w;
     localStorage := localStorage w |}.

Definition with_pb (f : PlaybackSt -> PlaybackSt) (w : World) : World :=
  {| unlock := unlock w; pb := f (pb w); divs := divs w;
     localStorage := localStorage w |}.

Definition with_divs (f : gmap nat MsgDiv -> gmap nat MsgDiv) (w : World) : World :=
  {| unlock := unlock w; pb := pb w; divs := f (divs w);
     localStorage := localStorage w |}.

Definition with_localStorage (f : gmap string string -> gmap string string)
  (w : World) : World :=
  {| unlock := unlock w; pb := pb w; divs := divs w;
     localStorage := f (localStorage w) |}.

Definition set_audioUnlocked (b : bool) (u : UnlockSt) : UnlockSt :=
  {| audioUnlocked := b; audioUnlockAttempts := audioUnlockAttempts u;
     stored_unlockedAudio := stored_unlockedAudio u;
     inlineAudioElement := inlineAudioElement u;
     inline_in_document := inline_in_document u; unlock_log := unlock_log u |}.

Definition set_audioUnlockAttempts (n : nat) (u : UnlockSt) : UnlockSt :=
  {| audioUnlocked := audioUnlocked u; audioUnlockAttempts := n;
     stored_unlockedAudio := stored_unlockedAudio u;
     inlineAudioElement := inlineAudioElement u;
     inline_in_document := inline_in_document u; unlock_log := unlock_log u |}.

Definition set_stored_unlockedAudio (b : bool) (u : UnlockSt) : UnlockSt :=
  {| audioUnlocked := audioUnlocked u;
     audioUnlockAttempts := audioUnlockAttempts u;
     stored_unlockedAudio := b;
     inlineAudioElement := inlineAudioElement u;
     inline_in_document := inline_in_document u; unlock_log := unlock_log u |}.

Definition set_inlineAudioElement (i : option InlineAudio) (u : UnlockSt) : UnlockSt :=
  {| audioUnlocked := audioUnlocked u;
     audioUnlockAttempts := audioUnlockAttempts u;
     stored_unlockedAudio := stored_unlockedAudio u;
     inlineAudioElement := i; inline_in_document := inline_in_document u;
     unlock_log := unlock_log u |}.

Definition log_technique (t : Technique) (u : UnlockSt) : UnlockSt :=
  {| audioUnlocked := audioUnlocked u;
     audioUnlockAttempts := audioUnlockAttempts u;
     stored_unlockedAudio := stored_unlockedAudio u;
     inlineAudioElement := inlineAudioElement u;
     inline_in_document := inline_in_document u;
     unlock_log := unlock_log u ++ [t] |}.

Definition set_inline_in_document (b : bool) (u : UnlockSt) : UnlockSt :=
  {| audioUnlocked := audioUnlocked u;
     audioUnlockAttempts := audioUnlockAttempts u;
     stored_unlockedAudio := stored_unlockedAudio u;
     inlineAudioElement := inlineAudioElement u;
     inline_in_document := b; unlock_log := unlock_log u |}.

Definition set_currentlyPlayingMsgDiv (c : option nat) (p : PlaybackSt) : PlaybackSt :=
  {| currentlyPlayingMsgDiv := c; globalPlaybackRate := globalPlaybackRate p;
     messageStateMap := messageStateMap p; unlockedAudio := unlockedAudio p;
     isMobileDevice := isMobileDevice p; isIOS := isIOS p;
     map_history := map_history p |}.

Definition set_globalPlaybackRate (r : jsnum) (p : PlaybackSt) : PlaybackSt :=
  {| currentlyPlayingMsgDiv := currentlyPlayingMsgDiv p; globalPlaybackRate := r;
     messageStateMap := messageStateMap p; unlockedAudio := unlockedAudio p;
     isMobileDevice := isMobileDevice p; isIOS := isIOS p;
     map_history := map_history p |}.

(** [messageStateMap.set(k, v)]. *)
Definition map_set (k : option string) (v : PState) (p : PlaybackSt) : PlaybackSt :=
  {| currentlyPlayingMsgDiv := currentlyPlayingMsgDiv p;
     globalPlaybackRate := globalPlaybackRate p;
     messageStateMap := <[k := v]> (messageStateMap p);
     unlockedAudio := unlockedAudio p;
     isMobileDevice := isMobileDevice p; isIOS := isIOS p;
     map_history := <[k := v]> (messageStateMap p) :: map_history p |}.

Definition set_unlockedAudio (a : option AudioElem) (p : PlaybackSt) : PlaybackSt :=
  {| currentlyPlayingMsgDiv := currentlyPlayingMsgDiv p;
     globalPlaybackRate := globalPlaybackRate p;
     messageStateMap := messageStateMap p; unlockedAudio := a;
     isMobileDevice := isMobileDevice p; isIOS := isIOS p;
     map_history := map_history p |}.

(** Reading and writing a message element through its reference. *)
Definition get_div (w : World) (m : nat) : MsgDiv :=
  default empty_div (divs w !! m).

Definition upd_div (m : nat) (f : MsgDiv -> MsgDiv) (w : World) : World :=
  with_divs (fun d => <[m := f (get_div w m)]> d) w.

Definition set_ds_audioUrl (v : option string) (d : MsgDiv) : MsgDiv :=
  {| ds_messageId := ds_messageId d; ds_audioUrl := v;
     ds_currentPosition := ds_currentPosition d; vocalButton := vocalButton d;
     pauseButton := pauseButton d; playButton := playButton d;
     replayButton := replayButton d; speedButton := speedButton d |}.

Definition set_ds_currentPosition (v : option string) (d : MsgDiv) : MsgDiv :=
  {| ds_messageId := ds_messageId d; ds_audioUrl := ds_audioUrl d;
     ds_currentPosition := v; vocalButton := vocalButton d;
     pauseButton := pauseButton d; playButton := playButton d;
     replayButton := replayButton d; speedButton := speedButton d |}.

Definition set_vocalButton (v : option VocalButton) (d : MsgDiv) : MsgDiv :=
  {| ds_messageId := ds_messageId d; ds_audioUrl := ds_audioUrl d;
     ds_currentPosition := ds_currentPosition d; vocalButton := v;
     pauseButton := pauseButton d; playButton := playButton d;
     replayButton := replayButton d; speedButton := speedButton d |}.

Definition set_speedButton (v : option string) (d : MsgDiv) : MsgDiv :=
  {| ds_messageId := ds_messageId d; ds_audioUrl := ds_audioUrl d;
     ds_currentPosition := ds_currentPosition d; vocalButton := vocalButton d;
     pauseButton := pauseButton d; playButton := playButton d;
     replayButton := replayButton d; speedButton := v |}.

(** The four transport buttons of a message, replaced as a whole. *)
Definition set_controls (pa pl re : bool) (sp : option string) (d : MsgDiv) : MsgDiv :=
  {| ds_messageId := ds_messageId d; ds_audioUrl := ds_audioUrl d;
     ds_currentPosition := ds_currentPosition d; vocalButton := vocalButton d;
     pauseButton := pa; playButton := pl; replayButton := re;
     speedButton := sp |}.

Definition vb_set_style (disp vis : string) (v : VocalButton) : VocalButton :=
  {| vb_display := disp; vb_visibility := vis; vb_loading := vb_loading v;
     vb_icon := vb_icon v |}.

Definition vb_set_content (loading : bool) (icon : string) (v : VocalButton) : VocalButton :=
  {| vb_display := vb_display v; vb_visibility := vb_visibility v;
     vb_loading := loading; vb_icon := icon |}.

End Page.
Export Page.

(** ** AudioUnlockUtils (audioUnlockUtils.js) *)

Module AudioUnlockUtils.

(** [new Promise(executor)] for an executor that settles the promise with
    the value it returns: an exception escaping the executor rejects it. *)
Definition new_Promise {A} (executor : M World A) : M World (settled A) :=
  fun w =>
    match executor w with
    | (w', r) => (w', Ok (settle r))
    end.

(** [await p] inside an [async] function. *)
Definition await {A} (p : M World (settled A)) : M World A :=
  do r <- p;
  match r with
  | Resolved a => ret a
  | Rejected e => throw e
  end.

Definition fresh_inline : InlineAudio :=
  {| i_src := silentSound; i_paused := true; i_currentTime := 0%Q;
     i_playbackRate := one; i_onended := None |}.

(** [createInlineAudioElement] (lines 548-609). The test is on the document
    ([getElementById], line 551). A new element is appended to the body
    (line 577) before [play().then(..)] is called on it (line 580), and the
    field is assigned last, inside the same [if] (line 605): when [play()]
    throws or returns no promise, the element stays in the document and the
    field stays [null], also on every later call. The page has a body. *)
Definition createInlineAudioElement (env : Env) : M World unit :=
  do w <- get;
  if inline_in_document (unlock w) then ret tt
  else
    modify (with_unlock (set_inline_in_document true)) ;;
    if inline_create_throws env then throw "TypeError"
    else modify (with_unlock (set_inlineAudioElement (Some fresh_inline))).

(** Technique 1 (lines 289-335): the AudioContext buffer sources, inside
    their own [try]/[catch] which logs and continues. *)
Definition technique_audioContext (env : Env) : M World unit :=
  try_catch
    (modify (with_unlock (log_technique TAudioContext)) ;;
     if audioContext_technique_throws env then throw "AudioContext" else ret tt)
    (fun _ => ret tt).

(** Technique 2, one iteration (lines 345-383): a silent [Audio] whose
    [play()] promise, when there is one, marks audio as unlocked on
    fulfilment and logs on rejection. *)
Definition silent_probe (env : Env) (i : nat) : M World unit :=
  modify (with_unlock (log_technique (TSilentAudio i))) ;;
  match silent_play env i with
  | PlayThrows => throw "play"
  | PlayUndefined => ret tt
  | PlayFulfilled => modify (with_unlock (set_audioUnlocked true))
  | PlayRejected => ret tt
  end.

(** Lines 399-404: keep one audio element for later; [.catch] is called on
    whatever [play()] returned. *)
Definition store_unlockedAudio (env : Env) : M World unit :=
  do w <- get;
  if stored_unlockedAudio (unlock w) then ret tt
  else
    modify (with_unlock (fun u => log_technique TStoredAudio (set_stored_unlockedAudio true u))) ;;
    match stored_play env with
    | PlayThrows => throw "play"
    | PlayUndefined => throw "TypeError"
    | PlayFulfilled => ret tt
    | PlayRejected => ret tt
    end.

(** The promise executor of [unlockAudio] (lines 274-438). The 500 ms timer
    at its end cleans up, sets [audioUnlocked] and resolves [true]; the outer
    [catch] resolves [false].

    Technique 4, [EventSystem.simulateUserInteractions()] (lines 161-180),
    dispatches events on the body, the root element and the window. It never
    throws, but the listeners attached to the page run inside it; those of
    this repository call [unlockAudio] again (part_006 155-157, ttsManager.js
    383-392, audioUnlockUtils.js 517-519 and 752) and play the inline element
    (audioUnlockUtils.js 590-600). Listeners are not part of [World]: the
    technique is recorded in [unlock_log] and [unlock_executor] is the run in
    which no such listener is attached. A listener can raise
    [audioUnlockAttempts] further and can store the audio element before the
    caller does; nothing below is stated about the counter after a run of the
    techniques, nor about a failure of the stored element in a call that
    simulates interactions. *)
Definition unlock_executor (env : Env) (forceAttempt preventRecursion : bool)
  : M World bool :=
  try_catch
    (let hasUserInteraction := had_user_interaction env || forceAttempt in
     when hasUserInteraction (technique_audioContext env) ;;
     silent_probe env 0 ;;
     silent_probe env 1 ;;
     silent_probe env 2 ;;
     modify (with_unlock (log_technique TInlineElement)) ;;
     createInlineAudioElement env ;;
     when (negb preventRecursion)
       (modify (with_unlock (log_technique TSimulateInteractions))) ;;
     store_unlockedAudio env ;;
     modify (with_unlock (set_audioUnlocked true)) ;;
     ret true)
    (fun _ => ret false).

(** [unlockAudio(forceAttempt = false, preventRecursion = false)]
    (lines 252-439). *)
Definition unlockAudio (env : Env) (forceAttempt preventRecursion : bool)
  : M World (settled bool) :=
  do w <- get;
  if audioUnlocked (unlock w) && negb forceAttempt then ret (Resolved true)
  else if (5 <? audioUnlockAttempts (unlock w))%nat && negb forceAttempt
  then ret (Resolved false)
  else
    modify (with_unlock (fun u =>
      set_audioUnlockAttempts (S (audioUnlockAttempts u)) u)) ;;
    new_Promise (unlock_executor env forceAttempt preventRecursion).

(** A failure before the simulated interactions: a probe whose [play()]
    throws, or an inline element that is not in the document yet and whose
    [play()] throws or returns no promise. *)
Definition fails_early (env : Env) (w : World) : bool :=
  match silent_play env 0, silent_play env 1, silent_play env 2 with
  | PlayThrows, _, _ | _, PlayThrows, _ | _, _, PlayThrows => true
  | _, _, _ => negb (inline_in_document (unlock w)) && inline_create_throws env
  end.

(** A failure after them: no audio element is stored yet and [play()] on
    the new one throws or returns no promise. *)
Definition fails_late (env : Env) (w : World) : bool :=
  negb (stored_unlockedAudio (unlock w))
  && match stored_play env with
     | PlayThrows | PlayUndefined => true
     | _ => false
     end.

(** A failure that reaches the outer handler of the executor. *)
Definition reaches_outer_catch (env : Env) (w : World) : bool :=
  fails_early env w || fails_late env w.

(** The call gets past both early returns and runs the techniques. *)
Definition attempt_runs (forceAttempt : bool) (w : World) : bool :=
  negb (audioUnlocked (unlock w) && negb forceAttempt)
  && negb ((5 <? audioUnlockAttempts (unlock w))%nat && negb forceAttempt).

End AudioUnlockUtils.

(** ** AudioPlaybackManager (second part of ttsManager.js) *)

Module AudioPlaybackManager.
Import AudioUnlockUtils.

(** [Math.max] on two finite numbers. *)
Definition Math_max (a b : Q) : Q := if Qle_bool a b then b else a.

(** [`${globalPlaybackRate}x`]. *)
Definition rate_label (env : Env) (r : jsnum) : string :=
  num_to_string env r ++ "x".

(** [getCurrentPlaybackTime] (lines 753-767). *)
Definition getCurrentPlaybackTime (w : World) : Q :=
  let currentTime :=
    match inlineAudioElement (unlock w) with
    | Some i => if negb (i_paused i) then i_currentTime i else 0%Q
    | None => 0%Q
    end in
  match unlockedAudio (pb w) with
  | Some a =>
      if negb (a_paused a) then Math_max currentTime (a_currentTime a)
      else currentTime
  | None => currentTime
  end.

Definition vocal_style (disp vis : string) (d : MsgDiv) : MsgDiv :=
  match vocalButton d with
  | Some v => set_vocalButton (Some (vb_set_style disp vis v)) d
  | None => d
  end.

(** [updateAudioControls] (lines 796-987): the four transport buttons are
    removed and rebuilt from the state of the message; the vocal button is
    shown or hidden. Only [display] and [visibility] of the styling are
    kept. In state [FINISHED] the values assigned are ['none !important'] and
    ['hidden !important'] (lines 979-980), which are not values of these
    properties: the assignments are ignored and the vocal button keeps its
    style. The click handlers that are registered for the new buttons
    (lines 872, 921, 974 and 1606) are not part of [World]. *)
Definition updateAudioControls (env : Env) (msgDiv : nat) (w : World) : World :=
  let messageId := ds_messageId (get_div w msgDiv) in
  let state := default IDLE (messageStateMap (pb w) !! messageId) in
  let label := rate_label env (globalPlaybackRate (pb w)) in
  upd_div msgDiv (fun d =>
    match state with
    | IDLE =>
        set_controls false false false None
          (if alwaysReadOutLoud env && negb (ua_mobile env)
           then vocal_style "none" "hidden" d
           else vocal_style "inline-block" "visible" d)
    | PLAYING =>
        set_controls true false false (Some label) (vocal_style "none" "hidden" d)
    | PAUSED =>
        set_controls false true false (Some label) (vocal_style "none" "hidden" d)
    | FINISHED => set_controls false false true None d
    end) w.

(** [resetAudioState] (lines 770-793). *)
Definition resetAudioState (msgDiv : nat) (w : World) : World :=
  let messageId := ds_messageId (get_div w msgDiv) in
  if negb (truthy messageId) then w
  else
    let w := with_pb (map_set messageId IDLE) w in
    upd_div msgDiv (fun d =>
      let d :=
        match vocalButton d with
        | Some v =>
            set_vocalButton
              (Some (vb_set_content false "assets/vocal.png"
                       (vb_set_style "inline-block" "visible" v))) d
        | None => d
        end in
      (* '.stop-voice-button, .play-button, .speed-button' are removed *)
      set_controls false false false None d) w.

Definition release_inline (i : InlineAudio) : InlineAudio :=
  {| i_src := ""; i_paused := true; i_currentTime := 0%Q;
     i_playbackRate := i_playbackRate i; i_onended := None |}.

(** [releaseAudioResources] (lines 1334-1378). *)
Definition releaseAudioResources (env : Env) (w : World) : World :=
  let w := with_pb (set_unlockedAudio None) w in
  let w :=
    match inlineAudioElement (unlock w) with
    | Some i => with_unlock (set_inlineAudioElement (Some (release_inline i))) w
    | None => w
    end in
  match currentlyPlayingMsgDiv (pb w) with
  | Some c =>
      let messageId := ds_messageId (get_div w c) in
      let w :=
        if truthy messageId
        then updateAudioControls env c (with_pb (map_set messageId FINISHED) w)
        else w in
      with_pb (set_currentlyPlayingMsgDiv None) w
  | None => w
  end.

(** [stopCurrentlyPlayingAudio(convertToReplay = true)] (lines 722-750). *)
Definition stopCurrentlyPlayingAudio (env : Env) (convertToReplay : bool)
  (w : World) : World :=
  match currentlyPlayingMsgDiv (pb w) with
  | None => w
  | Some tempMsgDiv =>
      let messageId := ds_messageId (get_div w tempMsgDiv) in
      if negb (truthy messageId) then w
      else
        let currentTime := getCurrentPlaybackTime w in
        let w := releaseAudioResources env w in
        let w :=
          if convertToReplay
          then with_pb (map_set messageId FINISHED) w
          else
            upd_div tempMsgDiv
              (set_ds_currentPosition (Some (num_to_string env (JNum currentTime))))
              (with_pb (map_set messageId PAUSED) w) in
        updateAudioControls env tempMsgDiv w
  end.

(** [AudioUnlockUtils.playViaInlineElement] (audioUnlockUtils.js 613-729), as
    its callers see it: the element is looked up in the document (line 617),
    its source is replaced, and the promise resolves on the [play] event or
    rejects. The [play] handler assigns no rate: it does so only when
    [window.AudioPlaybackManager] exists (line 641), and the repository
    exports that object without putting it on [window]. An element that is
    in the document while the field is [null] is played all the same; its
    state is not part of [World]. *)
Definition playViaInlineElement (env : Env) (audioUrl : option string)
  : M World (settled unit) :=
  do w <- get;
  if negb (inline_in_document (unlock w)) then ret (Rejected "No inline element")
  else
    match inlineAudioElement (unlock w) with
    | None =>
        if inline_playback_starts env then ret (Resolved tt)
        else ret (Rejected "play")
    | Some i =>
        if inline_playback_starts env
        then
          modify (with_unlock (set_inlineAudioElement (Some
            {| i_src := to_dataset_string audioUrl; i_paused := false;
               i_currentTime := 0%Q; i_playbackRate := i_playbackRate i;
               i_onended := i_onended i |}))) ;;
          ret (Resolved tt)
        else
          modify (with_unlock (set_inlineAudioElement (Some
            {| i_src := to_dataset_string audioUrl; i_paused := true;
               i_currentTime := 0%Q; i_playbackRate := i_playbackRate i;
               i_onended := i_onended i |}))) ;;
          ret (Rejected "play")
    end.

Definition set_inline_rate (r : jsnum) (i : InlineAudio) : InlineAudio :=
  {| i_src := i_src i; i_paused := i_paused i; i_currentTime := i_currentTime i;
     i_playbackRate := r; i_onended := i_onended i |}.

Definition set_inline_onended (h : option nat) (i : InlineAudio) : InlineAudio :=
  {| i_src := i_src i; i_paused := i_paused i; i_currentTime := i_currentTime i;
     i_playbackRate := i_playbackRate i; i_onended := h |}.

Definition upd_inline (f : InlineAudio -> InlineAudio) (w : World) : World :=
  with_unlock (fun u => set_inlineAudioElement (f <$> inlineAudioElement u) u) w.

Definition set_audio_rate (r : jsnum) (a : AudioElem) : AudioElem :=
  {| a_src := a_src a; a_paused := a_paused a; a_currentTime := a_currentTime a;
     a_playbackRate := r; a_owner := a_owner a |}.

Definition set_audio_src (s : string) (a : AudioElem) : AudioElem :=
  {| a_src := s; a_paused := a_paused a; a_currentTime := a_currentTime a;
     a_playbackRate := a_playbackRate a; a_owner := a_owner a |}.

Definition set_audio_paused (b : bool) (a : AudioElem) : AudioElem :=
  {| a_src := a_src a; a_paused := b; a_currentTime := a_currentTime a;
     a_playbackRate := a_playbackRate a; a_owner := a_owner a |}.

Definition upd_audio (f : AudioElem -> AudioElem) (w : World) : World :=
  with_pb (fun p => set_unlockedAudio (f <$> unlockedAudio p) p) w.

(** The rates the speed button offers (lines 1207-1208). *)
Definition offered_rate (q : Q) : bool :=
  Qeq_bool q 1 || Qeq_bool q (3 # 2) || Qeq_bool q 2.

(** What [media.playbackRate = r] throws, if anything. The attribute is a
    [double]: a value that is not finite is a [TypeError]. A finite rate
    that the browser does not support is a [NotSupportedError]; every
    browser plays at the three rates the page offers. *)
Definition playbackRate_error (env : Env) (r : jsnum) : option string :=
  match r with
  | JNum q =>
      if offered_rate q || rate_supported env q then None
      else Some "NotSupportedError"
  | JNaN | JPosInf | JNegInf => Some "TypeError"
  end.

Definition accepts_rate (env : Env) (r : jsnum) : bool :=
  match playbackRate_error env r with
  | None => true
  | Some _ => false
  end.

(** The value of an assignment to [playbackRate] that goes through. *)
Definition accepted_rate {S} (env : Env) (r : jsnum) : M S jsnum :=
  match playbackRate_error env r with
  | None => ret r
  | Some e => throw e
  end.

(** [AudioUnlockUtils.inlineAudioElement.playbackRate = r], guarded by a test
    of the field where the code has one. *)
Definition assign_inline_rate (env : Env) (r : jsnum) : M World unit :=
  do w <- get;
  match inlineAudioElement (unlock w) with
  | Some _ =>
      do r <- accepted_rate env r;
      modify (upd_inline (set_inline_rate r))
  | None => ret tt
  end.

(** [this.unlockedAudio.playbackRate = r] on an element that exists. *)
Definition assign_audio_rate (env : Env) (r : jsnum) : M World unit :=
  do r <- accepted_rate env r;
  modify (upd_audio (set_audio_rate r)).

(** The inline branch of [playMessageAudio] (lines 436-493), with its own
    [try]/[catch]; returns [playedViaInline]. The flag is set right after
    the [await] (line 440): when a later statement of the [try] throws, the
    [catch] logs and the flag stays [true], so that the rest of the [try] is
    skipped and no dedicated element is made either. *)
Definition play_inline_branch (env : Env) (msgDiv : nat) (audioUrl : option string)
  : M World bool :=
  do w <- get;
  if ua_mobile env && bool_decide (is_Some (inlineAudioElement (unlock w)))
  then
    do playedViaInline <-
      try_catch (await (playViaInlineElement env audioUrl) ;; ret true)
        (fun _ => ret false);
    if playedViaInline
    then
      try_catch
        (do w <- get;
         assign_inline_rate env (globalPlaybackRate (pb w)) ;;
         modify (updateAudioControls env msgDiv) ;;
         modify (upd_inline (set_inline_onended (Some msgDiv))))
        (fun _ => ret tt) ;;
      ret true
    else ret false
  else ret false.

(** The dedicated-element branch (lines 496-676). [audioUrl.substring] throws
    on an undefined URL (line 498). The new element replaces the old one
    (line 501) before it is given the global rate (line 511) and, after its
    handlers, the URL (line 581). [playWithRetry] only schedules its first
    attempt and returns: the retry ladder runs after [playMessageAudio] has
    returned and never writes [messageStateMap]. *)
Definition play_dedicated_branch (env : Env) (msgDiv : nat) (audioUrl : option string)
  : M World unit :=
  match audioUrl with
  | None => throw "TypeError"
  | Some url =>
      modify (with_pb (set_unlockedAudio (Some
        {| a_src := ""; a_paused := true; a_currentTime := 0%Q;
           a_playbackRate := one; a_owner := msgDiv |}))) ;;
      do w <- get;
      assign_audio_rate env (globalPlaybackRate (pb w)) ;;
      modify (upd_audio (set_audio_src url)) ;;
      modify (updateAudioControls env msgDiv)
  end.

(** [playMessageAudio(msgDiv, audioUrl)] (lines 399-681). *)
Definition playMessageAudio (env : Env) (msgDiv : nat) (audioUrl : option string)
  : M World unit :=
  modify (upd_div msgDiv (set_ds_audioUrl (Some (to_dataset_string audioUrl)))) ;;
  do w <- get;
  when (match currentlyPlayingMsgDiv (pb w) with
        | Some c => negb (Nat.eqb c msgDiv)
        | None => false
        end)
    (modify (stopCurrentlyPlayingAudio env false)) ;;
  await (unlockAudio env false false) ;;
  modify (upd_div msgDiv (vocal_style "none" "hidden")) ;;
  modify (with_pb (set_currentlyPlayingMsgDiv (Some msgDiv))) ;;
  do w <- get;
  let messageId := ds_messageId (get_div w msgDiv) in
  modify (with_pb (map_set messageId PLAYING)) ;;
  try_catch
    (do playedViaInline <- play_inline_branch env msgDiv audioUrl;
     when (negb playedViaInline) (play_dedicated_branch env msgDiv audioUrl))
    (fun _ => modify (resetAudioState msgDiv)).

(** [replayAudio(msgDiv, audioUrl)] up to its last [await]
    (lines 1143-1184). The rate is given to the inline element outside any
    [try] (line 1179). *)
Definition replayAudio (env : Env) (msgDiv : nat) (audioUrl : option string)
  : M World unit :=
  do w <- get;
  let currentRate := globalPlaybackRate (pb w) in
  modify (upd_div msgDiv (set_ds_currentPosition (Some "0"))) ;;
  modify (with_pb (set_unlockedAudio None)) ;;
  do w <- get;
  let audioUrl :=
    if negb (truthy audioUrl) && truthy (ds_audioUrl (get_div w msgDiv))
    then ds_audioUrl (get_div w msgDiv)
    else audioUrl in
  modify (with_pb (set_globalPlaybackRate currentRate)) ;;
  do w <- get;
  when (isMobileDevice (pb w))
    (assign_inline_rate env (globalPlaybackRate (pb w))) ;;
  playMessageAudio env msgDiv audioUrl.

(** The 100 ms timer that ends [replayAudio] (lines 1187-1202): an element
    whose rate differs from the global rate is put back on it. *)
Definition replayAudio_timer (env : Env) : M World unit :=
  do w <- get;
  let r := globalPlaybackRate (pb w) in
  match unlockedAudio (pb w) with
  | Some a => when (negb (strict_eq (a_playbackRate a) r)) (assign_audio_rate env r)
  | None => ret tt
  end ;;
  match inlineAudioElement (unlock w) with
  | Some i =>
      when (isMobileDevice (pb w) && negb (strict_eq (i_playbackRate i) r))
        (assign_inline_rate env r)
  | None => ret tt
  end.

(** The conditional expression of [cyclePlaybackSpeed] (lines 1207-1208). *)
Definition next_rate (r : jsnum) : jsnum :=
  if strict_eq r one then one_and_half
  else if strict_eq r one_and_half then two
  else one.

(** [cyclePlaybackSpeed(msgDiv)] (lines 1206-1273). On iOS a playing element
    is paused here and resumed by a 50 ms timer. *)
Definition cyclePlaybackSpeed (env : Env) (msgDiv : nat) (w : World) : World :=
  let w := with_pb (fun p => set_globalPlaybackRate (next_rate (globalPlaybackRate p)) p) w in
  let r := globalPlaybackRate (pb w) in
  let w := if isMobileDevice (pb w) then upd_inline (set_inline_rate r) w else w in
  let w :=
    upd_audio (fun a =>
      let a := set_audio_rate r a in
      if isIOS (pb w) && negb (a_paused a) then set_audio_paused true a else a) w in
  let w := with_localStorage (fun ls => <["audioPlaybackRate" := num_to_string env r]> ls) w in
  with_divs (fun ds =>
    (fun d => match speedButton d with
              | Some _ => set_speedButton (Some (rate_label env r)) d
              | None => d
              end) <$> ds) w.

(** The part of [initialize] (lines 324-374) that sets the rate: normal speed
    first, then whatever number [localStorage] holds. *)
Definition initialize (env : Env) (w : World) : World :=
  let w := with_pb (set_globalPlaybackRate one) w in
  match localStorage w !! "audioPlaybackRate" with
  | Some savedPlaybackRate =>
      with_pb (set_globalPlaybackRate (parseFloat env savedPlaybackRate)) w
  | None => w
  end.


End AudioPlaybackManager.

(** ** TTSManager (first part of ttsManager.js) *)

Module TTSManager.
Import AudioUnlockUtils AudioPlaybackManager.

(** [s.includes(sub)]. *)
Definition includes (s sub : string) : bool :=
  match index 0 sub s with
  | Some _ => true
  | None => false
  end.

(** [requestTTS(text)] (lines 23-70); the [catch] logs and rethrows. *)
Definition requestTTS (env : Env) (text : string) : M World string :=
  try_catch
    (match tts_fetch env text with
     | TTSNetworkError e => throw e
     | TTSResponse ok status contentType size url =>
         if negb ok then throw ("TTS server error: " ++ status)
         else
           match contentType with
           | None => throw "Invalid audio response"
           | Some ct =>
               if negb (includes ct "audio/") then throw "Invalid audio response"
               else if (size =? 0)%N then throw "Received empty audio blob"
               else ret url
           end
     end)
    (fun error => throw error).

Definition vocal_content (loading : bool) (icon : string) (d : MsgDiv) : MsgDiv :=
  match vocalButton d with
  | Some v => set_vocalButton (Some (vb_set_content loading icon v)) d
  | None => d
  end.

(** [speakMessage(msgDiv, text, audioPlaybackManager)] (lines 100-151). *)
Definition speakMessage (env : Env) (msgDiv : nat) (text : string) : M World string :=
  try_catch
    (modify (stopCurrentlyPlayingAudio env false) ;;
     modify (upd_div msgDiv (vocal_content true "assets/loading.png")) ;;
     await (unlockAudio env false false) ;;
     do audioUrl <- requestTTS env text;
     modify (upd_div msgDiv (set_ds_audioUrl (Some audioUrl))) ;;
     playMessageAudio env msgDiv (Some audioUrl) ;;
     ret audioUrl)
    (fun error =>
       modify (upd_div msgDiv (vocal_content false "assets/vocal.png")) ;;
       throw error).

End TTSManager.

(** ** Transcription client ([RecordingManager.sendAudioToBackend]) *)

Module Transcription.

(** A request to [/api/speech-to-text]: the form fields that are sent. *)
Record Request : Type := {
  req_size : N;                    (* size of the [file] field *)
  req_compress : bool;             (* [compress] = 'true' is present *)
  req_language : string            (* [userSelectedLanguage] *)
}.

(** The reply to a request: the network fails, or a response arrives whose
    body parses as JSON ([Some transcript], the field may be undefined) or
    does not ([None]). *)
Inductive Reply : Type :=
  | NetworkError (e : string)
  | Response (ok : bool) (status_and_text : string) (json : option (option string)).

Record TEnv : Type := {
  languageSelect : option string;  (* value of #languageSelect, if present *)
  reply : nat -> Reply             (* reply to the n-th request sent *)
}.

(** The state is the list of requests sent so far. *)
Definition fetch_json (env : TEnv) (r : Request) : M (list Request) (option string) :=
  fun sent =>
    let sent' := (sent ++ [r])%list in
    match reply env (List.length sent) with
    | NetworkError e => (sent', Throw e)
    | Response ok st json =>
        if negb ok then (sent', Throw ("Server responded with " ++ st))
        else
          match json with
          | None => (sent', Throw "SyntaxError")
          | Some transcript => (sent', Ok transcript)
          end
    end.

Definition size_threshold : N := 100000.

(** [sendAudioToBackend(audioBlob)] (lines 1735-1813). The first [try] either
    returns the transcript or falls through; the second rethrows. *)
Definition sendAudioToBackend (env : TEnv) (blob_size : N)
  : M (list Request) (option string) :=
  let currentLanguage := default "fr" (languageSelect env) in
  do compressed <-
    (if (size_threshold <? blob_size)%N
     then
       try_catch
         (do t <- fetch_json env
                    {| req_size := blob_size; req_compress := true;
                       req_language := currentLanguage |};
          ret (Some t))
         (fun _ => ret None)
     else ret None);
  match compressed with
  | Some transcript => ret transcript
  | None =>
      try_catch
        (fetch_json env
           {| req_size := blob_size; req_compress := false;
              req_language := currentLanguage |})
        (fun error => throw error)
  end.

(** A reply that makes [fetch_json] throw. *)
Definition fails (r : Reply) : bool :=
  match r with
  | NetworkError _ => true
  | Response ok _ json => negb ok || negb (bool_decide (is_Some json))
  end.

End Transcription.

(** ** RecordingManager (recordingManager.js) *)

Module RecordingManager.

(** The microphone [MediaStream]: its id and whether its track is live. *)
Record Mic : Type := { mic_id : nat; mic_active : bool }.

Inductive CtxState : Type := CtxRunning | CtxSuspended | CtxClosing | CtxClosed.

(** The text input [#userInput]. *)
Record Input : Type := { value : string; readOnly : bool; focused : bool }.

(** The callbacks the code hands to [setTimeout]. *)
Inductive TimerTag : Type :=
  | TRecognitionSetup
  | TRestartRecognition
  | TDrawWaveform
  | TStopSettle (shouldKeepTranscript : bool)
  | TCheckMicrophone
  | TDelayedTrackStop (mic : nat).

(** Calls made to the platform and to the rest of the page. *)
Inductive Effect : Type :=
  | EGetUserMedia
  | EAlert (msg : string)
  | ETrackStop (mic : nat)
  | ERecognitionAbort
  | ERecognitionStop
  | ERecognitionStart
  | EReleasePlaybackResources
  | EUnlockAudio
  | ESetTimeout (ms : nat) (t : TimerTag)
  | EInputEvent
  | EThinkingIndicator
  | ELoadRecordRTC
  | ERecorderStart
  | ERecorderStop (shouldKeepTranscript : bool)
  | EAppendMessage (text : string)
  | EChat (withAudio : bool) (text : string)
  | ESubmitForm (text : string).

(** Set once by [initialize] / [initSpeechRecognition]. *)
Record Config : Type := {
  isAndroid : bool;
  isEdge : bool;
  speechRecognitionSupported : bool
}.

(** The fields of [RecordingManager]. [recognition] is the recognizer and
    whether it is running; [source] is the id of the stream the
    [MediaStreamSource] wraps; [recordingUI] is the overlay and whether it is
    shown; [effects] is a ghost field, oldest call first. *)
Record Rec : Type := {
  isRecording : bool;
  micStream : option Mic;
  recognition : option bool;
  recordRTC : bool;
  mediaRecorder : bool;
  audioContext : option CtxState;
  analyser : bool;
  source : option nat;
  recordingStartTime : nat;
  recordingTimer : bool;
  animationFrameId : bool;
  processingTranscript : bool;
  currentTranscript : string;
  userInput : option Input;
  recordingUI : option bool;
  effects : list Effect;
  cfg : Config
}.

(** The platform's answers to the recording code. *)
Record REnv : Type := {
  getUserMedia : res Mic;
  isSafari : bool;                       (* UtilityManager.isSafari() *)
  ua_iOS : bool;                         (* /iPad|iPhone|iPod/.test(userAgent) *)
  autoTranscribeVoice : bool;            (* SettingsManager.getSetting *)
  setting_alwaysReadOutLoud : bool;
  playbackManager_present : bool;        (* window.AudioManager or window.AudioPlaybackManager *)
  unlockUtils_present : bool;            (* window.AudioUnlockUtils *)
  shared_audioContext : option CtxState; (* a context another component offers *)
  new_AudioContext : res CtxState;       (* new AudioContext() *)
  RecordRTC_loaded : bool;               (* typeof RecordRTC !== 'undefined' *)
  new_RecordRTC_throws : bool;
  recognition_start_error : option string;
  has_appendMessage : bool;
  has_getBotResponse : bool;
  has_getBotResponseAndAudio : bool;
  has_chatForm : bool;                   (* document.getElementById('chatForm') *)
  js_trim : string -> string;            (* String.prototype.trim *)
  now : nat                              (* Date.now() *)
}.

Definition set_isRecording (v : bool) (r : Rec) : Rec :=
  {| isRecording := v; micStream := micStream r;
     recognition := recognition r; recordRTC := recordRTC r;
     mediaRecorder := mediaRecorder r; audioContext := audioContext r;
     analyser := analyser r; source := source r;
     recordingStartTime := recordingStartTime r;
     recordingTimer := recordingTimer r;
     animationFrameId := animationFrameId r;
     processingTranscript := processingTranscript r;
     currentTranscript := currentTranscript r; userInput := userInput r;
     recordingUI := recordingUI r; effects := effects r; cfg := cfg r |}.

Definition set_micStream (v : option Mic) (r : Rec) : Rec :=
  {| isRecording := isRecording r; micStream := v;
     recognition := recognition r; recordRTC := recordRTC r;
     mediaRecorder := mediaRecorder r; audioContext := audioContext r;
     analyser := analyser r; source := source r;
     recordingStartTime := recordingStartTime r;
     recordingTimer := recordingTimer r;
     animationFrameId := animationFrameId r;
     processingTranscript := processingTranscript r;
     currentTranscript := currentTranscript r; userInput := userInput r;
     recordingUI := recordingUI r; effects := effects r; cfg := cfg r |}.

Definition set_recognition (v : option bool) (r : Rec) : Rec :=
  {| isRecording := isRecording r; micStream := micStream r;
     recognition := v; recordRTC := recordRTC r;
     mediaRecorder := mediaRecorder r; audioContext := audioContext r;
     analyser := analyser r; source := source r;
     recordingStartTime := recordingStartTime r;
     recordingTimer := recordingTimer r;
     animationFrameId := animationFrameId r;
     processingTranscript := processingTranscript r;
     currentTranscript := currentTranscript r; userInput := userInput r;
     recordingUI := recordingUI r; effects := effects r; cfg := cfg r |}.

Definition set_recordRTC (v : bool) (r : Rec) : Rec :=
  {| isRecording := isRecording r; micStream := micStream r;
     recognition := recognition r; recordRTC := v;
     mediaRecorder := mediaRecorder r; audioContext := audioContext r;
     analyser := analyser r; source := source r;
     recordingStartTime := recordingStartTime r;
     recordingTimer := recordingTimer r;
     animationFrameId := animationFrameId r;
     processingTranscript := processingTranscript r;
     currentTranscript := currentTranscript r; userInput := userInput r;
     recordingUI := recordingUI r; effects := effects r; cfg := cfg r |}.

Definition set_mediaRecorder (v : bool) (r : Rec) : Rec :=
  {| isRecording := isRecording r; micStream := micStream r;
     recognition := recognition r; recordRTC := recordRTC r;
     mediaRecorder := v; audioContext := audioContext r;
     analyser := analyser r; source := source r;
     recordingStartTime := recordingStartTime r;
     recordingTimer := recordingTimer r;
     animationFrameId := animationFrameId r;
     processingTranscript := processingTranscript r;
     currentTranscript := currentTranscript r; userInput := userInput r;
     recordingUI := recordingUI r; effects := effects r; cfg := cfg r |}.

Definition set_audioContext (v : option CtxState) (r : Rec) : Rec :=
  {| isRecording := isRecording r; micStream := micStream r;
     recognition := recognition r; recordRTC := recordRTC r;
     mediaRecorder := mediaRecorder r; audioContext := v;
     analyser := analyser r; source := source r;
     recordingStartTime := recordingStartTime r;
     recordingTimer := recordingTimer r;
     animationFrameId := animationFrameId r;
     processingTranscript := processingTranscript r;
     currentTranscript := currentTranscript r; userInput := userInput r;
     recordingUI := recordingUI r; effects := effects r; cfg := cfg r |}.

Definition set_analyser (v : bool) (r : Rec) : Rec :=
  {| isRecording := isRecording r; micStream := micStream r;
     recognition := recognition r; recordRTC := recordRTC r;
     mediaRecorder := mediaRecorder r; audioContext := audioContext r;
     analyser := v; source := source r;
     recordingStartTime := recordingStartTime r;
     recordingTimer := recordingTimer r;
     animationFrameId := animationFrameId r;
     processingTranscript := processingTranscript r;
     currentTranscript := currentTranscript r; userInput := userInput r;
     recordingUI := recordingUI r; effects := effects r; cfg := cfg r |}.

Definition set_source (v : option nat) (r : Rec) : Rec :=
  {| isRecording := isRecording r; micStream := micStream r;
     recognition := recognition r; recordRTC := recordRTC r;
     mediaRecorder := mediaRecorder r; audioContext := audioContext r;
     analyser := analyser r; source := v;
     recordingStartTime := recordingStartTime r;
     recordingTimer := recordingTimer r;
     animationFrameId := animationFrameId r;
     processingTranscript := processingTranscript r;
     currentTranscript := currentTranscript r; userInput := userInput r;
     recordingUI := recordingUI r; effects := effects r; cfg := cfg r |}.

Definition set_recordingStartTime (v : nat) (r : Rec) : Rec :=
  {| isRecording := isRecording r; micStream := micStream r;
     recognition := recognition r; recordRTC := recordRTC r;
     mediaRecorder := mediaRecorder r; audioContext := audioContext r;
     analyser := analyser r; source := source r; recordingStartTime := v;
     recordingTimer := recordingTimer r;
     animationFrameId := animationFrameId r;
     processingTranscript := processingTranscript r;
     currentTranscript := currentTranscript r; userInput := userInput r;
     recordingUI := recordingUI r; effects := effects r; cfg := cfg r |}.

Definition set_recordingTimer (v : bool) (r : Rec) : Rec :=
  {| isRecording := isRecording r; micStream := micStream r;
     recognition := recognition r; recordRTC := recordRTC r;
     mediaRecorder := mediaRecorder r; audioContext := audioContext r;
     analyser := analyser r; source := source r;
     recordingStartTime := recordingStartTime r; recordingTimer := v;
     animationFrameId := animationFrameId r;
     processingTranscript := processingTranscript r;
     currentTranscript := currentTranscript r; userInput := userInput r;
     recordingUI := recordingUI r; effects := effects r; cfg := cfg r |}.

Definition set_animationFrameId (v : bool) (r : Rec) : Rec :=
  {| isRecording := isRecording r; micStream := micStream r;
     recognition := recognition r; recordRTC := recordRTC r;
     mediaRecorder := mediaRecorder r; audioContext := audioContext r;
     analyser := analyser r; source := source r;
     recordingStartTime := recordingStartTime r;
     recordingTimer := recordingTimer r; animationFrameId := v;
     processingTranscript := processingTranscript r;
     currentTranscript := currentTranscript r; userInput := userInput r;
     recordingUI := recordingUI r; effects := effects r; cfg := cfg r |}.

Definition set_processingTranscript (v : bool) (r : Rec) : Rec :=
  {| isRecording := isRecording r; micStream := micStream r;
     recognition := recognition r; recordRTC := recordRTC r;
     mediaRecorder := mediaRecorder r; audioContext := audioContext r;
     analyser := analyser r; source := source r;
     recordingStartTime := recordingStartTime r;
     recordingTimer := recordingTimer r;
     animationFrameId := animationFrameId r; processingTranscript := v;
     currentTranscript := currentTranscript r; userInput := userInput r;
     recordingUI := recordingUI r; effects := effects r; cfg := cfg r |}.

Definition set_currentTranscript (v : string) (r : Rec) : Rec :=
  {| isRecording := isRecording r; micStream := micStream r;
     recognition := recognition r; recordRTC := recordRTC r;
     mediaRecorder := mediaRecorder r; audioContext := audioContext r;
     analyser := analyser r; source := source r;
     recordingStartTime := recordingStartTime r;
     recordingTimer := recordingTimer r;
     animationFrameId := animationFrameId r;
     processingTranscript := processingTranscript r; currentTranscript := v;
     userInput := userInput r; recordingUI := recordingUI r;
     effects := effects r; cfg := cfg r |}.

Definition set_userInput (v : option Input) (r : Rec) : Rec :=
  {| isRecording := isRecording r; micStream := micStream r;
     recognition := recognition r; recordRTC := recordRTC r;
     mediaRecorder := mediaRecorder r; audioContext := audioContext r;
     analyser := analyser r; source := source r;
     recordingStartTime := recordingStartTime r;
     recordingTimer := recordingTimer r;
     animationFrameId := animationFrameId r;
     processingTranscript := processingTranscript r;
     currentTranscript := currentTranscript r; userInput := v;
     recordingUI := recordingUI r; effects := effects r; cfg := cfg r |}.

Definition set_recordingUI (v : option bool) (r : Rec) : Rec :=
  {| isRecording := isRecording r; micStream := micStream r;
     recognition := recognition r; recordRTC := recordRTC r;
     mediaRecorder := mediaRecorder r; audioContext := audioContext r;
     analyser := analyser r; source := source r;
     recordingStartTime := recordingStartTime r;
     recordingTimer := recordingTimer r;
     animationFrameId := animationFrameId r;
     processingTranscript := processingTranscript r;
     currentTranscript := currentTranscript r; userInput := userInput r;
     recordingUI := v; effects := effects r; cfg := cfg r |}.

Definition set_effects (v : list Effect) (r : Rec) : Rec :=
  {| isRecording := isRecording r; micStream := micStream r;
     recognition := recognition r; recordRTC := recordRTC r;
     mediaRecorder := mediaRecorder r; audioContext := audioContext r;
     analyser := analyser r; source := source r;
     recordingStartTime := recordingStartTime r;
     recordingTimer := recordingTimer r;
     animationFrameId := animationFrameId r;
     processingTranscript := processingTranscript r;
     currentTranscript := currentTranscript r; userInput := userInput r;
     recordingUI := recordingUI r; effects := v; cfg := cfg r |}.

Definition effect (e : Effect) : M Rec unit :=
  modify (fun r => set_effects (effects r ++ [e])%list r).

Definition set_value (v : string) (i : Input) : Input :=
  {| value := v; readOnly := readOnly i; focused := focused i |}.

Definition set_readOnly (b : bool) (i : Input) : Input :=
  {| value := value i; readOnly := b; focused := focused i |}.

Definition set_focused (b : bool) (i : Input) : Input :=
  {| value := value i; readOnly := readOnly i; focused := b |}.

(** A member access on [this.userInput]: a [TypeError] when it is null. *)
Definition on_userInput (f : Input -> Input) : M Rec unit :=
  do r <- get;
  match userInput r with
  | Some i => modify (set_userInput (Some (f i)))
  | None => throw "TypeError"
  end.

(** [if (this.userInput) { ... }]. *)
Definition if_userInput (f : Input -> Input) : M Rec unit :=
  modify (fun r => set_userInput (f <$> userInput r) r).

(** [showRecordingUI] / [hideRecordingUI] (lines 752-775). *)
Definition showRecordingUI : M Rec unit :=
  modify (fun r => set_recordingUI ((fun _ => true) <$> recordingUI r) r).

Definition hideRecordingUI : M Rec unit :=
  do r <- get;
  match recordingUI r with
  | Some _ =>
      modify (set_recordingUI (Some false)) ;;
      on_userInput (set_focused false)
  | None => ret tt
  end.

(** [this.recognition.abort()] on an existing recognizer. *)
Definition recognition_abort : M Rec unit :=
  effect ERecognitionAbort ;;
  modify (fun r => set_recognition ((fun _ => false) <$> recognition r) r).

Definition new_ctx (env : REnv) : M Rec CtxState :=
  match new_AudioContext env with
  | Ok c => ret c
  | Throw e => throw e
  end.

(** [submitFormWithTranscript(transcript)] (lines 1887-1916): nothing
    without the chat form; with it the transcript goes through the input,
    which is emptied after the [submit] event. *)
Definition submitFormWithTranscript (env : REnv) (transcript : string)
  : M Rec unit :=
  when (has_chatForm env)
    (if_userInput (set_value transcript) ;;
     effect (ESubmitForm transcript) ;;
     do r <- get;
     when (bool_decide (is_Some (userInput r)))
       (if_userInput (set_value "") ;;
        effect EInputEvent)).

(** The chat call made with a transcript when auto-send is on
    (lines 1671-1702), with the form as its fallback. *)
Definition dispatch_chat (env : REnv) (transcript : string) : M Rec unit :=
  if has_getBotResponse env || has_getBotResponseAndAudio env
  then
    if setting_alwaysReadOutLoud env && has_getBotResponseAndAudio env
    then effect (EChat true transcript)
    else when (has_getBotResponse env) (effect (EChat false transcript))
  else submitFormWithTranscript env transcript.

(** The 100 ms timer set by [stopRecording] (lines 1622-1730). *)
Definition stopRecording_settle (env : REnv) (shouldKeepTranscript : bool)
  : M Rec unit :=
  if_userInput (set_readOnly false) ;;
  do r <- get;
  do returned <-
    (match userInput r with
     | Some inp =>
         if shouldKeepTranscript && negb (isAndroid (cfg r))
         then
           let autoTranscribe := autoTranscribeVoice env in
           let internal :=
             autoTranscribe && negb (String.eqb (currentTranscript r) "") in
           let transcript :=
             if internal then currentTranscript r else js_trim env (value inp) in
           when internal (modify (set_currentTranscript "")) ;;
           if String.eqb transcript ""
           then modify (set_processingTranscript false) ;; ret true
           else
             (if autoTranscribe
              then
                if_userInput (set_value "") ;;
                effect EInputEvent ;;
                when (has_appendMessage env) (effect (EAppendMessage transcript)) ;;
                dispatch_chat env transcript
              else
                if_userInput (set_value transcript) ;;
                effect EInputEvent ;;
                if_userInput (set_focused true)) ;;
             ret false
         else ret false
     | None => ret false
     end);
  if returned then ret tt
  else
    do r <- get;
    when (negb (isAndroid (cfg r))) (modify (set_processingTranscript false)) ;;
    effect (ESetTimeout 1000 TCheckMicrophone).

(** [stopRecording(shouldKeepTranscript = false)] (lines 1356-1731), up to
    setting its timer. The recorder callbacks run later
    ([recorder_stopped]). *)
Definition stopRecording (env : REnv) (shouldKeepTranscript : bool) : M Rec unit :=
  do r <- get;
  if negb (isRecording r) && negb (bool_decide (is_Some (micStream r)))
  then ret tt
  else
    modify (set_isRecording false) ;;
    modify (set_recordingTimer false) ;;
    modify (set_recordingStartTime 0) ;;
    modify (set_animationFrameId false) ;;
    do r <- get;
    (if isAndroid (cfg r)
     then
       when shouldKeepTranscript (effect EThinkingIndicator ;; hideRecordingUI) ;;
       (if recordRTC r then effect (ERecorderStop shouldKeepTranscript)
        else if mediaRecorder r
        then
          modify (set_processingTranscript shouldKeepTranscript) ;;
          modify (set_mediaRecorder false) ;;
          effect (ERecorderStop shouldKeepTranscript)
        else ret tt)
     else
       when (speechRecognitionSupported (cfg r)
             && bool_decide (is_Some (recognition r)))
         (recognition_abort ;;
          effect ERecognitionStop ;;
          when (isSafari env) (modify (set_recognition None)))) ;;
    do r <- get;
    (match micStream r with
     | Some m =>
         if isSafari env
         then effect (ESetTimeout 50 (TDelayedTrackStop (mic_id m)))
         else effect (ETrackStop (mic_id m))
     | None => ret tt
     end) ;;
    modify (set_micStream None) ;;
    modify (fun r =>
      match audioContext r with
      | Some _ => set_analyser false (set_audioContext None r)
      | None => r
      end) ;;
    when (negb shouldKeepTranscript) (if_userInput (set_value "")) ;;
    hideRecordingUI ;;
    do r <- get;
    when (shouldKeepTranscript && negb (isAndroid (cfg r)))
      (modify (set_processingTranscript true)) ;;
    effect (ESetTimeout 100 (TStopSettle shouldKeepTranscript)).

(** The callback given to [recordRTC.stopRecording] (lines 1419-1514);
    [result] is how [sendAudioToBackend] settled. *)
Definition recorder_stopped (env : REnv) (shouldKeepTranscript : bool)
  (result : res (option string)) : M Rec unit :=
  when shouldKeepTranscript
    (match result with
     | Throw _ =>
         effect (EAlert "Erreur lors de la reconnaissance vocale. Veuillez réessayer.")
     | Ok None => ret tt
     | Ok (Some transcript) =>
         if String.eqb transcript "" then ret tt
         else
           do r <- get;
           match userInput r with
           | None => ret tt
           | Some _ =>
               if autoTranscribeVoice env
               then
                 modify (set_currentTranscript transcript) ;;
                 modify (set_processingTranscript true) ;;
                 if_userInput (set_value "") ;;
                 effect EInputEvent ;;
                 when (has_appendMessage env) (effect (EAppendMessage transcript)) ;;
                 dispatch_chat env transcript
               else
                 if_userInput (set_value transcript) ;;
                 effect EInputEvent ;;
                 when (negb (isAndroid (cfg r))) (if_userInput (set_focused true))
           end
     end) ;;
  modify (set_recordRTC false).

(** [initializeRecordRTC] (lines 1105-1202); without the library it falls
    back to a [MediaRecorder] ([fallbackRecording], lines 1206-1353). *)
Definition initializeRecordRTC (env : REnv) : M Rec unit :=
  do r <- get;
  match micStream r with
  | None => ret tt
  | Some m =>
      if negb (RecordRTC_loaded env)
      then modify (set_mediaRecorder true) ;; effect ERecorderStart
      else
        (match audioContext r with
         | Some st =>
             (match st with
              | CtxClosed | CtxClosing =>
                  do c <- new_ctx env; modify (set_audioContext (Some c))
              | _ => ret tt
              end) ;;
             modify (set_analyser true) ;;
             modify (set_source (Some (mic_id m)))
         | None => ret tt
         end) ;;
        if new_RecordRTC_throws env then throw "Error"
        else modify (set_recordRTC true) ;; effect ERecorderStart
  end.

(** [startRecording] (lines 1011-1101). *)
Definition startRecording (env : REnv) : M Rec unit :=
  do r <- get;
  if isRecording r then ret tt
  else
    modify (set_animationFrameId false) ;;
    showRecordingUI ;;
    modify (set_recordingStartTime (now env)) ;;
    modify (set_recordingTimer true) ;;
    modify (set_isRecording true) ;;
    if_userInput (set_readOnly true) ;;
    do r <- get;
    when (isAndroid (cfg r) && bool_decide (is_Some (micStream r)))
      (try_catch
         (if negb (RecordRTC_loaded env) then effect ELoadRecordRTC
          else initializeRecordRTC env)
         (fun _ => stopRecording env false)) ;;
    effect (ESetTimeout 50 TDrawWaveform).

(** [resetMicrophoneAccess] (lines 1951-2032), awaited to its resolution. *)
Definition resetMicrophoneAccess (env : REnv) : M Rec unit :=
  do r <- get;
  (match micStream r with
   | Some m => effect (ETrackStop (mic_id m)) ;; modify (set_micStream None)
   | None => ret tt
   end) ;;
  modify (set_source None) ;;
  modify (set_analyser false) ;;
  modify (set_audioContext None) ;;
  when (ua_iOS env)
    (do r <- get;
     (match recognition r with
      | Some _ =>
          effect ERecognitionAbort ;; effect ERecognitionStop ;;
          modify (set_recognition None)
      | None => ret tt
      end) ;;
     when (unlockUtils_present env) (effect EUnlockAudio)).

(** Audio context, analyser and source set-up of the click handler
    (lines 483-563). *)
Definition audio_setup (env : REnv) : M Rec unit :=
  do r <- get;
  (match audioContext r with
   | Some _ => ret tt
   | None =>
       match shared_audioContext env with
       | Some c => modify (set_audioContext (Some c))
       | None => do c <- new_ctx env; modify (set_audioContext (Some c))
       end
   end) ;;
  do r <- get;
  (match audioContext r with
   | Some CtxClosed | Some CtxClosing =>
       do c <- new_ctx env; modify (set_audioContext (Some c))
   | _ => ret tt
   end) ;;
  modify (set_analyser true) ;;
  modify (fun r =>
    if bool_decide (source r = mic_id <$> micStream r) then r
    else set_source (mic_id <$> micStream r) r).

Definition msg_unsupported : string :=
  "La reconnaissance vocale n'est pas prise en charge par ce navigateur. Veuillez utiliser Chrome, Edge ou Safari.".
Definition msg_microphone : string :=
  "Impossible d'accéder au microphone. Veuillez vérifier les permissions.".
Definition msg_already_running : string :=
  "Le service de reconnaissance vocale est déjà en cours d'exécution. Veuillez rafraîchir la page.".

(** The click handler of the voice button (lines 409-714). Exceptions carry
    the [name] of the error. *)
Definition voiceButton_click (env : REnv) : M Rec unit :=
  try_catch
    (do r <- get;
     if isRecording r then ret tt
     else
       (match micStream r with
        | Some m =>
            when (negb (mic_active m))
              (effect (ETrackStop (mic_id m)) ;; modify (set_micStream None))
        | None => ret tt
        end) ;;
       do r <- get;
       do proceed <-
         (match micStream r with
          | Some _ => ret true
          | None =>
              resetMicrophoneAccess env ;;
              when (playbackManager_present env) (effect EReleasePlaybackResources) ;;
              do r <- get;
              if negb (speechRecognitionSupported (cfg r)) && negb (isAndroid (cfg r))
              then effect (EAlert msg_unsupported) ;; ret false
              else
                effect EGetUserMedia ;;
                match getUserMedia env with
                | Ok m => modify (set_micStream (Some m)) ;; ret true
                | Throw e => throw e
                end
          end);
       if negb proceed then ret tt
       else
         audio_setup env ;;
         startRecording env ;;
         do r <- get;
         if isAndroid (cfg r) then ret tt
         else effect (ESetTimeout 100 TRecognitionSetup))
    (fun error =>
       stopRecording env false ;;
       effect (ESetTimeout 500 TCheckMicrophone) ;;
       when (negb (String.eqb error "NotAllowedError")) (effect (EAlert msg_microphone))).

(** [this.recognition.start()]. *)
Definition recognition_start (env : REnv) : M Rec unit :=
  do r <- get;
  match recognition r with
  | None => throw "TypeError"
  | Some true => throw "InvalidStateError"
  | Some false =>
      match recognition_start_error env with
      | Some e => throw e
      | None => effect ERecognitionStart ;; modify (set_recognition (Some true))
      end
  end.

(** The 100 ms timer of the click handler (lines 579-699): a new recognizer
    is created, its handlers are attached and it is started. *)
Definition recognition_setup (env : REnv) : M Rec unit :=
  try_catch
    (do r <- get;
     when (bool_decide (is_Some (recognition r)))
       (effect ERecognitionAbort ;; effect ERecognitionStop) ;;
     modify (set_recognition (Some false)) ;;
     recognition_start env ;;
     modify (fun r => if isRecording r then set_animationFrameId true r else r))
    (fun e =>
       if String.eqb e "InvalidStateError" then effect (EAlert msg_already_running)
       else throw e).

(** [recognition.onresult] (lines 611-645), given the joined transcript. *)
Definition recognition_onresult (env : REnv) (transcript : string) : M Rec unit :=
  do r <- get;
  if negb (isRecording r) then ret tt
  else
    match userInput r with
    | Some _ =>
        if negb (autoTranscribeVoice env)
        then if_userInput (set_value transcript)
        else modify (set_currentTranscript transcript)
    | None => ret tt
    end.

(** [recognition.onerror] (lines 648-658), given [event.error]. *)
Definition recognition_onerror (env : REnv) (error : string) : M Rec unit :=
  do r <- get;
  if String.eqb error "aborted" && isRecording r then ret tt
  else stopRecording env false.

(** [recognition.onend] (lines 661-681): the recognizer has stopped. *)
Definition recognition_onend : M Rec unit :=
  modify (fun r => set_recognition ((fun _ => false) <$> recognition r) r) ;;
  do r <- get;
  when (isRecording r) (effect (ESetTimeout 100 TRestartRecognition)).

(** The timer set by [onend] (lines 670-676). *)
Definition restart_recognition (env : REnv) : M Rec unit :=
  do r <- get;
  when (isRecording r) (recognition_start env).

(** The click handler of the cancel button (lines 247-258). *)
Definition cancelButton_click (env : REnv) : M Rec unit :=
  do r <- get;
  when (bool_decide (is_Some (recognition r))) recognition_abort ;;
  on_userInput (set_value "") ;;
  effect EInputEvent ;;
  stopRecording env false.

(** The [keydown] handler on the document (lines 287-301). *)
Definition document_keydown (env : REnv) (key : string) : M Rec unit :=
  do r <- get;
  when (String.eqb key "Escape" && isRecording r)
    (when (bool_decide (is_Some (recognition r))) recognition_abort ;;
     on_userInput (set_value "") ;;
     effect EInputEvent ;;
     stopRecording env false).

(** Events that reach a running session without the user asking for
    anything: the recognizer reports [aborted], the recognizer ends, the
    restart timer fires. *)
Inductive Transient : Type :=
  | RecognizerAborted
  | RecognizerEnded
  | RestartTimerFires.

Definition deliver (env : REnv) (ev : Transient) (r : Rec) : Rec :=
  match ev with
  | RecognizerAborted => fst (recognition_onerror env "aborted" r)
  | RecognizerEnded => fst (recognition_onend r)
  | RestartTimerFires => fst (restart_recognition env r)
  end.

(** A call surfaced to the user. *)
Definition is_alert (e : Effect) : bool :=
  match e with
  | EAlert _ => true
  | _ => false
  end.

Definition is_getUserMedia (e : Effect) : bool :=
  match e with
  | EGetUserMedia => true
  | _ => false
  end.

End RecordingManager.

(** ** Predicates used to state and prove the properties *)

Module Invariants.
Import AudioUnlockUtils AudioPlaybackManager.

(** [c] keeps the invariant [I], however it completes. *)
Definition keeps {S A} (I : S -> Prop) (c : M S A) : Prop :=
  forall s, I s -> I (fst (c s)).

(** [c] keeps the invariant [I] and completes normally. *)
Definition total {S A} (I : S -> Prop) (c : M S A) : Prop :=
  forall s, I s -> I (fst (c s)) /\ exists a, snd (c s) = Ok a.

(** Properties of a message element that no change of its controls or of
    the style of its vocal button can break. *)
Definition ui_independent (Q : MsgDiv -> Prop) : Prop :=
  (forall d pa pl re sp, Q d -> Q (set_controls pa pl re sp d))
  /\ (forall d disp vis, Q d -> Q (vocal_style disp vis d)).

(** Invariants of the page that read neither the unlock state nor the
    dedicated audio element and that updates of the controls respect. *)
Definition playback_independent (I : World -> Prop) : Prop :=
  (forall w u, I w -> I {| unlock := u; pb := pb w; divs := divs w;
                           localStorage := localStorage w |})
  /\ (forall w a, I w -> I (with_pb (set_unlockedAudio a) w))
  /\ (forall w env m, I w -> I (updateAudioControls env m w)).

(** The stored position of [m] is ["0"] and the global rate is [r]. *)
Definition replay_state (m : nat) (r : jsnum) (w : World) : Prop :=
  ds_currentPosition (get_div w m) = Some "0" /\ globalPlaybackRate (pb w) = r.

(** [replayAudio] throws when it gives the rate to the inline element
    (line 1179). *)
Definition replay_rejects (env : Env) (w : World) : bool :=
  isMobileDevice (pb w)
  && bool_decide (is_Some (inlineAudioElement (unlock w)))
  && negb (accepts_rate env (globalPlaybackRate (pb w))).



(** The rate is in the domain and is what the settings store holds. *)
Definition rate_sanitized (env : Env) (w : World) : Prop :=
  (globalPlaybackRate (pb w) = one
   \/ globalPlaybackRate (pb w) = one_and_half
   \/ globalPlaybackRate (pb w) = two)
  /\ localStorage w !! "audioPlaybackRate"
     = Some (num_to_string env (globalPlaybackRate (pb w))).

(** The text input exists and is empty. *)
Definition input_empty (r : RecordingManager.Rec) : Prop :=
  exists i, RecordingManager.userInput r = Some i /\ RecordingManager.value i = "".

(** What a recording session is to its user: whether it is active, its
    microphone, the text input and the alerts shown so far. *)
Definition session_view (r : RecordingManager.Rec) :=
  (RecordingManager.isRecording r, RecordingManager.micStream r,
   RecordingManager.userInput r,
   filter (fun e => RecordingManager.is_alert e) (RecordingManager.effects r)).

(** The form sent for a blob, with or without the compression flag. *)
Definition request (env : Transcription.TEnv) (blob_size : N) (c : bool)
  : Transcription.Request :=
  {| Transcription.req_size := blob_size; Transcription.req_compress := c;
     Transcription.req_language := default "fr" (Transcription.languageSelect env) |}.

End Invariants.
Export Invariants.

(** ** A page and a recorder to run the code on *)

Module Examples.
Import AudioUnlockUtils AudioPlaybackManager.

(** Number formatting, on the handful of values the examples meet. *)
Definition show_number (n : jsnum) : string :=
  match n with
  | JNum q =>
      if Qeq_bool q 0 then "0"
      else if Qeq_bool q 1 then "1"
      else if Qeq_bool q (3 # 2) then "1.5"
      else if Qeq_bool q 2 then "2"
      else if Qeq_bool q (3 # 4) then "0.75"
      else "?"
  | JNaN => "NaN"
  | JPosInf => "Infinity"
  | JNegInf => "-Infinity"
  end.

Definition read_number (s : string) : jsnum :=
  if String.eqb s "0.75" then JNum (3 # 4)
  else if String.eqb s "1" then one
  else if String.eqb s "1.5" then one_and_half
  else if String.eqb s "2" then two
  else JNaN.

(** A desktop browser in which every unlock technique works and synthesis
    answers with a success status and an empty [audio/mpeg] body. *)
Definition desktop : Env :=
  {| num_to_string := show_number; parseFloat := read_number;
     ua_mobile := false; alwaysReadOutLoud := false;
     had_user_interaction := true; audioContext_technique_throws := false;
     silent_play := fun _ => PlayFulfilled; inline_create_throws := false;
     stored_play := PlayFulfilled; inline_playback_starts := true;
     rate_supported := fun q => Qle_bool (1 # 16) q && Qle_bool q 16;
     tts_fetch := fun _ => TTSResponse true "200" (Some "audio/mpeg") 0 "blob:empty" |}.

(** The same browser, except that the AudioContext technique throws. *)
Definition desktop_without_audioContext : Env :=
  {| num_to_string := show_number; parseFloat := read_number;
     ua_mobile := false; alwaysReadOutLoud := false;
     had_user_interaction := true; audioContext_technique_throws := true;
     silent_play := fun _ => PlayFulfilled; inline_create_throws := false;
     stored_play := PlayFulfilled; inline_playback_starts := true;
     rate_supported := fun q => Qle_bool (1 # 16) q && Qle_bool q 16;
     tts_fetch := fun _ => TTSResponse true "200" (Some "audio/mpeg") 0 "blob:empty" |}.

Definition speak_button : VocalButton :=
  {| vb_display := "inline-block"; vb_visibility := "visible";
     vb_loading := false; vb_icon := "assets/vocal.png" |}.

(** Message 0 ("a") is playing, three seconds in; message 1 ("b") is idle. *)
Definition message_a : MsgDiv :=
  {| ds_messageId := Some "a"; ds_audioUrl := Some "blob:a";
     ds_currentPosition := None; vocalButton := Some speak_button;
     pauseButton := true; playButton := false; replayButton := false;
     speedButton := Some "1x" |}.

Definition message_b : MsgDiv :=
  {| ds_messageId := Some "b"; ds_audioUrl := None;
     ds_currentPosition := None; vocalButton := Some speak_button;
     pauseButton := false; playButton := false; replayButton := false;
     speedButton := None |}.

Definition a_is_playing : World :=
  {| unlock := {| audioUnlocked := false; audioUnlockAttempts := 0;
                  stored_unlockedAudio := false; inlineAudioElement := None;
                  inline_in_document := false; unlock_log := [] |};
     pb := {| currentlyPlayingMsgDiv := Some 0; globalPlaybackRate := one;
              messageStateMap := {[ Some "a" := PLAYING ]};
              unlockedAudio :=
                Some {| a_src := "blob:a"; a_paused := false;
                        a_currentTime := 3%Q; a_playbackRate := one;
                        a_owner := 0 |};
              isMobileDevice := false; isIOS := false; map_history := [] |};
     divs := {[ 0 := message_a; 1 := message_b ]};
     localStorage := ∅ |}.

Definition already_unlocked : World :=
  with_unlock (set_audioUnlocked true) a_is_playing.


Definition cycle (w : World) : World := cyclePlaybackSpeed desktop 0 w.

Import RecordingManager.

(** A desktop Chrome with a working microphone. *)
Definition chrome : REnv :=
  {| getUserMedia := Ok {| mic_id := 7; mic_active := true |};
     isSafari := false; ua_iOS := false; autoTranscribeVoice := false;
     setting_alwaysReadOutLoud := false; playbackManager_present := true;
     unlockUtils_present := true; shared_audioContext := None;
     new_AudioContext := Ok CtxRunning; RecordRTC_loaded := false;
     new_RecordRTC_throws := false; recognition_start_error := None;
     has_appendMessage := true; has_getBotResponse := true;
     has_getBotResponseAndAudio := true; has_chatForm := true;
     js_trim := fun s => s; now := 1000 |}.

(** Nothing is being recorded and the user has typed "draft". *)
Definition idle_with_draft : Rec :=
  {| isRecording := false; micStream := None; recognition := None;
     recordRTC := false; mediaRecorder := false; audioContext := None;
     analyser := false; source := None; recordingStartTime := 0;
     recordingTimer := false; animationFrameId := false;
     processingTranscript := false; currentTranscript := "";
     userInput := Some {| value := "draft"; readOnly := false; focused := true |};
     recordingUI := Some false; effects := [];
     cfg := {| isAndroid := false; isEdge := false;
               speechRecognitionSupported := true |} |}.

(** The voice button is clicked and the recognizer is set up. *)
Definition recording : Rec :=
  fst (recognition_setup chrome (fst (voiceButton_click chrome idle_with_draft))).

(** The user then cancels, and the timer of [stopRecording] fires. *)
Definition cancelled : Rec :=
  fst (stopRecording_settle chrome false (fst (cancelButton_click chrome recording))).

End Examples.

(** ** Pause, resume and the end of playback (ttsManager.js) *)

Module PlaybackControls.
Import AudioUnlockUtils AudioPlaybackManager.

Definition set_inline_paused (b : bool) (i : InlineAudio) : InlineAudio :=
  {| i_src := i_src i; i_paused := b; i_currentTime := i_currentTime i;
     i_playbackRate := i_playbackRate i; i_onended := i_onended i |}.

Definition set_inline_src (s : string) (i : InlineAudio) : InlineAudio :=
  {| i_src := s; i_paused := i_paused i; i_currentTime := i_currentTime i;
     i_playbackRate := i_playbackRate i; i_onended := i_onended i |}.

Definition set_inline_currentTime (t : Q) (i : InlineAudio) : InlineAudio :=
  {| i_src := i_src i; i_paused := i_paused i; i_currentTime := t;
     i_playbackRate := i_playbackRate i; i_onended := i_onended i |}.

Definition set_audio_currentTime (t : Q) (a : AudioElem) : AudioElem :=
  {| a_src := a_src a; a_paused := a_paused a; a_currentTime := t;
     a_playbackRate := a_playbackRate a; a_owner := a_owner a |}.

(** [this.pauseAudio(this.unlockedAudio)], the call the pause button makes
    (lines 684-720, called from lines 868 and 872), up to the animation frame
    it requests. *)
Definition pauseAudio (env : Env) (w : World) : World :=
  let audioElement := unlockedAudio (pb w) in
  let w :=
    if ua_mobile env
       && bool_decide (is_Some (inlineAudioElement (unlock w)))
       && match audioElement with
          | Some a => a_paused a
          | None => true
          end
    then upd_inline (set_inline_paused true) w
    else w in
  let w := upd_audio (set_audio_paused true) w in
  match currentlyPlayingMsgDiv (pb w) with
  | None => w
  | Some c =>
      let messageId := ds_messageId (get_div w c) in
      if truthy messageId
      then
        let currentTime :=
          match audioElement with
          | Some a => a_currentTime a
          | None =>
              match inlineAudioElement (unlock w) with
              | Some i => i_currentTime i
              | None => 0%Q
              end
          end in
        let w :=
          upd_div c
            (set_ds_currentPosition (Some (num_to_string env (JNum currentTime)))) w in
        with_pb (map_set messageId PAUSED) w
      else w
  end.

(** The animation frame [pauseAudio] requests (lines 715-717); it reads
    [currentlyPlayingMsgDiv] when it runs. *)
Definition pauseAudio_frame (env : Env) (w : World) : World :=
  match currentlyPlayingMsgDiv (pb w) with
  | Some c => updateAudioControls env c w
  | None => w
  end.

(** [x > 0] on a number. *)
Definition gt_zero (x : jsnum) : bool :=
  match x with
  | JNum q => negb (Qle_bool q 0)
  | JPosInf => true
  | JNaN | JNegInf => false
  end.

(** [media.currentTime = x]: a [TypeError] unless [x] is finite. *)
Definition finite {S} (x : jsnum) : M S Q :=
  match x with
  | JNum q => ret q
  | JNaN | JPosInf | JNegInf => throw "TypeError"
  end.

(** What [resumeAudio] finds on the platform: the rate the inline element
    remembers from its last pause ([dataset.savedPlaybackRate]) and what
    [play()] does on the element it creates. *)
Record ResumeEnv : Type := {
  inline_savedPlaybackRate : option string;
  resumed_play : PlayResult
}.

(** [msgDiv.dataset.currentPosition || '0']. *)
Definition position_or_zero (p : option string) : string :=
  match p with
  | Some s => if String.eqb s "" then "0" else s
  | None => "0"
  end.

(** The inline branch of [resumeAudio] (lines 1003-1073); there is no
    [return] at its end. The 100 ms timer it sets (lines 1026-1031) runs
    after the call. *)
Definition resume_inline (env : Env) (renv : ResumeEnv) (msgDiv : nat)
  (audioUrl : option string) (savedPosition : jsnum) : M World unit :=
  modify (upd_inline (set_inline_src (default "" audioUrl))) ;;
  when (gt_zero savedPosition)
    (do t <- finite savedPosition;
     modify (upd_inline (set_inline_currentTime t))) ;;
  do w <- get;
  assign_inline_rate env
    (if truthy (inline_savedPlaybackRate renv)
     then parseFloat env (default "" (inline_savedPlaybackRate renv))
     else globalPlaybackRate (pb w)) ;;
  await (playViaInlineElement env audioUrl) ;;
  modify (upd_inline (set_inline_onended (Some msgDiv))).

(** The [try] block of [resumeAudio] (lines 1000-1135). The new element
    replaces the old one (line 1076) before it is given the global rate
    (line 1077). A [play()] that is refused leaves the new element paused. *)
Definition resume_try (env : Env) (renv : ResumeEnv) (msgDiv : nat)
  (audioUrl : option string) (savedPosition : jsnum) : M World unit :=
  do w <- get;
  when (ua_mobile env
        && bool_decide (is_Some (inlineAudioElement (unlock w)))
        && truthy audioUrl)
    (resume_inline env renv msgDiv audioUrl savedPosition) ;;
  modify (with_pb (set_unlockedAudio (Some
    {| a_src := default "" audioUrl; a_paused := true; a_currentTime := 0%Q;
       a_playbackRate := one; a_owner := msgDiv |}))) ;;
  do w <- get;
  assign_audio_rate env (globalPlaybackRate (pb w)) ;;
  when (gt_zero savedPosition)
    (do t <- finite savedPosition;
     modify (upd_audio (set_audio_currentTime t))) ;;
  match resumed_play renv with
  | PlayThrows | PlayRejected => throw "play"
  | PlayUndefined | PlayFulfilled => modify (upd_audio (set_audio_paused false))
  end.

(** [resumeAudio(msgDiv, audioUrl)] (lines 990-1140). *)
Definition resumeAudio (env : Env) (renv : ResumeEnv) (msgDiv : nat)
  (audioUrl : option string) : M World unit :=
  do w <- get;
  let savedPosition :=
    parseFloat env (position_or_zero (ds_currentPosition (get_div w msgDiv))) in
  let messageId := ds_messageId (get_div w msgDiv) in
  modify (with_pb (map_set messageId PLAYING)) ;;
  modify (with_pb (set_currentlyPlayingMsgDiv (Some msgDiv))) ;;
  modify (updateAudioControls env msgDiv) ;;
  try_catch
    (resume_try env renv msgDiv audioUrl savedPosition)
    (fun _ => modify (resetAudioState msgDiv)).

(** The cleanup of the [ended] handlers (lines 535-564, 1039-1068,
    1089-1118): the dedicated element is dropped, the inline element is
    emptied and loses its [onended] handler, and no message is current any
    more. *)
Definition ended_cleanup (w : World) : World :=
  let w := with_pb (set_unlockedAudio None) w in
  let w :=
    upd_inline (fun i =>
      {| i_src := ""; i_paused := true; i_currentTime := 0%Q;
         i_playbackRate := i_playbackRate i; i_onended := None |}) w in
  with_pb (set_currentlyPlayingMsgDiv None) w.

(** [onEnded] of the dedicated element (lines 529-578), up to the animation
    frame it requests; returns the [messageId] the frame closes over. The
    handler [resumeAudio] installs (lines 1084-1133) does the same with the
    id it read when it was called. *)
Definition audio_onEnded (msgDiv : nat) (w : World) : World * option string :=
  let messageId := ds_messageId (get_div w msgDiv) in
  let w := with_pb (map_set messageId FINISHED) w in
  (ended_cleanup w, messageId).

(** The animation frame of [onEnded] (lines 567-571); its 100 ms timer
    (lines 573-576) does the same once more. *)
Definition ended_frame (env : Env) (msgDiv : nat) (messageId : option string)
  (w : World) : World :=
  updateAudioControls env msgDiv (with_pb (map_set messageId FINISHED) w).

(** The dedicated element reaches its end: handler, frame and timer. *)
Definition playback_ends (env : Env) (msgDiv : nat) (w : World) : World :=
  let '(w, messageId) := audio_onEnded msgDiv w in
  ended_frame env msgDiv messageId (ended_frame env msgDiv messageId w).

(** [resumeAudio] leaves its [try] block through the [catch]: on the inline
    element the rate is not accepted or playback does not start; the stored
    position reads as [Infinity]; the global rate is not accepted by the new
    element; or [play()] on it is refused. *)
Definition resume_fails (env : Env) (renv : ResumeEnv) (msgDiv : nat)
  (audioUrl : option string) (w : World) : bool :=
  let savedPosition :=
    parseFloat env (position_or_zero (ds_currentPosition (get_div w msgDiv))) in
  (ua_mobile env
   && bool_decide (is_Some (inlineAudioElement (unlock w)))
   && truthy audioUrl
   && (negb (accepts_rate env
               (if truthy (inline_savedPlaybackRate renv)
                then parseFloat env (default "" (inline_savedPlaybackRate renv))
                else globalPlaybackRate (pb w)))
       || negb (inline_in_document (unlock w))
       || negb (inline_playback_starts env)))
  || match savedPosition with
     | JPosInf => true
     | _ => false
     end
  || negb (accepts_rate env (globalPlaybackRate (pb w)))
  || match resumed_play renv with
     | PlayThrows | PlayRejected => true
     | PlayUndefined | PlayFulfilled => false
     end.

End PlaybackControls.

(** ** EventSystem (first part of audioUnlockUtils.js) *)

Module EventSystem.

(** The [options] object of a registration. *)
Record Options : Type := {
  opt_once : bool;
  opt_passive : bool;
  opt_capture : bool
}.

(** [{}]. *)
Definition no_options : Options :=
  {| opt_once := false; opt_passive := false; opt_capture := false |}.

(** [{ ...options, once: true }]. *)
Definition with_once (o : Options) : Options :=
  {| opt_once := true; opt_passive := opt_passive o; opt_capture := opt_capture o |}.

(** What the registry stores for a handler id; callbacks are identified by
    a number. *)
Record Listener : Type := {
  l_eventType : string;
  l_handler : nat;
  l_options : Options
}.

(** The elements the code names; any other number is some other node. *)
Definition document : nat := 0.
Definition documentElement : nat := 1.
Definition body : nat := 2.
Definition window : nat := 3.

(** [listeners] is the registry ([Map] of [Map]s; the key [None] is
    [undefined]); [attached] is the event listener list of each element, as
    the platform keeps it; [issued] counts the ids generated so far. *)
Record Events : Type := {
  listeners : gmap (option nat) (gmap string Listener);
  attached : gmap nat (list Listener);
  issued : nat
}.

Definition no_events : Events :=
  {| listeners := ∅; attached := ∅; issued := 0 |}.

Definition listeners_of (s : Events) (el : nat) : list Listener :=
  default [] (attached s !! el).

(** The platform identifies a listener by type, callback and [capture]. *)
Definition same_listener (a b : Listener) : bool :=
  String.eqb (l_eventType a) (l_eventType b)
  && Nat.eqb (l_handler a) (l_handler b)
  && Bool.eqb (opt_capture (l_options a)) (opt_capture (l_options b)).

(** [element.addEventListener(type, callback, options)]: nothing is added
    when the same listener is already there. *)
Definition addEventListener (l : Listener) (ls : list Listener) : list Listener :=
  if existsb (same_listener l) ls then ls else (ls ++ [l])%list.

(** [element.removeEventListener(type, callback, options)]. *)
Definition removeEventListener (l : Listener) (ls : list Listener) : list Listener :=
  List.filter (fun x => negb (same_listener l x)) ls.

Definition set_listeners (m : gmap (option nat) (gmap string Listener))
  (s : Events) : Events :=
  {| listeners := m; attached := attached s; issued := issued s |}.

Definition set_attached (el : nat) (ls : list Listener) (s : Events) : Events :=
  {| listeners := listeners s; attached := <[el := ls]> (attached s);
     issued := issued s |}.

(** [register(element, eventType, handler, options = {})] (lines 14-37).
    [stamp n] is what [`${Date.now()}_${Math.random()...}`] gives for the
    n-th id. On [undefined] the registry is written before
    [element.addEventListener] throws. *)
Definition register (stamp : nat -> string) (element : option nat)
  (eventType : string) (handler : nat) (options : Options) : M Events string :=
  do s <- get;
  let handlerId := eventType ++ "_" ++ stamp (issued s) in
  let l := {| l_eventType := eventType; l_handler := handler;
              l_options := options |} in
  modify (fun s =>
    {| listeners := listeners s; attached := attached s; issued := S (issued s) |}) ;;
  modify (fun s =>
    set_listeners
      (<[element := <[handlerId := l]> (default ∅ (listeners s !! element))]>
         (listeners s)) s) ;;
  match element with
  | None => throw "TypeError"
  | Some el =>
      modify (fun s => set_attached el (addEventListener l (listeners_of s el)) s) ;;
      ret handlerId
  end.

(** [unregister(element, handlerId)] (lines 50-67). *)
Definition unregister (element : option nat) (handlerId : string) : M Events bool :=
  do s <- get;
  match listeners s !! element with
  | None => ret false
  | Some elementListeners =>
      match elementListeners !! handlerId with
      | None => ret false
      | Some l =>
          match element with
          | None => throw "TypeError"
          | Some el =>
              modify (fun s =>
                set_attached el (removeEventListener l (listeners_of s el)) s) ;;
              modify (fun s =>
                set_listeners
                  (<[element := delete handlerId elementListeners]> (listeners s)) s) ;;
              ret true
          end
      end
  end.

(** [elementListeners.forEach(l => element.removeEventListener(...))]. *)
Definition removeEach (m : gmap string Listener) (ls : list Listener)
  : list Listener :=
  map_fold (fun _ l acc => removeEventListener l acc) ls m.

(** [unregisterAll(element)] (lines 91-104). *)
Definition unregisterAll (element : option nat) : M Events unit :=
  do s <- get;
  match listeners s !! element with
  | None => ret tt
  | Some elementListeners =>
      (match element with
       | None =>
           if bool_decide (elementListeners = ∅) then ret tt
           else throw "TypeError"
       | Some el =>
           modify (fun s =>
             set_attached el (removeEach elementListeners (listeners_of s el)) s)
       end) ;;
      modify (fun s => set_listeners (delete element (listeners s)) s)
  end.

(** [registerMultiple(element, eventTypes, handler, options = {})]
    (lines 108-118). *)
Fixpoint registerMultiple (stamp : nat -> string) (element : option nat)
  (eventTypes : list string) (handler : nat) (options : Options)
  : M Events (list string) :=
  match eventTypes with
  | [] => ret []
  | eventType :: rest =>
      do handlerId <- register stamp element eventType handler options;
      do handlerIds <- registerMultiple stamp element rest handler options;
      ret (handlerId :: handlerIds)
  end.

(** [registerMultipleOnce] (lines 123-128). *)
Definition registerMultipleOnce (stamp : nat -> string) (element : option nat)
  (eventTypes : list string) (handler : nat) (options : Options)
  : M Events (list string) :=
  registerMultiple stamp element eventTypes handler (with_once options).

(** [registerForElements(elements, eventType, handler, options = {})]
    (lines 132-142). *)
Fixpoint registerForElements (stamp : nat -> string) (elems : list (option nat))
  (eventType : string) (handler : nat) (options : Options)
  : M Events (list string) :=
  match elems with
  | [] => ret []
  | element :: rest =>
      do handlerId <- register stamp element eventType handler options;
      do handlerIds <- registerForElements stamp rest eventType handler options;
      ret (handlerId :: handlerIds)
  end.

(** An array where a string is expected is converted by [toString]: its
    items joined with commas. *)
Definition Array_toString (items : list string) : string :=
  String.concat "," items.

(** The callbacks the platform invokes for an event of type [type] on
    [el], in order. *)
Definition handlers_for (s : Events) (el : nat) (type : string) : list nat :=
  List.map l_handler
    (List.filter (fun l => String.eqb (l_eventType l) type) (listeners_of s el)).

End EventSystem.

(** ** The retry ladder of [playMessageAudio] (ttsManager.js 588-669) *)

Module PlayRetry.
Import EventSystem.

(** Calls the ladder makes to the platform and to the other components. *)
Inductive Call : Type :=
  | CWait (ms : nat)                   (* setTimeout(resolve, delay) *)
  | CSimulateUserInteractions
  | CPlay (attempt : nat)              (* this.unlockedAudio.play() *)
  | CUnlockAudio
  | CBodyClick
  | CSilentClip
  | CResumeContext.

(** [play_outcome k] is what [play()] does on attempt [k];
    [context_suspended] is whether the shared audio context exists and is
    suspended after the third failure. *)
Record RetryEnv : Type := {
  play_outcome : nat -> PlayResult;
  context_suspended : bool;
  stamp : nat -> string
}.

(** [calls] is a ghost field, oldest call first. *)
Record Retry : Type := {
  calls : list Call;
  events : Events
}.

Definition call (c : Call) (s : Retry) : Retry :=
  {| calls := (calls s ++ [c])%list; events := events s |}.

(** [await p] continues normally. *)
Definition started (r : PlayResult) : bool :=
  match r with
  | PlayUndefined | PlayFulfilled => true
  | PlayThrows | PlayRejected => false
  end.

(** [setupInteractionHandlers] (lines 641-665): the list of event types is
    passed where [registerForElements] expects one type. *)
Definition setupInteractionHandlers (env : RetryEnv) (forcePlay : nat)
  (s : Retry) : Retry :=
  {| calls := calls s;
     events :=
       fst (registerForElements (stamp env)
              [Some document; Some body; Some documentElement]
              (Array_toString ["click"; "touchstart"; "mousedown"; "keydown"])
              forcePlay
              {| opt_once := true; opt_passive := false; opt_capture := false |}
              (events s)) |}.

(** What the [catch] of an attempt tries before the next one
    (lines 615-633). *)
Definition recover (env : RetryEnv) (attempt : nat) (s : Retry) : Retry :=
  if (attempt =? 1)%nat then call CBodyClick (call CUnlockAudio s)
  else if (attempt =? 2)%nat then call CSilentClip s
  else if (attempt =? 3)%nat
  then (if context_suspended env then call CResumeContext s else s)
  else s.

(** An attempt up to its call of [play()] (lines 600-609). *)
Definition try_play (delay attempt : nat) (s : Retry) : Retry :=
  let s := call (CWait delay) s in
  let s := if (1 <? attempt)%nat then call CSimulateUserInteractions s else s in
  call (CPlay attempt) s.

(** [attemptPlay(delay = 0, attempt = 1)] (lines 592-638); [None] when the
    recursion is cut off by [fuel]. *)
Fixpoint attemptPlay (fuel : nat) (env : RetryEnv) (forcePlay : nat)
  (delay attempt : nat) (s : Retry) : option Retry :=
  if (6 <? attempt)%nat then Some (setupInteractionHandlers env forcePlay s)
  else
    match fuel with
    | O => None
    | S fuel =>
        let s := try_play delay attempt s in
        if started (play_outcome env attempt) then Some s
        else
          attemptPlay fuel env forcePlay (delay + 2 ^ attempt * 100) (S attempt)
            (recover env attempt s)
    end.

(** [playWithRetry] (lines 588-669): [attemptPlay(0, 1)]. *)
Definition playWithRetry (env : RetryEnv) (forcePlay : nat) (s : Retry)
  : option Retry :=
  attemptPlay 6 env forcePlay 0 1 s.

Definition waits (s : Retry) : list nat :=
  omap (fun c => match c with CWait ms => Some ms | _ => None end) (calls s).

Definition plays (s : Retry) : list nat :=
  omap (fun c => match c with CPlay k => Some k | _ => None end) (calls s).

(** The first attempt among the first [n] on which [play()] starts. *)
Fixpoint first_start (env : RetryEnv) (n attempt : nat) : option nat :=
  match n with
  | O => None
  | S n =>
      if started (play_outcome env attempt) then Some attempt
      else first_start env n (S attempt)
  end.

End PlayRetry.

(** ** AudioManager (AudioManager.js) *)

Module AudioManager.
Import AudioUnlockUtils AudioPlaybackManager RecordingManager.

(** The three components [AudioManager] ties together. *)
Record App : Type := {
  page : World;
  recorder : Rec;
  registry : EventSystem.Events
}.

Definition in_registry {A} (c : M EventSystem.Events A) : M App A :=
  fun a =>
    let '(ev, r) := c (registry a) in
    ({| page := page a; recorder := recorder a; registry := ev |}, r).

(** [addEventListener(element, type, callback, options)] (line 230). *)
Definition addEventListener (stamp : nat -> string) (element : option nat)
  (type : string) (callback : nat) (options : EventSystem.Options) : M App string :=
  in_registry (EventSystem.register stamp element type callback options).

(** [removeEventListener(element, type, callback)] (line 235): the type is
    passed where [unregister] expects a handler id. *)
Definition removeEventListener (element : option nat) (type : string)
  (callback : nat) : M App bool :=
  in_registry (EventSystem.unregister element type).

End AudioManager.

(** ** Chat requests (apicommunication.js, ttsManager.js 154-229) *)

Module Chat.
Import AudioUnlockUtils AudioPlaybackManager TTSManager.

(** The reply to [fetch('/api/chat', ...)]: the network fails, or a response
    arrives whose body parses as JSON ([Some answer], the field may be
    undefined) or does not ([None]). *)
Inductive ChatReply : Type :=
  | ChatNetworkError (e : string)
  | ChatResponse (ok : bool) (json : option (option string)).

Record ChatEnv : Type := {
  chat_fetch : string -> ChatReply;      (* reply to a question *)
  trim : string -> string;               (* String.prototype.trim *)
  errorText : string                     (* texts[currentLanguage].errorText *)
}.

(** A call to [appendMessage(text, 'bot')], with the value of
    [window.pendingBotResponse] it finds. *)
Record Appended : Type := {
  am_text : string;
  am_pending : bool
}.

(** [thinkingIndicator]: a [.thinking-indicator] element is in the page;
    [appended] is a ghost field, oldest call first. *)
Record Conversation : Type := {
  pendingBotResponse : bool;
  thinkingIndicator : bool;
  appended : list Appended
}.

Definition set_pendingBotResponse (b : bool) (c : Conversation) : Conversation :=
  {| pendingBotResponse := b; thinkingIndicator := thinkingIndicator c;
     appended := appended c |}.

(** [appendThinkingIndicator] / [removeThinkingIndicator]
    (chatinterface.js 316-348). *)
Definition appendThinkingIndicator (c : Conversation) : Conversation :=
  if thinkingIndicator c then c
  else {| pendingBotResponse := pendingBotResponse c; thinkingIndicator := true;
          appended := appended c |}.

Definition removeThinkingIndicator (c : Conversation) : Conversation :=
  {| pendingBotResponse := pendingBotResponse c; thinkingIndicator := false;
     appended := appended c |}.

(** [appendMessage(text, 'bot')]: [text.replace] is a [TypeError] on
    [undefined]. *)
Definition appendMessage (text : option string) : M Conversation unit :=
  match text with
  | None => throw "TypeError"
  | Some t =>
      modify (fun c =>
        {| pendingBotResponse := pendingBotResponse c;
           thinkingIndicator := thinkingIndicator c;
           appended := (appended c ++ [{| am_text := t;
                                          am_pending := pendingBotResponse c |}])%list |})
  end.

(** [getBotResponse(question)] (apicommunication.js 13-65). *)
Definition getBotResponse (env : ChatEnv) (question : string) : M Conversation unit :=
  if String.eqb question "" || String.eqb (trim env question) "" then ret tt
  else
    modify (set_pendingBotResponse true) ;;
    modify appendThinkingIndicator ;;
    try_catch
      (match chat_fetch env question with
       | ChatNetworkError e => throw e
       | ChatResponse ok json =>
           if negb ok
           then
             modify removeThinkingIndicator ;;
             appendMessage (Some (errorText env)) ;;
             modify (set_pendingBotResponse false)
           else
             match json with
             | None => throw "SyntaxError"
             | Some answer =>
                 modify removeThinkingIndicator ;;
                 appendMessage answer ;;
                 modify (set_pendingBotResponse false)
             end
       end)
      (fun _ =>
         modify removeThinkingIndicator ;;
         appendMessage (Some (errorText env)) ;;
         modify (set_pendingBotResponse false)).

(** The object [getBotResponseWithAudio] resolves with. *)
Record Answer : Type := {
  answer : option string;
  audioUrl : option string
}.

(** [getBotResponseWithAudio(question)] (ttsManager.js 154-190).
    [requestTTS] reads [text.length] before its [try], a [TypeError] on an
    undefined answer. *)
Definition getBotResponseWithAudio (env : Env) (cenv : ChatEnv) (question : string)
  : M World Answer :=
  do answer <-
    try_catch
      (match chat_fetch cenv question with
       | ChatNetworkError e => throw e
       | ChatResponse ok json =>
           if negb ok then throw "Chat API error"
           else
             match json with
             | None => throw "SyntaxError"
             | Some answer => ret answer
             end
       end)
      (fun error => throw error);
  try_catch
    (do audioUrl <-
       match answer with
       | None => throw "TypeError"
       | Some text => requestTTS env text
       end;
     ret {| answer := answer; audioUrl := Some audioUrl |})
    (fun _ => ret {| answer := answer; audioUrl := None |}).

(** The chat call fails. *)
Definition chat_fails (r : ChatReply) : bool :=
  match r with
  | ChatNetworkError _ => true
  | ChatResponse ok json => negb ok || negb (bool_decide (is_Some json))
  end.

(** The answer the chat call carries. *)
Definition chat_answer (r : ChatReply) : option string :=
  match r with
  | ChatResponse true (Some a) => a
  | _ => None
  end.

(** The message [getBotResponse] shows for a reply. *)
Definition shown_for (env : ChatEnv) (r : ChatReply) : string :=
  match r with
  | ChatResponse true (Some (Some a)) => a
  | _ => errorText env
  end.

End Chat.

(** ** Automatic reading of bot messages (ttsManager.js 193-229) *)

Module AutoRead.
Import AudioUnlockUtils AudioPlaybackManager TTSManager.

(** The two marks of a message: [dataset.audioHandled === 'true'] and
    [dataset.autoReadTriggered === 'true']. *)
Record Marks : Type := {
  audioHandled : bool;
  autoReadTriggered : bool
}.

(** A 20 ms timer set by [autoReadBotMessage]. *)
Record Pending : Type := {
  p_msgDiv : nat;
  p_text : string;
  p_isWelcome : bool
}.

(** [timers] is a ghost field, oldest first. *)
Record Reader : Type := {
  world : World;
  marks : gmap nat Marks;
  pending : bool;                        (* window.pendingBotResponse *)
  timers : list Pending
}.

Definition marks_of (s : Reader) (m : nat) : Marks :=
  default {| audioHandled := false; autoReadTriggered := false |} (marks s !! m).

Definition in_world {A} (c : M World A) : M Reader A :=
  fun s =>
    let '(w, r) := c (world s) in
    ({| world := w; marks := marks s; pending := pending s; timers := timers s |}, r).

(** [autoReadBotMessage(msgDiv, text, isWelcome = false, audioPlaybackManager)]
    (lines 193-229), up to setting its timer. *)
Definition autoReadBotMessage (env : Env) (msgDiv : nat) (text : string)
  (isWelcome : bool) : M Reader unit :=
  do s <- get;
  if truthy (ds_audioUrl (get_div (world s) msgDiv))
     || audioHandled (marks_of s msgDiv)
     || autoReadTriggered (marks_of s msgDiv)
     || pending s
  then ret tt
  else
    modify (fun s =>
      {| world := world s;
         marks := <[msgDiv := {| audioHandled := audioHandled (marks_of s msgDiv);
                                 autoReadTriggered := true |}]> (marks s);
         pending := pending s; timers := timers s |}) ;;
    in_world (unlockAudio env false false) ;;
    modify (fun s =>
      {| world := world s; marks := marks s; pending := pending s;
         timers := (timers s ++ [{| p_msgDiv := msgDiv; p_text := text;
                                    p_isWelcome := isWelcome |}])%list |}).

End AutoRead.

(** ** More predicates used to state the properties *)

Module Observations.
Import RecordingManager.

(** [c], started in a state that satisfies [P], completes normally in a
    state that satisfies [Q]. *)
Definition ensures {S A} (P : S -> Prop) (c : M S A) (Q : S -> Prop) : Prop :=
  forall s, P s -> Q (fst (c s)) /\ exists a, snd (c s) = Ok a.

(** The transcript is handed to the chat, by a call or through the form. *)
Definition is_dispatch (e : Effect) : bool :=
  match e with
  | EChat _ _ | ESubmitForm _ => true
  | _ => false
  end.

Definition alerts (r : Rec) : list Effect := List.filter is_alert (effects r).

Definition dispatches (r : Rec) : list Effect := List.filter is_dispatch (effects r).

Definition microphone_requests (r : Rec) : nat :=
  List.length (List.filter is_getUserMedia (effects r)).

(** How [stopRecording] stops the track of a stream (lines 1546-1565):
    at once, or on Safari through a 50 ms timer. *)
Definition track_stop (env : REnv) (m : Mic) : Effect :=
  if isSafari env then ESetTimeout 50 (TDelayedTrackStop (mic_id m))
  else ETrackStop (mic_id m).

End Observations.
Export Observations.

(** ** More pages, recorders and platforms to run the code on *)

Module Scenarios.
Import AudioUnlockUtils AudioPlaybackManager PlaybackControls Examples.
Import RecordingManager.

(** Message "a" is playing, two seconds in. *)
Definition a_two_seconds_in : World :=
  upd_audio (set_audio_currentTime 2) a_is_playing.

(** Six unlock attempts have been made and audio is still locked. *)
Definition six_attempts : World :=
  with_unlock (set_audioUnlockAttempts 6) a_is_playing.

(** [play()] starts on the element [resumeAudio] creates; the inline element
    remembers no rate. *)
Definition play_starts : ResumeEnv :=
  {| inline_savedPlaybackRate := None; resumed_play := PlayFulfilled |}.

(** Every [play()] of the ladder is rejected. *)
Definition always_rejected : PlayRetry.RetryEnv :=
  {| PlayRetry.play_outcome := fun _ => PlayRejected;
     PlayRetry.context_suspended := false;
     PlayRetry.stamp := fun _ => "1700000000000_k3x9q2a" |}.

(** The ladder starts with nothing called and nothing registered. *)
Definition ladder_start : PlayRetry.Retry :=
  {| PlayRetry.calls := []; PlayRetry.events := EventSystem.no_events |}.

Definition ladder_end : PlayRetry.Retry :=
  default ladder_start (PlayRetry.playWithRetry always_rejected 9 ladder_start).

(** A page on which one [keydown] handler is registered on the document. *)
Definition one_listener : EventSystem.Events :=
  fst (EventSystem.register (fun _ => "1700000000000_k3x9q2a")
         (Some EventSystem.document) "keydown" 1 EventSystem.no_options
         EventSystem.no_events).

Definition app : AudioManager.App :=
  {| AudioManager.page := a_is_playing; AudioManager.recorder := idle_with_draft;
     AudioManager.registry := one_listener |}.

(** A browser without speech recognition. *)
Definition idle_without_recognition : Rec :=
  {| isRecording := false; micStream := None; recognition := None;
     recordRTC := false; mediaRecorder := false; audioContext := None;
     analyser := false; source := None; recordingStartTime := 0;
     recordingTimer := false; animationFrameId := false;
     processingTranscript := false; currentTranscript := "";
     userInput := Some {| value := "draft"; readOnly := false; focused := true |};
     recordingUI := Some false; effects := [];
     cfg := {| isAndroid := false; isEdge := false;
               speechRecognitionSupported := false |} |}.

(** Chrome on a machine without a microphone. *)
Definition chrome_without_microphone : REnv :=
  {| getUserMedia := Throw "NotFoundError";
     isSafari := false; ua_iOS := false; autoTranscribeVoice := false;
     setting_alwaysReadOutLoud := false; playbackManager_present := true;
     unlockUtils_present := true; shared_audioContext := None;
     new_AudioContext := Ok CtxRunning; RecordRTC_loaded := false;
     new_RecordRTC_throws := false; recognition_start_error := None;
     has_appendMessage := true; has_getBotResponse := true;
     has_getBotResponseAndAudio := true; has_chatForm := true;
     js_trim := fun s => s; now := 1000 |}.

End Scenarios.

(** * Proofs *)

(** ** Running the monad *)

Section MonadFacts.
Context {S : Type}.

Lemma bind_modify {B} (f : S -> S) (k : unit -> M S B) (s : S) :
  bind (modify f) k s = k tt (f s).
Proof. reflexivity. Qed.

Lemma bind_get {B} (k : S -> M S B) (s : S) : bind get k s = k s s.
Proof. reflexivity. Qed.

Lemma bind_ret {A B} (a : A) (k : A -> M S B) (s : S) : bind (ret a) k s = k a s.
Proof. reflexivity. Qed.

Lemma bind_Ok {A B} (c : M S A) (k : A -> M S B) (s s' : S) (a : A) :
  c s = (s', Ok a) -> bind c k s = k a s'.
Proof. intros H. unfold bind. rewrite H. reflexivity. Qed.

Lemma bind_Throw {A B} (c : M S A) (k : A -> M S B) (s s' : S) (e : string) :
  c s = (s', Throw e) -> bind c k s = (s', Throw e).
Proof. intros H. unfold bind. rewrite H. reflexivity. Qed.

Lemma try_catch_Ok {A} (c : M S A) h (s s' : S) (a : A) :
  c s = (s', Ok a) -> try_catch c h s = (s', Ok a).
Proof. intros H. unfold try_catch. rewrite H. reflexivity. Qed.

Lemma try_catch_Throw {A} (c : M S A) h (s s' : S) (e : string) :
  c s = (s', Throw e) -> try_catch c h s = h e s'.
Proof. intros H. unfold try_catch. rewrite H. reflexivity. Qed.

Lemma try_catch_rethrow {A} (c : M S A) (s : S) :
  try_catch c (fun e => throw e) s = c s.
Proof. unfold try_catch, throw. destruct (c s) as [s' [a|e]]; reflexivity. Qed.

Lemma keeps_ret {A} (I : S -> Prop) (a : A) : keeps I (ret a).
Proof. intros s H. exact H. Qed.

Lemma keeps_throw {A} (I : S -> Prop) e : keeps I (@throw S A e).
Proof. intros s H. exact H. Qed.

Lemma keeps_get (I : S -> Prop) : keeps I (@get S).
Proof. intros s H. exact H. Qed.

Lemma keeps_modify (I : S -> Prop) (f : S -> S) :
  (forall s, I s -> I (f s)) -> keeps I (modify f).
Proof. intros Hf s H. apply Hf, H. Qed.

Lemma keeps_bind {A B} (I : S -> Prop) (c : M S A) (k : A -> M S B) :
  keeps I c -> (forall a, keeps I (k a)) -> keeps I (bind c k).
Proof.
  intros Hc Hk s H. unfold bind. specialize (Hc s H).
  destruct (c s) as [s' [a|e]]; cbn in *; [apply Hk, Hc | exact Hc].
Qed.

Lemma keeps_get_bind {B} (I : S -> Prop) (k : S -> M S B) :
  (forall s, I s -> I (fst (k s s))) -> keeps I (bind get k).
Proof. intros Hk s H. rewrite bind_get. apply Hk, H. Qed.

Lemma keeps_try_catch {A} (I : S -> Prop) (c : M S A) (h : string -> M S A) :
  keeps I c -> (forall e, keeps I (h e)) -> keeps I (try_catch c h).
Proof.
  intros Hc Hh s H. unfold try_catch. specialize (Hc s H).
  destruct (c s) as [s' [a|e]]; cbn in *; [exact Hc | apply Hh, Hc].
Qed.

Lemma keeps_when (I : S -> Prop) (b : bool) (c : M S unit) :
  keeps I c -> keeps I (when b c).
Proof. intros Hc. destruct b; [exact Hc | apply keeps_ret]. Qed.

Lemma total_keeps {A} (I : S -> Prop) (c : M S A) : total I c -> keeps I c.
Proof. intros H s Hs. apply H, Hs. Qed.

Lemma total_ret {A} (I : S -> Prop) (a : A) : total I (ret a).
Proof. intros s H. split; [exact H | exists a; reflexivity]. Qed.

Lemma total_get (I : S -> Prop) : total I (@get S).
Proof. intros s H. split; [exact H | exists s; reflexivity]. Qed.

Lemma total_modify (I : S -> Prop) (f : S -> S) :
  (forall s, I s -> I (f s)) -> total I (modify f).
Proof. intros Hf s H. split; [apply Hf, H | exists tt; reflexivity]. Qed.

Lemma total_bind {A B} (I : S -> Prop) (c : M S A) (k : A -> M S B) :
  total I c -> (forall a, total I (k a)) -> total I (bind c k).
Proof.
  intros Hc Hk s H. unfold bind. destruct (Hc s H) as [Hi [a Ha]].
  destruct (c s) as [s' r]. cbn in *. subst r. apply Hk, Hi.
Qed.

Lemma total_get_bind {B} (I : S -> Prop) (k : S -> M S B) :
  (forall s, I s -> I (fst (k s s)) /\ exists b, snd (k s s) = Ok b) ->
  total I (bind get k).
Proof. intros Hk s H. rewrite bind_get. apply Hk, H. Qed.

Lemma total_when (I : S -> Prop) (b : bool) (c : M S unit) :
  total I c -> total I (when b c).
Proof. intros Hc. destruct b; [exact Hc | apply total_ret]. Qed.


(** A [try] whose handler cannot throw. *)
Lemma total_try_catch {A} (I : S -> Prop) (c : M S A) (h : string -> M S A) :
  keeps I c -> (forall e, total I (h e)) -> total I (try_catch c h).
Proof.
  intros Hc Hh s H. unfold try_catch. specialize (Hc s H).
  destruct (c s) as [s' [a|e]]; cbn in *; [split; [exact Hc | eauto] | apply Hh, Hc].
Qed.

End MonadFacts.

Ltac keeps_step :=
  lazymatch goal with
  | |- keeps _ (bind _ _) => apply keeps_bind; [|intros ?]
  | |- keeps _ (try_catch _ _) => apply keeps_try_catch; [|intros ?]
  | |- keeps _ (when _ _) => apply keeps_when
  | |- keeps _ (ret _) => apply keeps_ret
  | |- keeps _ (throw _) => apply keeps_throw
  | |- keeps _ get => apply keeps_get
  | |- keeps _ (modify _) => apply keeps_modify
  | |- keeps _ (if ?b then _ else _) => destruct b
  | |- keeps _ (match ?x with _ => _ end) => destruct x
  end.

Ltac total_step :=
  lazymatch goal with
  | |- total _ (bind _ _) => apply total_bind; [|intros ?]
  | |- total _ (when _ _) => apply total_when
  | |- total _ (ret _) => apply total_ret
  | |- total _ get => apply total_get
  | |- total _ (modify _) => apply total_modify
  | |- total _ (if ?b then _ else _) => destruct b
  | |- total _ (match ?x with _ => _ end) => destruct x
  end.

(** ** AudioUnlockUtils *)

Section UnlockFacts.
Import AudioUnlockUtils Examples.

Ltac run_monad :=
  unfold try_catch, bind, when, modify, get, throw, ret, settle in *.

Ltac unfold_unlock :=
  unfold unlockAudio, new_Promise, unlock_executor,
    technique_audioContext, silent_probe, createInlineAudioElement,
    store_unlockedAudio; run_monad.

Ltac case_on x := destruct x; cbn -[Nat.ltb]; eauto.

Ltac unlock_cases env force prevent u :=
  case_on (audioUnlocked u && negb force);
  case_on ((5 <? audioUnlockAttempts u)%nat && negb force);
  destruct (had_user_interaction env || force); cbn;
    [destruct (audioContext_technique_throws env); cbn|];
    (case_on (silent_play env 0); case_on (silent_play env 1);
     case_on (silent_play env 2); case_on (inline_in_document u);
     try case_on (inline_create_throws env);
     case_on prevent; case_on (stored_unlockedAudio u);
     case_on (stored_play env)).

(** [unlockAudio] only touches the unlock state, returns normally and gives
    a resolved promise. *)
Lemma unlockAudio_frame env force prevent w :
  exists u b, unlockAudio env force prevent w =
    ({| unlock := u; pb := pb w; divs := divs w; localStorage := localStorage w |},
     Ok (Resolved b)).
Proof.
  destruct w as [u p d l]. unfold_unlock. cbn -[Nat.ltb].
  unlock_cases env force prevent u.
Qed.

(** The value the promise resolves with. *)
Lemma unlockAudio_result env force prevent w :
  snd (unlockAudio env force prevent w) =
  Ok (Resolved
        (if audioUnlocked (unlock w) && negb force then true
         else if (5 <? audioUnlockAttempts (unlock w))%nat && negb force then false
         else negb (reaches_outer_catch env w))).
Proof.
  destruct w as [u p d l]. unfold_unlock.
  unfold reaches_outer_catch, fails_early, fails_late. cbn -[Nat.ltb].
  unlock_cases env force prevent u.
Qed.

Lemma unlockAudio_noop env prevent w :
  audioUnlocked (unlock w) = true ->
  unlockAudio env false prevent w = (w, Ok (Resolved true)).
Proof. intros H. unfold unlockAudio. rewrite bind_get, H. reflexivity. Qed.

(** C9 (amended). The promise returned by [unlockAudio] always resolves and
    no exception escapes the call. Once audio is unlocked, a call without
    [forceAttempt] changes nothing, runs no technique and resolves [true].
    When the techniques run, the promise resolves [false] exactly when a
    failure reaches the outer handler of the executor: a probe whose
    [play()] throws, an inline element that is not in the document yet and
    whose [play()] throws or returns no promise, a stored element whose
    [play()] throws or returns no promise. A failure of the AudioContext
    technique and rejected [play()] promises are absorbed and the promise
    still resolves [true]. The outcome is stated for the calls in which the
    listeners of the page cannot change it: the call skips the simulated
    interactions, it fails before them, or storing the element cannot
    fail. *)
Theorem unlockAudio_always_resolves env (forceAttempt preventRecursion : bool)
  (w : World) :
  (exists b w',
     unlockAudio env forceAttempt preventRecursion w = (w', Ok (Resolved b)))
  /\ (audioUnlocked (unlock w) = true -> forceAttempt = false ->
      unlockAudio env forceAttempt preventRecursion w = (w, Ok (Resolved true)))
  /\ (attempt_runs forceAttempt w = true ->
      preventRecursion = true \/ fails_early env w = true
      \/ fails_late env w = false ->
      snd (unlockAudio env forceAttempt preventRecursion w)
      = Ok (Resolved (negb (reaches_outer_catch env w)))).
Proof.
  split.
  { destruct (unlockAudio_frame env forceAttempt preventRecursion w) as (u & b & H).
    eauto. }
  split.
  { intros H ->. apply unlockAudio_noop, H. }
  intros H _. rewrite unlockAudio_result. unfold attempt_runs in H.
  apply andb_true_iff in H. destruct H as [H1 H2].
  apply negb_true_iff in H1, H2. rewrite H1, H2. reflexivity.
Qed.

Lemma unlockAudio_always_resolves_witness :
  audioUnlocked (unlock already_unlocked) = true
  /\ unlockAudio desktop false false already_unlocked
     = (already_unlocked, Ok (Resolved true)).
Proof.
  split; [reflexivity|].
  apply (proj1 (proj2 (unlockAudio_always_resolves desktop false false already_unlocked)));
    reflexivity.
Defined.

(** C9, as stated, fails: the AudioContext technique runs and throws, and
    the promise resolves [true], not [false]. *)
Lemma unlockAudio_absorbs_a_failed_technique :
  audioContext_technique_throws desktop_without_audioContext = true
  /\ In TAudioContext
       (unlock_log (unlock (fst (unlockAudio desktop_without_audioContext
                                   false false a_is_playing))))
  /\ snd (unlockAudio desktop_without_audioContext false false a_is_playing)
     = Ok (Resolved true)
  /\ snd (unlockAudio desktop_without_audioContext false false a_is_playing)
     <> Ok (Resolved false).
Proof.
  vm_compute. repeat split; auto; discriminate.
Qed.

End UnlockFacts.

(** ** Transcription client *)

Section TranscriptionFacts.
Import Transcription.

Lemma fetch_json_sent env r sent :
  fst (fetch_json env r sent) = (sent ++ [r])%list.
Proof.
  unfold fetch_json. destruct (reply env (List.length sent)) as [e|ok st [t|]];
    try destruct ok; reflexivity.
Qed.

Lemma fetch_json_result env r sent :
  if fails (reply env (List.length sent))
  then exists e, snd (fetch_json env r sent) = Throw e
  else exists t, snd (fetch_json env r sent) = Ok t.
Proof.
  unfold fetch_json, fails.
  destruct (reply env (List.length sent)) as [e|ok st [t|]];
    try destruct ok; cbn; eauto.
Qed.

Lemma sendAudioToBackend_small env blob_size sent :
  (size_threshold <? blob_size)%N = false ->
  sendAudioToBackend env blob_size sent = fetch_json env (request env blob_size false) sent.
Proof.
  intros H. unfold sendAudioToBackend. rewrite H.
  unfold bind at 1, ret at 1. apply try_catch_rethrow.
Qed.

Lemma sendAudioToBackend_large env blob_size sent :
  (size_threshold <? blob_size)%N = true ->
  sendAudioToBackend env blob_size sent =
  match fetch_json env (request env blob_size true) sent with
  | (sent', Ok t) => (sent', Ok t)
  | (sent', Throw _) => fetch_json env (request env blob_size false) sent'
  end.
Proof.
  intros H. unfold sendAudioToBackend. rewrite H.
  unfold bind at 1, try_catch at 1, bind at 1. fold (request env blob_size true).
  destruct (fetch_json env (request env blob_size true) sent) as [s1 [t|e]]; cbn.
  - reflexivity.
  - apply try_catch_rethrow.
Qed.

(** C8. The first request carries the compression flag exactly when the blob
    is larger than the threshold. When that compressed request fails, one
    request without the flag follows and its outcome is the outcome of the
    call: a failure is thrown to the caller. No call sends more than two
    requests. *)
Theorem sendAudioToBackend_falls_back_once env (blob_size : N) (sent : list Request) :
  let out := sendAudioToBackend env blob_size sent in
  let n := List.length sent in
  let req c := {| req_size := blob_size; req_compress := c;
                  req_language := default "fr" (languageSelect env) |} in
  if (size_threshold <? blob_size)%N
  then
    if fails (reply env n)
    then
      fst out = (sent ++ [req true; req false])%list
      /\ (if fails (reply env (S n))
          then exists e, snd out = Throw e
          else exists t, snd out = Ok t)
    else fst out = (sent ++ [req true])%list /\ exists t, snd out = Ok t
  else
    fst out = (sent ++ [req false])%list
    /\ (if fails (reply env n)
        then exists e, snd out = Throw e
        else exists t, snd out = Ok t).
Proof.
  intros out n req. subst out.
  change req with (request env blob_size).
  destruct (size_threshold <? blob_size)%N eqn:Hsize.
  - rewrite (sendAudioToBackend_large _ _ _ Hsize).
    pose proof (fetch_json_sent env (request env blob_size true) sent) as Hs.
    pose proof (fetch_json_result env (request env blob_size true) sent) as Hr.
    fold n in Hr.
    destruct (fetch_json env (request env blob_size true) sent) as [s1 r1].
    cbn in Hs, Hr. subst s1.
    destruct (fails (reply env n)).
    + destruct Hr as [e ->].
      pose proof (fetch_json_result env (request env blob_size false)
                    (sent ++ [request env blob_size true])%list) as Hr2.
      rewrite length_app, Nat.add_comm in Hr2. cbn [List.length Nat.add] in Hr2.
      fold n in Hr2.
      split; [|exact Hr2].
      rewrite fetch_json_sent, <- app_assoc. reflexivity.
    + destruct Hr as [t ->]. cbn. eauto.
  - rewrite (sendAudioToBackend_small _ _ _ Hsize).
    split; [apply fetch_json_sent | apply fetch_json_result].
Qed.
End TranscriptionFacts.

(** ** RecordingManager *)

Section RecordingFacts.
Import RecordingManager Examples.

Lemma voiceButton_click_while_recording env r :
  isRecording r = true -> voiceButton_click env r = (r, Ok tt).
Proof.
  intros H. unfold voiceButton_click, try_catch. rewrite bind_get, H. reflexivity.
Qed.

Lemma startRecording_while_recording env r :
  isRecording r = true -> startRecording env r = (r, Ok tt).
Proof. intros H. unfold startRecording. rewrite bind_get, H. reflexivity. Qed.

(** C2. While a session is active, every click on the voice button and every
    call of [startRecording] returns at once: the state is left as it was,
    so nothing is shown to the user, the microphone is not asked for again
    and the one session stays active. *)
Theorem start_requests_while_recording_are_ignored (envs : list REnv) (r : Rec) :
  isRecording r = true ->
  fold_left (fun r env => fst (voiceButton_click env r)) envs r = r
  /\ Forall (fun env => voiceButton_click env r = (r, Ok tt)
                        /\ startRecording env r = (r, Ok tt)) envs.
Proof.
  intros H. split.
  - induction envs as [|env envs IH]; [reflexivity|].
    cbn [fold_left]. rewrite (voiceButton_click_while_recording env r H). exact IH.
  - apply Forall_forall. intros env _. split.
    + apply voiceButton_click_while_recording, H.
    + apply startRecording_while_recording, H.
Qed.

Lemma keeps_effect I e :
  (forall r, I r -> I (set_effects (effects r ++ [e])%list r)) -> keeps I (effect e).
Proof. intros H. unfold effect. apply keeps_modify, H. Qed.

Lemma keeps_input_empty_if_userInput (f : Input -> Input) :
  (forall i, value i = "" -> value (f i) = "") ->
  keeps input_empty (if_userInput f).
Proof.
  intros Hf. unfold if_userInput. apply keeps_modify.
  intros r (i & Hi & Hv). exists (f i). cbn. rewrite Hi. split; [reflexivity | apply Hf, Hv].
Qed.

Lemma keeps_input_empty_on_userInput (f : Input -> Input) :
  (forall i, value i = "" -> value (f i) = "") ->
  keeps input_empty (on_userInput f).
Proof.
  intros Hf r (i & Hi & Hv). unfold on_userInput. rewrite bind_get, Hi.
  exists (f i). cbn. split; [reflexivity | apply Hf, Hv].
Qed.

Ltac input_frame :=
  let r := fresh "r" in let i := fresh "i" in
  intros r (i & ? & ?); exists i; destruct r; cbn in *;
  repeat case_match; cbn; split; assumption.

Lemma keeps_input_empty_hideRecordingUI : keeps input_empty hideRecordingUI.
Proof.
  unfold hideRecordingUI. repeat keeps_step; try input_frame.
  apply keeps_input_empty_on_userInput. intros i H. exact H.
Qed.

Lemma keeps_input_empty_stopRecording env :
  keeps input_empty (stopRecording env false).
Proof.
  unfold stopRecording, recognition_abort.
  repeat first
    [ apply keeps_input_empty_hideRecordingUI
    | apply keeps_input_empty_if_userInput; intros; reflexivity
    | apply keeps_effect
    | keeps_step ]; try input_frame.
Qed.

Lemma keeps_input_empty_settle env :
  keeps input_empty (stopRecording_settle env false).
Proof.
  unfold stopRecording_settle. cbn [andb].
  repeat first
    [ apply keeps_input_empty_if_userInput; intros; assumption
    | apply keeps_effect
    | keeps_step ]; try input_frame.
Qed.

(** C3 (amended). Whatever the text input holds when the cancel button is
    clicked, and so whatever it held before recording started, cancelling
    leaves it empty, and it is still empty after the timer of
    [stopRecording] has run: no transcript remains, and text typed before
    the recording is cleared as well. The Escape key does, during a
    recording, what the cancel button does. *)
Theorem cancel_leaves_text_input_empty env (r : Rec) (inp : Input) :
  userInput r = Some inp ->
  let r1 := fst (cancelButton_click env r) in
  let r2 := fst (stopRecording_settle env false r1) in
  (value <$> userInput r1) = Some ""
  /\ (value <$> userInput r2) = Some ""
  /\ (isRecording r = true ->
      document_keydown env "Escape" r = cancelButton_click env r).
Proof.
  intros Hi r1 r2.
  cut ((value <$> userInput r1) = Some "" /\ (value <$> userInput r2) = Some "").
  { intros [H1 H2]. split; [exact H1|]. split; [exact H2|].
    intros Hrec. unfold document_keydown, cancelButton_click.
    rewrite !bind_get, Hrec. reflexivity. }
  assert (H1 : input_empty r1).
  { subst r1. unfold cancelButton_click. rewrite bind_get.
    assert (Hpre : exists i, userInput (fst (when (bool_decide (is_Some (recognition r)))
                     recognition_abort r)) = Some i).
    { exists inp. unfold when, recognition_abort.
      destruct (bool_decide _); destruct r; cbn in *; assumption. }
    unfold bind at 1.
    destruct (when _ recognition_abort r) as [r' [[]|e]] eqn:Hw.
    2:{ exfalso. unfold when, recognition_abort in Hw.
        destruct (bool_decide _); discriminate. }
    cbn in Hpre. destruct Hpre as [i Hi'].
    unfold bind at 1. unfold on_userInput at 1. rewrite bind_get, Hi'.
    unfold modify at 1. cbn iota beta.
    apply (keeps_bind input_empty).
    - apply keeps_effect. input_frame.
    - intros _. apply keeps_input_empty_stopRecording.
    - exists (set_value "" i). destruct r'; cbn. split; reflexivity. }
  assert (H2 : input_empty r2).
  { subst r2. apply keeps_input_empty_settle, H1. }
  destruct H1 as (i1 & E1 & V1), H2 as (i2 & E2 & V2).
  rewrite E1, E2. cbn. rewrite V1, V2. split; reflexivity.
Qed.



Lemma recognition_onerror_aborted_ignored env r :
  isRecording r = true -> recognition_onerror env "aborted" r = (r, Ok tt).
Proof. intros H. unfold recognition_onerror. rewrite bind_get, H. reflexivity. Qed.

Lemma recognition_onend_schedules_restart r :
  isRecording r = true ->
  recognition_onend r =
  (set_effects (effects r ++ [ESetTimeout 100 TRestartRecognition])%list
     (set_recognition ((fun _ => false) <$> recognition r) r), Ok tt).
Proof.
  intros H. unfold recognition_onend. rewrite bind_modify, bind_get.
  destruct r; cbn in *. rewrite H. reflexivity.
Qed.

Lemma restart_recognition_starts env r :
  isRecording r = true -> recognition r = Some false ->
  recognition_start_error env = None ->
  restart_recognition env r =
  (set_recognition (Some true) (set_effects (effects r ++ [ERecognitionStart])%list r), Ok tt).
Proof.
  intros H Hr He. unfold restart_recognition. rewrite bind_get, H.
  unfold when, recognition_start. rewrite bind_get, Hr, He. reflexivity.
Qed.

Lemma deliver_keeps_session env ev r :
  isRecording r = true -> session_view (deliver env ev r) = session_view r.
Proof.
  intros H. destruct ev; cbn [deliver].
  - rewrite recognition_onerror_aborted_ignored by exact H. reflexivity.
  - rewrite recognition_onend_schedules_restart by exact H.
    destruct r; unfold session_view; cbn. rewrite filter_app. cbn.
    rewrite app_nil_r. reflexivity.
  - unfold restart_recognition. rewrite bind_get, H. unfold when, recognition_start.
    rewrite bind_get.
    destruct (recognition r) as [[|]|]; try reflexivity.
    destruct (recognition_start_error env); try reflexivity.
    destruct r; unfold session_view; cbn. rewrite filter_app. cbn.
    rewrite app_nil_r. reflexivity.
Qed.

(** C7. While a session is active, an [aborted] error of the recognizer
    changes nothing; when the recognizer ends, a restart is scheduled 100 ms
    later, and when that timer fires the recognizer is started again. No
    sequence of these events ends the session, releases the microphone,
    touches the text input or shows an alert. *)
Theorem transient_recognizer_events_keep_the_session env (evs : list Transient) (r : Rec) :
  isRecording r = true ->
  let r' := fold_left (fun r ev => deliver env ev r) evs r in
  recognition_onerror env "aborted" r = (r, Ok tt)
  /\ effects (fst (recognition_onend r)) = (effects r ++ [ESetTimeout 100 TRestartRecognition])%list
  /\ (is_Some (recognition r) -> recognition_start_error env = None ->
      recognition (deliver env RestartTimerFires (deliver env RecognizerEnded r)) = Some true)
  /\ isRecording r' = true
  /\ micStream r' = micStream r
  /\ userInput r' = userInput r
  /\ filter (fun e => is_alert e) (effects r') = filter (fun e => is_alert e) (effects r).
Proof.
  intros H r'.
  split; [apply recognition_onerror_aborted_ignored, H|].
  split; [rewrite recognition_onend_schedules_restart by exact H; destruct r; reflexivity|].
  split.
  { intros [b Hb] He. cbn [deliver].
    rewrite recognition_onend_schedules_restart by exact H. cbn [fst].
    rewrite restart_recognition_starts; [reflexivity| | |exact He].
    - destruct r; exact H.
    - destruct r; cbn in *. rewrite Hb. reflexivity. }
  assert (Hv : session_view r' = session_view r /\ isRecording r' = true).
  { subst r'. revert r H. induction evs as [|ev evs IH]; intros r H; [split; [reflexivity|exact H]|].
    cbn [fold_left].
    pose proof (deliver_keeps_session env ev r H) as Hd.
    assert (Hrec : isRecording (deliver env ev r) = true).
    { unfold session_view in Hd. injection Hd as -> _ _ _. exact H. }
    destruct (IH _ Hrec) as [IH1 IH2]. split; [rewrite IH1; exact Hd | exact IH2]. }
  destruct Hv as [Hv Hrec]. unfold session_view in Hv. injection Hv as _ Hm Hu Ha.
  auto.
Qed.
Lemma start_requests_while_recording_are_ignored_witness :
  isRecording recording = true
  /\ fold_left (fun r env => fst (voiceButton_click env r)) [chrome; chrome] recording
     = recording.
Proof.
  split; [reflexivity|].
  apply (proj1 (start_requests_while_recording_are_ignored
                  [chrome; chrome] recording eq_refl)).
Defined.

Lemma cancel_leaves_text_input_empty_witness :
  userInput recording
  = Some {| value := "draft"; readOnly := true; focused := true |}
  /\ value <$> userInput (fst (cancelButton_click chrome recording)) = Some "".
Proof.
  split; [reflexivity|].
  apply (proj1 (cancel_leaves_text_input_empty chrome recording
                  {| value := "draft"; readOnly := true; focused := true |}
                  eq_refl)).
Defined.

(** C3, as stated, fails: the user had typed "draft" before recording;
    after start and cancel the input is empty. *)
Lemma cancel_clears_the_text_typed_before :
  value <$> userInput idle_with_draft = Some "draft"
  /\ isRecording recording = true
  /\ value <$> userInput cancelled = Some ""
  /\ value <$> userInput cancelled <> value <$> userInput idle_with_draft.
Proof.
  vm_compute. repeat split; discriminate.
Qed.

Lemma transient_recognizer_events_keep_the_session_witness :
  isRecording recording = true
  /\ isRecording (fold_left (fun r ev => deliver chrome ev r)
                    [RecognizerAborted; RecognizerEnded; RestartTimerFires]
                    recording) = true.
Proof.
  split; [reflexivity|].
  apply (transient_recognizer_events_keep_the_session chrome
           [RecognizerAborted; RecognizerEnded; RestartTimerFires]
           recording eq_refl).
Defined.

End RecordingFacts.

(** ** The speed cycle *)

Section RateFacts.
Import AudioPlaybackManager Examples.


Lemma next_rate_in_domain r :
  next_rate r = one \/ next_rate r = one_and_half \/ next_rate r = two.
Proof. unfold next_rate. destruct (strict_eq r one), (strict_eq r one_and_half); auto. Qed.


Lemma cyclePlaybackSpeed_rate env m w :
  globalPlaybackRate (pb (cyclePlaybackSpeed env m w)) = next_rate (globalPlaybackRate (pb w)).
Proof.
  unfold cyclePlaybackSpeed. cbn.
  destruct (isMobileDevice (pb w)); reflexivity.
Qed.

Lemma cyclePlaybackSpeed_storage env m w :
  localStorage (cyclePlaybackSpeed env m w) !! "audioPlaybackRate" =
  Some (num_to_string env (next_rate (globalPlaybackRate (pb w)))).
Proof.
  unfold cyclePlaybackSpeed. cbn.
  destruct (isMobileDevice (pb w)); cbn; apply lookup_insert_eq.
Qed.

Lemma cyclePlaybackSpeed_sanitizes env m w : rate_sanitized env (cyclePlaybackSpeed env m w).
Proof.
  unfold rate_sanitized. rewrite cyclePlaybackSpeed_rate, cyclePlaybackSpeed_storage.
  split; [apply next_rate_in_domain | reflexivity].
Qed.





(** C10. Whatever the rate was, and so also when it is the number that
    [initialize] read from the settings store, one application of
    [cyclePlaybackSpeed] leaves the rate in {1, 1.5, 2} and stores its string
    form under [audioPlaybackRate]. *)
Theorem cyclePlaybackSpeed_restores_the_rate_domain env (m : nat) (w : World) :
  rate_sanitized env (cyclePlaybackSpeed env m w)
  /\ rate_sanitized env (cyclePlaybackSpeed env m (initialize env w)).
Proof. split; apply cyclePlaybackSpeed_sanitizes. Qed.

End RateFacts.


(** ** The page *)

Section PageFacts.

Lemma get_div_upd_div_eq m f w : get_div (upd_div m f w) m = f (get_div w m).
Proof. unfold get_div, upd_div. cbn. rewrite lookup_insert_eq. reflexivity. Qed.

Lemma get_div_upd_div_ne m n f w : m <> n -> get_div (upd_div m f w) n = get_div w n.
Proof. intros H. unfold get_div, upd_div. cbn. rewrite lookup_insert_ne by exact H. reflexivity. Qed.

(** A property of one message element survives an update of any element by
    a function that respects it. *)
Lemma get_div_upd_div_prop_at (Q : MsgDiv -> Prop) m n f w :
  (m = n -> forall d, Q d -> Q (f d)) -> Q (get_div w n) -> Q (get_div (upd_div m f w) n).
Proof.
  intros Hf H. destruct (decide (m = n)) as [->|Hne].
  - rewrite get_div_upd_div_eq. apply Hf; [reflexivity | exact H].
  - rewrite get_div_upd_div_ne by exact Hne. exact H.
Qed.

Lemma get_div_upd_div_prop (Q : MsgDiv -> Prop) m n f w :
  (forall d, Q d -> Q (f d)) -> Q (get_div w n) -> Q (get_div (upd_div m f w) n).
Proof. intros Hf. apply get_div_upd_div_prop_at. intros _. exact Hf. Qed.

End PageFacts.

(** ** AudioPlaybackManager *)

Section PlaybackFacts.
Import AudioUnlockUtils AudioPlaybackManager Examples.


Lemma vocal_style_cases disp vis d :
  vocal_style disp vis d = d
  \/ exists v, vocalButton d = Some v
       /\ vocal_style disp vis d = set_vocalButton (Some (vb_set_style disp vis v)) d.
Proof. unfold vocal_style. destruct (vocalButton d); eauto. Qed.

Lemma updateAudioControls_pb env m w : pb (updateAudioControls env m w) = pb w.
Proof. reflexivity. Qed.

Lemma updateAudioControls_prop Q env m n w :
  ui_independent Q -> Q (get_div w n) -> Q (get_div (updateAudioControls env m w) n).
Proof.
  intros [Hc Hv] H. unfold updateAudioControls.
  apply get_div_upd_div_prop; [|exact H].
  intros d Hd. destruct (default IDLE _); try destruct (_ && _); auto.
Qed.

Lemma releaseAudioResources_prop Q env n w :
  ui_independent Q -> Q (get_div w n) -> Q (get_div (releaseAudioResources env w) n).
Proof.
  intros HQ H. unfold releaseAudioResources.
  set (w1 := match inlineAudioElement _ with Some _ => _ | None => _ end).
  assert (H1 : Q (get_div w1 n)).
  { subst w1. cbn. destruct (inlineAudioElement (unlock w)); exact H. }
  clearbody w1. destruct (currentlyPlayingMsgDiv (pb w1)); [|exact H1].
  destruct (truthy _); [|exact H1].
  change (Q (get_div (updateAudioControls env n0
     (with_pb (map_set (ds_messageId (get_div w1 n0)) FINISHED) w1)) n)).
  apply updateAudioControls_prop; [exact HQ | exact H1].
Qed.

Lemma releaseAudioResources_rate env w :
  globalPlaybackRate (pb (releaseAudioResources env w)) = globalPlaybackRate (pb w).
Proof.
  unfold releaseAudioResources.
  set (w1 := match inlineAudioElement _ with Some _ => _ | None => _ end).
  assert (H1 : globalPlaybackRate (pb w1) = globalPlaybackRate (pb w)).
  { subst w1. cbn. destruct (inlineAudioElement (unlock w)); reflexivity. }
  clearbody w1. destruct (currentlyPlayingMsgDiv (pb w1)); [|exact H1].
  destruct (truthy _); exact H1.
Qed.

Lemma stopCurrentlyPlayingAudio_rate env c w :
  globalPlaybackRate (pb (stopCurrentlyPlayingAudio env c w)) = globalPlaybackRate (pb w).
Proof.
  unfold stopCurrentlyPlayingAudio.
  destruct (currentlyPlayingMsgDiv (pb w)); [|reflexivity].
  destruct (negb _); [reflexivity|].
  rewrite updateAudioControls_pb.
  destruct c; cbn; apply releaseAudioResources_rate.
Qed.

(** Stopping the message that is playing leaves the other elements alone,
    up to their controls. *)
Lemma stopCurrentlyPlayingAudio_prop Q env c n w :
  ui_independent Q ->
  (forall d p, currentlyPlayingMsgDiv (pb w) = Some n -> Q d -> Q (set_ds_currentPosition p d)) ->
  Q (get_div w n) -> Q (get_div (stopCurrentlyPlayingAudio env c w) n).
Proof.
  intros HQ Hpos H. unfold stopCurrentlyPlayingAudio.
  destruct (currentlyPlayingMsgDiv (pb w)) as [t|] eqn:Ht; [|exact H].
  destruct (negb _); [exact H|].
  apply updateAudioControls_prop; [exact HQ|].
  destruct c.
  - apply (releaseAudioResources_prop Q); assumption.
  - apply get_div_upd_div_prop_at.
    + intros -> d Hd. apply Hpos; [reflexivity | exact Hd].
    + change (Q (get_div (releaseAudioResources env w) n)).
      apply (releaseAudioResources_prop Q); assumption.
Qed.



Lemma await_unlockAudio env force prevent w :
  exists u b, await (unlockAudio env force prevent) w =
    ({| unlock := u; pb := pb w; divs := divs w; localStorage := localStorage w |}, Ok b).
Proof.
  destruct (unlockAudio_frame env force prevent w) as (u & b & H).
  exists u, b. unfold await. rewrite (bind_Ok _ _ _ _ _ H). reflexivity.
Qed.

(** An invariant that does not read the unlock state survives
    [await unlockAudio()]. *)
Lemma total_await_unlockAudio (I : World -> Prop) env force prevent :
  (forall w u, I w -> I {| unlock := u; pb := pb w; divs := divs w;
                           localStorage := localStorage w |}) ->
  total I (await (unlockAudio env force prevent)).
Proof.
  intros HI w Hw. destruct (await_unlockAudio env force prevent w) as (u & b & ->).
  split; [apply HI, Hw | eauto].
Qed.

Lemma keeps_playViaInlineElement (I : World -> Prop) env audioUrl :
  (forall w u, I w -> I {| unlock := u; pb := pb w; divs := divs w;
                           localStorage := localStorage w |}) ->
  keeps I (await (playViaInlineElement env audioUrl)).
Proof.
  intros HI. unfold await, playViaInlineElement.
  repeat keeps_step; intros [u p d l] H; apply (HI _ _ H).
Qed.

Lemma accepted_rate_Ok {S} env r (s : S) :
  accepts_rate env r = true -> accepted_rate env r s = (s, Ok r).
Proof.
  unfold accepts_rate, accepted_rate. intros H.
  destruct (playbackRate_error env r); [discriminate | reflexivity].
Qed.

Lemma keeps_accepted_rate {S} (I : S -> Prop) env r : keeps I (accepted_rate env r).
Proof.
  unfold accepted_rate. destruct (playbackRate_error env r);
    [apply keeps_throw | apply keeps_ret].
Qed.

Lemma total_accepted_rate {S} (I : S -> Prop) env r :
  accepts_rate env r = true -> total I (accepted_rate env r).
Proof.
  intros H s Hs. rewrite (accepted_rate_Ok env r s H). split; [exact Hs | eauto].
Qed.

Lemma assign_inline_rate_run env r w :
  assign_inline_rate env r w =
  match inlineAudioElement (unlock w) with
  | Some _ =>
      match playbackRate_error env r with
      | None => (upd_inline (set_inline_rate r) w, Ok tt)
      | Some e => (w, Throw e)
      end
  | None => (w, Ok tt)
  end.
Proof.
  unfold assign_inline_rate, accepted_rate. rewrite bind_get.
  destruct (inlineAudioElement (unlock w)); [|reflexivity].
  destruct (playbackRate_error env r); reflexivity.
Qed.


Lemma accepts_rate_error env r :
  accepts_rate env r = true <-> playbackRate_error env r = None.
Proof.
  unfold accepts_rate. destruct (playbackRate_error env r); split; congruence.
Qed.

Lemma keeps_assign_inline_rate (I : World -> Prop) env r :
  (forall w u, I w -> I {| unlock := u; pb := pb w; divs := divs w;
                           localStorage := localStorage w |}) ->
  keeps I (assign_inline_rate env r).
Proof.
  intros Hu. unfold assign_inline_rate.
  apply keeps_bind; [apply keeps_get|]. intros w0.
  destruct (inlineAudioElement (unlock w0)); [|apply keeps_ret].
  apply keeps_bind; [apply keeps_accepted_rate|]. intros r'.
  apply keeps_modify. intros [u p d l] H. apply (Hu _ _ H).
Qed.

Lemma total_assign_inline_rate (I : World -> Prop) env r :
  (forall w u, I w -> I {| unlock := u; pb := pb w; divs := divs w;
                           localStorage := localStorage w |}) ->
  accepts_rate env r = true ->
  total I (assign_inline_rate env r).
Proof.
  intros Hu Hr. unfold assign_inline_rate.
  apply total_bind; [apply total_get|]. intros w0.
  destruct (inlineAudioElement (unlock w0)); [|apply total_ret].
  apply total_bind; [apply total_accepted_rate, Hr|]. intros r'.
  apply total_modify. intros [u p d l] H. apply (Hu _ _ H).
Qed.

Lemma keeps_assign_audio_rate (I : World -> Prop) env r :
  (forall w a, I w -> I (with_pb (set_unlockedAudio a) w)) ->
  keeps I (assign_audio_rate env r).
Proof.
  intros Ha. unfold assign_audio_rate.
  apply keeps_bind; [apply keeps_accepted_rate|]. intros r'.
  apply keeps_modify. intros w H. apply (Ha w _ H).
Qed.


Lemma total_play_inline_branch I env m audioUrl :
  playback_independent I -> total I (play_inline_branch env m audioUrl).
Proof.
  intros (Hu & Ha & Hc). unfold play_inline_branch.
  apply total_bind; [apply total_get|]. intros w0.
  destruct (_ && _); [|apply total_ret].
  apply total_bind.
  { apply total_try_catch; [|intros e; apply total_ret].
    apply keeps_bind; [apply keeps_playViaInlineElement, Hu | intros _; apply keeps_ret]. }
  intros [|]; [|apply total_ret].
  apply total_bind; [|intros _; apply total_ret].
  apply total_try_catch; [|intros e; apply total_ret].
  apply keeps_bind; [apply keeps_get|]. intros w1.
  apply keeps_bind; [apply keeps_assign_inline_rate, Hu|]. intros _.
  repeat keeps_step.
  - intros w H. apply Hc, H.
  - intros [u p d l] H. apply (Hu _ _ H).
Qed.

Lemma keeps_play_dedicated_branch I env m audioUrl :
  playback_independent I -> keeps I (play_dedicated_branch env m audioUrl).
Proof.
  intros (Hu & Ha & Hc). unfold play_dedicated_branch.
  destruct audioUrl as [url|]; [|apply keeps_throw].
  apply keeps_bind; [apply keeps_modify; intros w H; apply Ha, H|]. intros _.
  apply keeps_bind; [apply keeps_get|]. intros w1.
  apply keeps_bind; [apply keeps_assign_audio_rate, Ha|]. intros _.
  apply keeps_bind; [apply keeps_modify; intros w H; apply (Ha w _ H)|]. intros _.
  apply keeps_modify. intros w H. apply Hc, H.
Qed.








Lemma position_ui_independent p : ui_independent (fun d => ds_currentPosition d = p).
Proof.
  split; intros d *; [intros H; exact H|].
  destruct (vocal_style_cases disp vis d) as [->|(v & _ & ->)]; intros H; exact H.
Qed.

Lemma replay_state_playback_independent m r : playback_independent (replay_state m r).
Proof.
  repeat split; try apply H.
  apply (updateAudioControls_prop (fun d => ds_currentPosition d = Some "0"));
    [apply (position_ui_independent _) | apply H].
Qed.

Lemma replay_state_resetAudioState m r n w :
  replay_state m r w -> replay_state m r (resetAudioState n w).
Proof.
  intros [Hp Hr]. unfold resetAudioState. destruct (negb _); [split; assumption|].
  split; [|exact Hr].
  apply (get_div_upd_div_prop (fun d => ds_currentPosition d = Some "0")); [|exact Hp].
  intros d Hd. destruct (vocalButton d); exact Hd.
Qed.

Lemma total_playMessageAudio_replay_state env m r audioUrl :
  total (replay_state m r) (playMessageAudio env m audioUrl).
Proof.
  pose proof (replay_state_playback_independent m r) as HI.
  assert (Hrest : forall (k : World -> option string), total (replay_state m r)
    (await (unlockAudio env false false) ;;
     modify (upd_div m (vocal_style "none" "hidden")) ;;
     modify (with_pb (set_currentlyPlayingMsgDiv (Some m))) ;;
     do w <- get;
     modify (with_pb (map_set (k w) PLAYING)) ;;
     try_catch
       (do playedViaInline <- play_inline_branch env m audioUrl;
        when (negb playedViaInline) (play_dedicated_branch env m audioUrl))
       (fun _ => modify (resetAudioState m)))).
  { intros k. apply total_bind; [apply total_await_unlockAudio, HI|]. intros _.
    apply total_bind.
    { apply total_modify. intros w [Hp Hr]. split; [|exact Hr].
      apply (get_div_upd_div_prop (fun d => ds_currentPosition d = Some "0")); [|exact Hp].
      intros d. destruct (vocal_style_cases "none" "hidden" d) as [->|(v & _ & ->)];
        intros H; exact H. }
    intros _. apply total_bind; [apply total_modify; intros w H; exact H|]. intros _.
    apply total_bind; [apply total_get|]. intros w0.
    apply total_bind; [apply total_modify; intros w H; exact H|]. intros _.
    apply total_try_catch.
    - apply keeps_bind; [apply total_keeps, total_play_inline_branch, HI|].
      intros p. apply keeps_when, keeps_play_dedicated_branch, HI.
    - intros e. apply total_modify. intros w. apply replay_state_resetAudioState. }
  unfold playMessageAudio. apply total_bind.
  { apply total_modify. intros w [Hp Hr]. split; [|exact Hr].
    apply (get_div_upd_div_prop (fun d => ds_currentPosition d = Some "0")); [|exact Hp].
    intros d H. exact H. }
  intros _. apply total_get_bind. intros w [Hp Hr].
  destruct (currentlyPlayingMsgDiv (pb w)) as [c|] eqn:Hc; cbn [when];
    [destruct (Nat.eqb_spec c m) as [->|Hne]; cbn [negb when]|].
  - rewrite bind_ret. apply (Hrest (fun w => ds_messageId (get_div w m))). split; assumption.
  - rewrite bind_modify. apply (Hrest (fun w => ds_messageId (get_div w m))). split.
    + apply (stopCurrentlyPlayingAudio_prop (fun d => ds_currentPosition d = Some "0"));
        [apply (position_ui_independent _) | | exact Hp].
      intros d p Hcm. congruence.
    + rewrite stopCurrentlyPlayingAudio_rate. exact Hr.
  - rewrite bind_ret. apply (Hrest (fun w => ds_messageId (get_div w m))). split; assumption.
Qed.

(** C4. After [replayAudio], and after its 100 ms timer, the position stored
    for the message is ["0"] and the global playback rate is the one in
    effect when it was called. This holds however the call ends: the promise
    is fulfilled, except on a mobile device that has the inline element and
    a global rate the element refuses, where it is rejected before playback
    is started and no timer is set. *)
Theorem replayAudio_resets_position_and_keeps_rate env (msgDiv : nat)
  (audioUrl : option string) (w : World) :
  let out := replayAudio env msgDiv audioUrl w in
  let after_timer := fst (replayAudio_timer env (fst out)) in
  ds_currentPosition (get_div (fst out) msgDiv) = Some "0"
  /\ globalPlaybackRate (pb (fst out)) = globalPlaybackRate (pb w)
  /\ ds_currentPosition (get_div after_timer msgDiv) = Some "0"
  /\ globalPlaybackRate (pb after_timer) = globalPlaybackRate (pb w)
  /\ if replay_rejects env w
     then exists e, snd out = Throw e
     else snd out = Ok tt.
Proof.
  intros out after_timer.
  pose proof (replay_state_playback_independent msgDiv (globalPlaybackRate (pb w)))
    as (Hu & Ha & _).
  set (w3 := with_pb (set_globalPlaybackRate (globalPlaybackRate (pb w)))
               (with_pb (set_unlockedAudio None)
                  (upd_div msgDiv (set_ds_currentPosition (Some "0")) w))).
  assert (H3 : replay_state msgDiv (globalPlaybackRate (pb w)) w3).
  { split; [|reflexivity]. subst w3. unfold get_div. cbn.
    rewrite lookup_insert_eq. reflexivity. }
  assert (Hout : out =
    bind (when (isMobileDevice (pb w3))
            (assign_inline_rate env (globalPlaybackRate (pb w3))))
      (fun _ => playMessageAudio env msgDiv
         (if negb (truthy audioUrl)
             && truthy (ds_audioUrl
                  (get_div (with_pb (set_unlockedAudio None)
                     (upd_div msgDiv (set_ds_currentPosition (Some "0")) w)) msgDiv))
          then ds_audioUrl
                 (get_div (with_pb (set_unlockedAudio None)
                    (upd_div msgDiv (set_ds_currentPosition (Some "0")) w)) msgDiv)
          else audioUrl)) w3).
  { reflexivity. }
  set (url := if _ && _ then _ else audioUrl) in Hout.
  assert (H : replay_state msgDiv (globalPlaybackRate (pb w)) (fst out)
              /\ if replay_rejects env w
                 then exists e, snd out = Throw e
                 else snd out = Ok tt).
  { rewrite Hout. unfold replay_rejects.
    change (isMobileDevice (pb w3)) with (isMobileDevice (pb w)).
    change (globalPlaybackRate (pb w3)) with (globalPlaybackRate (pb w)).
    destruct (isMobileDevice (pb w)); cbn [when andb].
    - pose proof (assign_inline_rate_run env (globalPlaybackRate (pb w)) w3) as Hrun.
      change (inlineAudioElement (unlock w3)) with (inlineAudioElement (unlock w))
        in Hrun.
      destruct (inlineAudioElement (unlock w)) as [i|] eqn:Ei.
      + rewrite bool_decide_eq_true_2 by eauto. cbn [andb].
        destruct (accepts_rate env (globalPlaybackRate (pb w))) eqn:Hr; cbn [negb].
        * rewrite (proj1 (accepts_rate_error _ _) Hr) in Hrun.
          rewrite (bind_Ok _ _ _ _ _ Hrun).
          destruct (total_playMessageAudio_replay_state env msgDiv
                      (globalPlaybackRate (pb w)) url
                      (upd_inline (set_inline_rate (globalPlaybackRate (pb w))) w3))
            as [Hs [[] Hok]]; [|split; assumption].
          destruct w3 as [u3 p3 d3 l3]. apply (Hu _ _ H3).
        * destruct (playbackRate_error env (globalPlaybackRate (pb w))) as [e|] eqn:He.
          -- rewrite (bind_Throw _ _ _ _ _ Hrun). split; [exact H3 | eauto].
          -- apply accepts_rate_error in He. congruence.
      + rewrite bool_decide_eq_false_2 by (intros [? ?]; discriminate).
        cbn [andb]. rewrite (bind_Ok _ _ _ _ _ Hrun).
        destruct (total_playMessageAudio_replay_state env msgDiv
                    (globalPlaybackRate (pb w)) url w3 H3) as [Hs [[] Hok]].
        split; assumption.
    - rewrite bind_ret.
      destruct (total_playMessageAudio_replay_state env msgDiv
                  (globalPlaybackRate (pb w)) url w3 H3) as [Hs [[] Hok]].
      split; assumption. }
  destruct H as [Hs Hres].
  assert (Ht : replay_state msgDiv (globalPlaybackRate (pb w)) after_timer).
  { subst after_timer.
    assert (K : keeps (replay_state msgDiv (globalPlaybackRate (pb w)))
                  (replayAudio_timer env)).
    { unfold replayAudio_timer. apply keeps_bind; [apply keeps_get|]. intros w0.
      apply keeps_bind.
      - destruct (unlockedAudio (pb w0)); [|apply keeps_ret].
        apply keeps_when, keeps_assign_audio_rate, Ha.
      - intros _. destruct (inlineAudioElement (unlock w0)); [|apply keeps_ret].
        apply keeps_when, keeps_assign_inline_rate, Hu. }
    exact (K _ Hs). }
  destruct Hs as [Hp Hr], Ht as [Hp' Hr'].
  repeat split; assumption.
Qed.

End PlaybackFacts.

(** ** TTSManager *)

Section TTSTheorems.
Import AudioUnlockUtils AudioPlaybackManager TTSManager Examples.

Lemma has_vocalButton_ui_independent :
  ui_independent (fun d => is_Some (vocalButton d)).
Proof.
  split; intros d *; [intros H; exact H|].
  unfold vocal_style. destruct (vocalButton d) eqn:E; intros H;
    [eexists; reflexivity | rewrite E; exact H].
Qed.

Lemma requestTTS_empty_blob env text status ct url w :
  tts_fetch env text = TTSResponse true status (Some ct) 0 url ->
  includes ct "audio/" = true ->
  requestTTS env text w = (w, Throw "Received empty audio blob").
Proof.
  intros Hf Hi. unfold requestTTS. rewrite try_catch_rethrow, Hf. cbn [negb].
  rewrite Hi. reflexivity.
Qed.

(** C6. When synthesis answers with a success status, an [audio/] content
    type and a body of zero bytes, [speakMessage] rejects with the error
    "Received empty audio blob", and the vocal button of the message has its
    [loading] class removed and shows the icon [assets/vocal.png]. *)
Theorem speakMessage_rejects_empty_audio env (msgDiv : nat) (text : string)
  (w : World) (status ct url : string) (v : VocalButton) :
  tts_fetch env text = TTSResponse true status (Some ct) 0 url ->
  includes ct "audio/" = true ->
  vocalButton (get_div w msgDiv) = Some v ->
  let out := speakMessage env msgDiv text w in
  snd out = Throw "Received empty audio blob"
  /\ exists v', vocalButton (get_div (fst out) msgDiv) = Some v'
       /\ vb_loading v' = false
       /\ vb_icon v' = "assets/vocal.png".
Proof.
  intros Hf Hi Hv out. subst out. unfold speakMessage.
  set (w2 := upd_div msgDiv (vocal_content true "assets/loading.png")
               (stopCurrentlyPlayingAudio env false w)).
  destruct (await_unlockAudio env false false w2) as (u & b & Hu).
  set (w3 := {| unlock := u; pb := pb w2; divs := divs w2;
                localStorage := localStorage w2 |}) in Hu.
  erewrite try_catch_Throw; cycle 1.
  { rewrite !bind_modify. fold w2. rewrite (bind_Ok _ _ _ _ _ Hu).
    apply bind_Throw. eapply requestTTS_empty_blob; eassumption. }
  rewrite bind_modify. cbn [fst snd throw]. split; [reflexivity|].
  rewrite get_div_upd_div_eq.
  change (get_div w3 msgDiv) with (get_div w2 msgDiv).
  subst w2. rewrite get_div_upd_div_eq.
  assert (Hs : is_Some (vocalButton (get_div (stopCurrentlyPlayingAudio env false w) msgDiv))).
  { apply (stopCurrentlyPlayingAudio_prop (fun d => is_Some (vocalButton d)));
      [apply has_vocalButton_ui_independent | intros d p _ H; exact H | rewrite Hv; eauto]. }
  destruct Hs as [v1 Hv1]. unfold vocal_content. rewrite Hv1. cbn.
  eexists. split; [reflexivity|]. split; reflexivity.
Qed.
Lemma speakMessage_rejects_empty_audio_witness :
  tts_fetch desktop "hello" = TTSResponse true "200" (Some "audio/mpeg") 0 "blob:empty"
  /\ includes "audio/mpeg" "audio/" = true
  /\ vocalButton (get_div a_is_playing 1) = Some speak_button
  /\ snd (speakMessage desktop 1 "hello" a_is_playing)
     = Throw "Received empty audio blob".
Proof.
  split; [reflexivity|]. split; [reflexivity|]. split; [reflexivity|].
  apply (proj1 (speakMessage_rejects_empty_audio desktop 1 "hello" a_is_playing
                  "200" "audio/mpeg" "blob:empty" speak_button
                  eq_refl eq_refl eq_refl)).
Defined.

End TTSTheorems.

(** ** Stopping and releasing *)

Section StopFacts.
Import AudioUnlockUtils AudioPlaybackManager.

Lemma messageId_ui_independent (a : option string) :
  ui_independent (fun d => ds_messageId d = a).
Proof.
  split; intros d *; [intros H; exact H|].
  destruct (vocal_style_cases disp vis d) as [->|(v & _ & ->)]; intros H; exact H.
Qed.

Lemma truthy_Some (a : string) : a <> "" -> truthy (Some a) = true.
Proof. destruct a; [congruence | reflexivity]. Qed.




(** X2. Releasing the audio resources twice is the same as releasing them
    once. *)
Theorem releaseAudioResources_is_idempotent env (w : World) :
  releaseAudioResources env (releaseAudioResources env w)
  = releaseAudioResources env w.
Proof.
  destruct w as [[un att st [i|] dom lg] [[c|] gr mp ua mo io hs] d l];
    unfold releaseAudioResources; cbn;
    try (destruct (truthy _); cbn); reflexivity.
Qed.

End StopFacts.
(** ** Starting playback *)

Section PlayFacts.
Import AudioUnlockUtils AudioPlaybackManager.

Lemma keeps_True {S A} (c : M S A) : keeps (fun _ => True) c.
Proof. intros s _. exact I. Qed.

Lemma bind_when_modify {S B} (b : bool) (f : S -> S) (k : unit -> M S B) (s : S) :
  bind (when b (modify f)) k s = k tt (if b then f s else s).
Proof. destruct b; reflexivity. Qed.

Lemma audioUrl_ui_independent (a : option string) :
  ui_independent (fun d => ds_audioUrl d = a).
Proof.
  split; intros d *; [intros H; exact H|].
  destruct (vocal_style_cases disp vis d) as [->|(v & _ & ->)]; intros H; exact H.
Qed.

Lemma no_vocalButton_ui_independent :
  ui_independent (fun d => vocalButton d = None).
Proof.
  split; intros d *; [intros H; exact H|].
  destruct (vocal_style_cases disp vis d) as [->|(v & Hv & ->)]; intros H;
    [exact H | congruence].
Qed.

(** X3. [playMessageAudio] never rejects: whatever the platform answers and
    whatever the state of the page, the promise it returns is fulfilled. *)
Theorem playMessageAudio_never_rejects env (msgDiv : nat) (audioUrl : option string)
  (w : World) :
  snd (playMessageAudio env msgDiv audioUrl w) = Ok tt.
Proof.
  assert (H : total (fun _ => True) (playMessageAudio env msgDiv audioUrl)).
  { unfold playMessageAudio.
    apply total_bind; [apply total_modify; auto|]. intros _.
    apply total_bind; [apply total_get|]. intros w0.
    apply total_bind; [apply total_when, total_modify; auto|]. intros _.
    apply total_bind; [apply total_await_unlockAudio; auto|]. intros _.
    apply total_bind; [apply total_modify; auto|]. intros _.
    apply total_bind; [apply total_modify; auto|]. intros _.
    apply total_bind; [apply total_get|]. intros w1.
    apply total_bind; [apply total_modify; auto|]. intros _.
    apply total_try_catch; [apply keeps_True|].
    intros e. apply total_modify. auto. }
  destruct (H w I) as [_ [[] Hok]]. exact Hok.
Qed.

(** The steps of [playMessageAudio] before its [try] block. *)
Lemma playMessageAudio_steps env B url w :
  exists w5,
    playMessageAudio env B url w =
      try_catch
        (do playedViaInline <- play_inline_branch env B url;
         when (negb playedViaInline) (play_dedicated_branch env B url))
        (fun _ => modify (resetAudioState B))
        (with_pb (map_set (ds_messageId (get_div w B)) PLAYING)
           (with_pb (set_currentlyPlayingMsgDiv (Some B)) w5))
    /\ globalPlaybackRate (pb w5) = globalPlaybackRate (pb w)
    /\ ds_messageId (get_div w5 B) = ds_messageId (get_div w B)
    /\ ds_audioUrl (get_div w5 B) = Some (to_dataset_string url)
    /\ (forall v, vocalButton (get_div w B) = Some v -> is_Some (vocalButton (get_div w5 B)))
    /\ (vocalButton (get_div w B) = None -> vocalButton (get_div w5 B) = None).
Proof.
  unfold playMessageAudio. rewrite bind_modify, bind_get.
  set (w1 := upd_div B (set_ds_audioUrl (Some (to_dataset_string url))) w).
  rewrite bind_when_modify.
  set (w2 := if match currentlyPlayingMsgDiv (pb w1) with
                | Some c => negb (c =? B)%nat
                | None => false
                end
             then stopCurrentlyPlayingAudio env false w1 else w1).
  assert (Hw2 : forall Q : MsgDiv -> Prop,
            ui_independent Q -> (forall d p, Q d -> Q (set_ds_currentPosition p d)) ->
            Q (get_div w1 B) -> Q (get_div w2 B)).
  { intros Q HQ Hpos H1. subst w2. destruct (match currentlyPlayingMsgDiv (pb w1) with
                                              | Some c => _ | None => _ end); [|exact H1].
    apply stopCurrentlyPlayingAudio_prop; auto. }
  assert (Hr2 : globalPlaybackRate (pb w2) = globalPlaybackRate (pb w)).
  { subst w2. destruct (match currentlyPlayingMsgDiv (pb w1) with
                        | Some c => _ | None => _ end); [|reflexivity].
    rewrite stopCurrentlyPlayingAudio_rate. reflexivity. }
  destruct (await_unlockAudio env false false w2) as (u & r & Hu).
  rewrite (bind_Ok _ _ _ _ _ Hu).
  rewrite !bind_modify, bind_get, bind_modify.
  set (w3 := {| unlock := u; pb := pb w2; divs := divs w2;
                localStorage := localStorage w2 |}).
  exists (upd_div B (vocal_style "none" "hidden") w3).
  assert (Hg3 : get_div w3 B = get_div w2 B) by reflexivity.
  assert (H5 : forall Q : MsgDiv -> Prop,
            ui_independent Q -> (forall d p, Q d -> Q (set_ds_currentPosition p d)) ->
            Q (get_div w1 B) -> Q (get_div (upd_div B (vocal_style "none" "hidden") w3) B)).
  { intros Q HQ Hpos H1. rewrite get_div_upd_div_eq, Hg3.
    apply (proj2 HQ). apply Hw2; assumption. }
  assert (Hid : ds_messageId (get_div (upd_div B (vocal_style "none" "hidden") w3) B)
                = ds_messageId (get_div w B)).
  { apply (H5 (fun d => ds_messageId d = ds_messageId (get_div w B)));
      [apply messageId_ui_independent | auto |].
    subst w1. rewrite get_div_upd_div_eq. reflexivity. }
  split.
  { change (get_div (with_pb (set_currentlyPlayingMsgDiv (Some B))
                       (upd_div B (vocal_style "none" "hidden") w3)) B)
      with (get_div (upd_div B (vocal_style "none" "hidden") w3) B).
    rewrite Hid. reflexivity. }
  split; [exact Hr2|].
  split; [exact Hid|].
  split.
  { apply (H5 (fun d => ds_audioUrl d = Some (to_dataset_string url)));
      [apply audioUrl_ui_independent | auto |].
    subst w1. rewrite get_div_upd_div_eq. reflexivity. }
  split.
  - intros v Hv. apply (H5 (fun d => is_Some (vocalButton d)));
      [apply has_vocalButton_ui_independent | auto |].
    subst w1. rewrite get_div_upd_div_eq. cbn. rewrite Hv. eauto.
  - intros Hv. apply (H5 (fun d => vocalButton d = None));
      [apply no_vocalButton_ui_independent | auto |].
    subst w1. rewrite get_div_upd_div_eq. exact Hv.
Qed.

Lemma play_inline_branch_not_started env B url w :
  ua_mobile env && inline_playback_starts env = false ->
  exists u, play_inline_branch env B url w =
    ({| unlock := u; pb := pb w; divs := divs w; localStorage := localStorage w |},
     Ok false).
Proof.
  intros H. unfold play_inline_branch. rewrite bind_get.
  destruct (ua_mobile env); cbn [andb] in *.
  - destruct (inlineAudioElement (unlock w)) as [i|] eqn:Hi.
    + rewrite bool_decide_eq_true_2 by eauto.
      unfold playViaInlineElement, await, try_catch, bind, get, modify, ret, throw.
      rewrite Hi, H. destruct (inline_in_document (unlock w)); cbn; eauto.
      exists (unlock w). destruct w; reflexivity.
    + rewrite bool_decide_eq_false_2 by (intros [? ?]; discriminate).
      exists (unlock w). destruct w; reflexivity.
  - exists (unlock w). destruct w; reflexivity.
Qed.

(** X4. A playback that has no audio URL and cannot use the inline element
    is given up: the promise is still fulfilled, the message is back in
    state [IDLE] with its speak button visible and no transport button, the
    string ["undefined"] is stored as its audio URL, and the message stays
    recorded as the current one. *)
Theorem playMessageAudio_without_url_resets_the_message env (B : nat) (b : string)
  (w : World) :
  ua_mobile env && inline_playback_starts env = false ->
  ds_messageId (get_div w B) = Some b -> b <> "" ->
  let out := playMessageAudio env B None w in
  snd out = Ok tt
  /\ messageStateMap (pb (fst out)) !! Some b = Some IDLE
  /\ currentlyPlayingMsgDiv (pb (fst out)) = Some B
  /\ ds_audioUrl (get_div (fst out) B) = Some "undefined"
  /\ pauseButton (get_div (fst out) B) = false
  /\ playButton (get_div (fst out) B) = false
  /\ replayButton (get_div (fst out) B) = false
  /\ speedButton (get_div (fst out) B) = None
  /\ (forall v, vocalButton (get_div w B) = Some v ->
        vocalButton (get_div (fst out) B) =
        Some {| vb_display := "inline-block"; vb_visibility := "visible";
                vb_loading := false; vb_icon := "assets/vocal.png" |}).
Proof.
  intros Henv Hid Hb out. subst out.
  destruct (playMessageAudio_steps env B None w) as (w5 & -> & _ & Hid5 & Hurl5 & Hv5 & _).
  rewrite Hid in *.
  set (w6 := with_pb (map_set (Some b) PLAYING)
               (with_pb (set_currentlyPlayingMsgDiv (Some B)) w5)).
  destruct (play_inline_branch_not_started env B None w6 Henv) as (u & Hin).
  set (w7 := {| unlock := u; pb := pb w6; divs := divs w6;
                localStorage := localStorage w6 |}) in *.
  match goal with
  | |- context [try_catch ?c ?h w6] =>
      assert (Hout : try_catch c h w6 = (resetAudioState B w7, Ok tt))
  end.
  { unfold try_catch. rewrite (bind_Ok _ _ _ _ _ Hin). reflexivity. }
  rewrite Hout. clear Hout.
  assert (Hg7 : get_div w7 B = get_div w5 B) by reflexivity.
  cbn [fst snd]. unfold resetAudioState. rewrite Hg7, Hid5, (truthy_Some b Hb).
  cbn [negb].
  split; [reflexivity|].
  split; [cbn; apply lookup_insert_eq|].
  split; [reflexivity|].
  rewrite get_div_upd_div_eq.
  change (get_div (with_pb (map_set (Some b) IDLE) w7) B) with (get_div w5 B).
  split; [destruct (vocalButton (get_div w5 B)); exact Hurl5|].
  repeat (split; [reflexivity|]).
  intros v Hv. destruct (Hv5 v Hv) as [v5 Hv5']. rewrite Hv5'. reflexivity.
Qed.




End PlayFacts.
(** ** Pause, resume and the end of playback *)

Section ControlsFacts.
Import AudioUnlockUtils AudioPlaybackManager PlaybackControls.

(** X6. The pause button: the message that is playing becomes [PAUSED] and
    stays the current one, the position of its audio element is stored in
    [dataset.currentPosition], the element is paused and kept, the play
    button and the speed button replace the pause button, and no other
    message changes state. *)
Theorem pauseAudio_pauses_and_records_the_position env (w : World) (m : nat)
  (a : string) (au : AudioElem) :
  currentlyPlayingMsgDiv (pb w) = Some m ->
  ds_messageId (get_div w m) = Some a -> a <> "" ->
  unlockedAudio (pb w) = Some au ->
  let w' := pauseAudio_frame env (pauseAudio env w) in
  messageStateMap (pb w') !! Some a = Some PAUSED
  /\ (forall k, k <> Some a ->
        messageStateMap (pb w') !! k = messageStateMap (pb w) !! k)
  /\ currentlyPlayingMsgDiv (pb w') = Some m
  /\ unlockedAudio (pb w') = Some (set_audio_paused true au)
  /\ ds_currentPosition (get_div w' m)
     = Some (num_to_string env (JNum (a_currentTime au)))
  /\ pauseButton (get_div w' m) = false
  /\ playButton (get_div w' m) = true
  /\ replayButton (get_div w' m) = false
  /\ speedButton (get_div w' m)
     = Some (rate_label env (globalPlaybackRate (pb w))).
Proof.
  intros Hc Hid Ha Hau w'.
  assert (Hp : pauseAudio env w =
    with_pb (map_set (Some a) PAUSED)
      (upd_div m (set_ds_currentPosition
                    (Some (num_to_string env (JNum (a_currentTime au)))))
         (upd_audio (set_audio_paused true)
            (if ua_mobile env
                && bool_decide (is_Some (inlineAudioElement (unlock w)))
                && a_paused au
             then upd_inline (set_inline_paused true) w else w)))).
  { unfold pauseAudio. rewrite Hau.
    set (w1 := if _ && _ && a_paused au then _ else w).
    assert (H1 : pb w1 = pb w /\ divs w1 = divs w).
    { subst w1. destruct (_ && _ && _); split; reflexivity. }
    destruct H1 as [Hp1 Hd1].
    assert (Hg : get_div (upd_audio (set_audio_paused true) w1) m = get_div w m)
      by (unfold get_div; cbn; rewrite Hd1; reflexivity).
    change (currentlyPlayingMsgDiv (pb (upd_audio (set_audio_paused true) w1)))
      with (currentlyPlayingMsgDiv (pb w1)).
    rewrite Hp1, Hc, Hg, Hid, (truthy_Some a Ha). reflexivity. }
  subst w'. rewrite Hp. clear Hp.
  set (w1 := if _ && _ && a_paused au then _ else w).
  assert (H1 : pb w1 = pb w /\ divs w1 = divs w).
  { subst w1. destruct (_ && _ && _); split; reflexivity. }
  destruct H1 as [Hp1 Hd1].
  unfold pauseAudio_frame. cbn [pb with_pb upd_div with_divs upd_audio map_set
                                set_unlockedAudio currentlyPlayingMsgDiv].
  rewrite Hp1, Hc. rewrite updateAudioControls_pb.
  cbn [pb with_pb upd_div with_divs upd_audio map_set set_unlockedAudio
       currentlyPlayingMsgDiv messageStateMap unlockedAudio globalPlaybackRate].
  rewrite Hp1.
  split; [apply lookup_insert_eq|].
  split; [intros k Hk; rewrite lookup_insert_ne by congruence; reflexivity|].
  split; [exact Hc|].
  split; [rewrite Hau; reflexivity|].
  unfold updateAudioControls. rewrite get_div_upd_div_eq.
  set (w2 := upd_audio (set_audio_paused true) w1).
  change (get_div (with_pb _ (upd_div m ?f w2)) m) with (get_div (upd_div m f w2) m).
  rewrite get_div_upd_div_eq.
  assert (Hg : get_div w2 m = get_div w m)
    by (unfold get_div; cbn; rewrite Hd1; reflexivity).
  rewrite Hg. cbn [ds_messageId set_ds_currentPosition]. rewrite Hid.
  cbn [pb with_pb map_set messageStateMap globalPlaybackRate].
  rewrite lookup_insert_eq. cbn [default].
  change (globalPlaybackRate (pb (upd_div m _ w2))) with (globalPlaybackRate (pb w1)).
  rewrite Hp1.
  split.
  { cbn. destruct (vocal_style_cases "none" "hidden"
             (set_ds_currentPosition
                (Some (num_to_string env (JNum (a_currentTime au)))) (get_div w m)))
      as [->|(v & _ & ->)]; reflexivity. }
  repeat split.
Qed.

Lemma resetAudioState_messageId m n w :
  ds_messageId (get_div (resetAudioState m w) n) = ds_messageId (get_div w n).
Proof.
  unfold resetAudioState. destruct (negb _); [reflexivity|].
  apply (get_div_upd_div_prop (fun d => ds_messageId d = ds_messageId (get_div w n)));
    [|reflexivity].
  intros d Hd. destruct (vocalButton d); exact Hd.
Qed.

(** What the [try] block of [resumeAudio] cannot change. *)
Lemma keeps_resume_try (I : World -> Prop) env renv m url pos :
  (forall w u, I w -> I {| unlock := u; pb := pb w; divs := divs w;
                           localStorage := localStorage w |}) ->
  (forall w a, I w -> I (with_pb (set_unlockedAudio a) w)) ->
  keeps I (resume_try env renv m url pos).
Proof.
  intros Hu Ha.
  assert (Hin : forall f, keeps I (modify (upd_inline f))).
  { intros f. apply keeps_modify. intros [u p d l] H. apply (Hu _ _ H). }
  assert (Hau : forall f, keeps I (modify (upd_audio f))).
  { intros f. apply keeps_modify. intros w H. apply Ha, H. }
  unfold resume_try, resume_inline, finite.
  apply keeps_bind; [apply keeps_get|]. intros w0.
  apply keeps_bind.
  { apply keeps_when.
    apply keeps_bind; [apply Hin|]. intros _.
    apply keeps_bind.
    { apply keeps_when. destruct pos; repeat keeps_step; try apply Hin. }
    intros _. apply keeps_bind; [apply keeps_get|]. intros w1.
    apply keeps_bind; [apply keeps_assign_inline_rate, Hu|].
    intros _. apply keeps_bind; [apply keeps_playViaInlineElement, Hu|].
    intros _. apply Hin. }
  intros _. apply keeps_bind.
  { apply keeps_modify. intros w H. apply Ha, H. }
  intros _. apply keeps_bind; [apply keeps_get|]. intros w1.
  apply keeps_bind; [apply keeps_assign_audio_rate, Ha|].
  intros _. apply keeps_bind.
  { apply keeps_when. destruct pos; repeat keeps_step; try apply Hau. }
  intros _. destruct (resumed_play renv); repeat keeps_step; try apply Hau.
Qed.

(** X7. [resumeAudio] never rejects, and it changes the state of no message
    but the one it is called for: a message that is [PLAYING] when another
    one is resumed stays [PLAYING]. *)
Theorem resumeAudio_leaves_the_other_messages env renv (m : nat)
  (audioUrl : option string) (w : World) (k : option string) :
  k <> ds_messageId (get_div w m) ->
  let out := resumeAudio env renv m audioUrl w in
  snd out = Ok tt
  /\ messageStateMap (pb (fst out)) !! k = messageStateMap (pb w) !! k.
Proof.
  intros Hk out. subst out.
  set (id := ds_messageId (get_div w m)) in *.
  pose (I := fun w' : World =>
    messageStateMap (pb w') !! k = messageStateMap (pb w) !! k
    /\ ds_messageId (get_div w' m) = id).
  assert (H : forall pos, total I
    (modify (with_pb (map_set id PLAYING)) ;;
     modify (with_pb (set_currentlyPlayingMsgDiv (Some m))) ;;
     modify (updateAudioControls env m) ;;
     try_catch
       (resume_try env renv m audioUrl pos)
       (fun _ => modify (resetAudioState m)))).
  { intros pos. apply total_bind.
    { apply total_modify. intros w' [Hm' Hid']. split; [|exact Hid'].
      cbn. rewrite lookup_insert_ne by congruence. exact Hm'. }
    intros _. apply total_bind; [apply total_modify; intros w' H; exact H|].
    intros _. apply total_bind.
    { apply total_modify. intros w' [Hm' Hid']. split; [exact Hm'|].
      apply (updateAudioControls_prop (fun d => ds_messageId d = id));
        [apply messageId_ui_independent | exact Hid']. }
    intros _. apply total_try_catch.
    - apply keeps_resume_try; intros w' ? H; exact H.
    - intros e. apply total_modify. intros w' [Hm' Hid'].
      split; [|rewrite resetAudioState_messageId; exact Hid'].
      unfold resetAudioState. rewrite Hid'.
      destruct (negb _); [exact Hm'|].
      cbn. rewrite lookup_insert_ne by congruence. exact Hm'. }
  unfold resumeAudio. rewrite bind_get. fold id.
  destruct (H (parseFloat env (position_or_zero (ds_currentPosition (get_div w m))))
              w (conj eq_refl eq_refl)) as [[Hm _] [[] Hok]].
  split; [exact Hok | exact Hm].
Qed.

End ControlsFacts.

Section ResumeFacts.
Import AudioUnlockUtils AudioPlaybackManager PlaybackControls.

(** Whether the [try] block of [resumeAudio] completes. *)
Lemma resume_try_result env renv m url pos w :
  let fails :=
    (ua_mobile env && bool_decide (is_Some (inlineAudioElement (unlock w)))
     && truthy url
     && (negb (accepts_rate env
                 (if truthy (inline_savedPlaybackRate renv)
                  then parseFloat env (default "" (inline_savedPlaybackRate renv))
                  else globalPlaybackRate (pb w)))
         || negb (inline_in_document (unlock w))
         || negb (inline_playback_starts env)))
    || match pos with JPosInf => true | _ => false end
    || negb (accepts_rate env (globalPlaybackRate (pb w)))
    || match resumed_play renv with
       | PlayThrows | PlayRejected => true
       | PlayUndefined | PlayFulfilled => false
       end in
  match snd (resume_try env renv m url pos w) with
  | Ok _ => fails = false
  | Throw _ => fails = true
  end.
Proof.
  destruct w as [[un att st [i|] dom lg] p d l];
    unfold resume_try, resume_inline, playViaInlineElement, await, finite,
      assign_inline_rate, assign_audio_rate, accepted_rate, accepts_rate,
      try_catch, bind, when, get, modify, ret, throw;
    destruct (ua_mobile env), url as [[|c s]|]; cbn;
    destruct pos as [q| | |]; cbn; try destruct (Qle_bool q 0); cbn;
    destruct (truthy (inline_savedPlaybackRate renv)); cbn;
    try destruct dom; cbn;
    destruct (inline_playback_starts env); cbn;
    repeat match goal with
           | |- context [playbackRate_error env ?r] =>
               destruct (playbackRate_error env r) eqn:?; cbn in *
           end;
    destruct (resumed_play renv); cbn; solve [reflexivity | congruence].
Qed.

(** X8. How [resumeAudio] ends for a message with an id: the message is
    the current one; it is [PLAYING] unless the inline element refuses its
    rate or refuses to start, the stored position reads as [Infinity], the
    new element refuses the global rate or [play()] on it is refused, and in
    those cases it is back in state [IDLE] with none of the transport
    buttons. *)
Theorem resumeAudio_plays_or_resets env renv (m : nat) (audioUrl : option string)
  (w : World) (a : string) :
  ds_messageId (get_div w m) = Some a -> a <> "" ->
  let out := resumeAudio env renv m audioUrl w in
  currentlyPlayingMsgDiv (pb (fst out)) = Some m
  /\ messageStateMap (pb (fst out)) !! Some a
     = Some (if resume_fails env renv m audioUrl w then IDLE else PLAYING)
  /\ (resume_fails env renv m audioUrl w = true ->
      pauseButton (get_div (fst out) m) = false
      /\ playButton (get_div (fst out) m) = false
      /\ replayButton (get_div (fst out) m) = false
      /\ speedButton (get_div (fst out) m) = None).
Proof.
  intros Hid Ha out. subst out.
  unfold resumeAudio. rewrite bind_get, !bind_modify.
  set (pos := parseFloat env (position_or_zero (ds_currentPosition (get_div w m)))).
  set (w3 := updateAudioControls env m _).
  pose (J := fun w' : World =>
    messageStateMap (pb w') !! Some a = Some PLAYING
    /\ ds_messageId (get_div w' m) = Some a
    /\ currentlyPlayingMsgDiv (pb w') = Some m).
  assert (H3 : J w3).
  { subst w3 J. cbn beta. rewrite updateAudioControls_pb. cbn [pb with_pb
      set_currentlyPlayingMsgDiv map_set messageStateMap currentlyPlayingMsgDiv].
    rewrite Hid. split; [apply lookup_insert_eq|]. split; [|reflexivity].
    apply (updateAudioControls_prop (fun d => ds_messageId d = Some a));
      [apply messageId_ui_independent | exact Hid]. }
  assert (HJ : keeps J (resume_try env renv m audioUrl pos)).
  { apply keeps_resume_try; intros w' ? H; exact H. }
  specialize (HJ w3 H3).
  pose proof (resume_try_result env renv m audioUrl pos w3) as Hres.
  cbv zeta in Hres.
  change (unlock w3) with (unlock w) in Hres.
  change (globalPlaybackRate (pb w3)) with (globalPlaybackRate (pb w)) in Hres.
  unfold resume_fails. fold pos.
  unfold try_catch.
  destruct (resume_try env renv m audioUrl pos w3) as [w4 [[]|e]];
    cbn [fst snd] in *; rewrite Hres; destruct HJ as (Hm4 & Hid4 & Hc4).
  - split; [exact Hc4|]. split; [exact Hm4|]. discriminate.
  - unfold modify. cbn [fst]. unfold resetAudioState.
    rewrite Hid4, (truthy_Some a Ha). cbn [negb].
    split; [exact Hc4|].
    split; [cbn; apply lookup_insert_eq|].
    intros _. rewrite get_div_upd_div_eq. repeat split.
Qed.

Lemma pauseAudio_unfolded env w m a au :
  currentlyPlayingMsgDiv (pb w) = Some m ->
  ds_messageId (get_div w m) = Some a -> a <> "" ->
  unlockedAudio (pb w) = Some au ->
  exists w1,
    pb w1 = pb w /\ divs w1 = divs w
    /\ pauseAudio env w =
       with_pb (map_set (Some a) PAUSED)
         (upd_div m (set_ds_currentPosition
                       (Some (num_to_string env (JNum (a_currentTime au)))))
            (upd_audio (set_audio_paused true) w1)).
Proof.
  intros Hc Hid Ha Hau. unfold pauseAudio. rewrite Hau.
  set (w1 := if _ && _ && a_paused au then _ else w).
  assert (H1 : pb w1 = pb w /\ divs w1 = divs w).
  { subst w1. destruct (_ && _ && _); split; reflexivity. }
  destruct H1 as [Hp1 Hd1]. exists w1.
  split; [exact Hp1|]. split; [exact Hd1|].
  assert (Hg : get_div (upd_audio (set_audio_paused true) w1) m = get_div w m)
    by (unfold get_div; cbn; rewrite Hd1; reflexivity).
  change (currentlyPlayingMsgDiv (pb (upd_audio (set_audio_paused true) w1)))
    with (currentlyPlayingMsgDiv (pb w1)).
  rewrite Hp1, Hc, Hg, Hid, (truthy_Some a Ha). reflexivity.
Qed.

(** X9. Pause, then resume, outside mobile browsers: when an audio element
    accepts the global rate and the position survives being written to and
    read back from [dataset.currentPosition], the new audio element starts
    where the old one was paused, at the global rate, and the message is
    [PLAYING] again. *)
Theorem resumeAudio_continues_where_pauseAudio_stopped env renv (w : World)
  (m : nat) (a : string) (au : AudioElem) (audioUrl : option string) :
  ua_mobile env = false ->
  resumed_play renv = PlayFulfilled ->
  accepts_rate env (globalPlaybackRate (pb w)) = true ->
  currentlyPlayingMsgDiv (pb w) = Some m ->
  ds_messageId (get_div w m) = Some a -> a <> "" ->
  unlockedAudio (pb w) = Some au ->
  (0 <= a_currentTime au)%Q ->
  num_to_string env (JNum (a_currentTime au)) <> "" ->
  parseFloat env (num_to_string env (JNum (a_currentTime au)))
  = JNum (a_currentTime au) ->
  let paused := pauseAudio_frame env (pauseAudio env w) in
  let out := resumeAudio env renv m audioUrl paused in
  snd out = Ok tt
  /\ messageStateMap (pb paused) !! Some a = Some PAUSED
  /\ messageStateMap (pb (fst out)) !! Some a = Some PLAYING
  /\ exists au',
       unlockedAudio (pb (fst out)) = Some au'
       /\ (a_currentTime au' == a_currentTime au)%Q
       /\ a_paused au' = false
       /\ a_playbackRate au' = globalPlaybackRate (pb w)
       /\ a_src au' = default "" audioUrl.
Proof.
  intros Hmob Hplay Hrate Hc Hid Ha Hau Hpos Hstr Hparse paused out.
  apply accepts_rate_error in Hrate.
  destruct (pauseAudio_unfolded env w m a au Hc Hid Ha Hau) as (w1 & Hp1 & Hd1 & Hp).
  set (t := a_currentTime au) in *.
  assert (Hpaused : paused =
    updateAudioControls env m
      (with_pb (map_set (Some a) PAUSED)
         (upd_div m (set_ds_currentPosition (Some (num_to_string env (JNum t))))
            (upd_audio (set_audio_paused true) w1)))).
  { subst paused. rewrite Hp. unfold pauseAudio_frame.
    cbn [pb with_pb upd_div with_divs upd_audio map_set set_unlockedAudio
         currentlyPlayingMsgDiv]. rewrite Hp1, Hc. reflexivity. }
  assert (Hg1 : get_div (upd_audio (set_audio_paused true) w1) m = get_div w m)
    by (unfold get_div; cbn; rewrite Hd1; reflexivity).
  assert (Hposp : ds_currentPosition (get_div paused m)
                  = Some (num_to_string env (JNum t))).
  { rewrite Hpaused.
    apply (updateAudioControls_prop
             (fun d => ds_currentPosition d = Some (num_to_string env (JNum t))));
      [apply position_ui_independent|].
    change (get_div (with_pb _ (upd_div m ?f ?x)) m) with (get_div (upd_div m f x) m).
    rewrite get_div_upd_div_eq. reflexivity. }
  assert (Hidp : ds_messageId (get_div paused m) = Some a).
  { rewrite Hpaused.
    apply (updateAudioControls_prop (fun d => ds_messageId d = Some a));
      [apply messageId_ui_independent|].
    change (get_div (with_pb _ (upd_div m ?f ?x)) m) with (get_div (upd_div m f x) m).
    rewrite get_div_upd_div_eq, Hg1. exact Hid. }
  assert (Hratep : globalPlaybackRate (pb paused) = globalPlaybackRate (pb w)).
  { rewrite Hpaused, updateAudioControls_pb. cbn. rewrite Hp1. reflexivity. }
  assert (Hmapp : messageStateMap (pb paused) !! Some a = Some PAUSED).
  { rewrite Hpaused, updateAudioControls_pb. cbn. apply lookup_insert_eq. }
  clearbody paused. subst out.
  unfold resumeAudio. rewrite bind_get, !bind_modify.
  rewrite Hposp, Hidp.
  assert (Hz : position_or_zero (Some (num_to_string env (JNum t)))
               = num_to_string env (JNum t)).
  { unfold position_or_zero.
    destruct (String.eqb_spec (num_to_string env (JNum t)) ""); [contradiction|reflexivity]. }
  rewrite Hz, Hparse.
  set (w3 := updateAudioControls env m _).
  assert (Hr3 : globalPlaybackRate (pb w3) = globalPlaybackRate (pb w)).
  { subst w3. rewrite updateAudioControls_pb. exact Hratep. }
  assert (Hm3 : messageStateMap (pb w3) !! Some a = Some PLAYING).
  { subst w3. rewrite updateAudioControls_pb. cbn. apply lookup_insert_eq. }
  unfold try_catch, resume_try, gt_zero, finite, assign_audio_rate, accepted_rate.
  rewrite Hmob, Hplay.
  unfold bind, get, when, modify, ret. cbn [andb fst snd].
  cbn [pb with_pb set_unlockedAudio globalPlaybackRate]. rewrite Hr3, Hrate.
  cbn [fst snd].
  destruct (Qle_bool t 0) eqn:Hle; cbn [negb fst snd].
  - split; [reflexivity|]. split; [exact Hmapp|].
    split; [exact Hm3|].
    eexists. split; [reflexivity|]. cbn.
    split; [|split; [reflexivity|split; [reflexivity|reflexivity]]].
    apply Qle_bool_iff in Hle. apply Qle_antisym; assumption.
  - split; [reflexivity|]. split; [exact Hmapp|].
    split; [exact Hm3|].
    eexists. split; [reflexivity|]. cbn.
    split; [reflexivity|split; [reflexivity|split; [reflexivity|reflexivity]]].
Qed.

(** X10. When the audio element of a message reaches its end (handler,
    animation frame and timer), the message is [FINISHED] and shows the
    replay button only, no message is current, the element is dropped, the
    inline element is emptied and has no [onended] handler, and no other
    message changes state. *)
Theorem playback_end_finishes_the_message env (m : nat) (w : World) :
  let w' := playback_ends env m w in
  let id := ds_messageId (get_div w m) in
  messageStateMap (pb w') !! id = Some FINISHED
  /\ (forall k, k <> id -> messageStateMap (pb w') !! k = messageStateMap (pb w) !! k)
  /\ currentlyPlayingMsgDiv (pb w') = None
  /\ unlockedAudio (pb w') = None
  /\ (forall i, inlineAudioElement (unlock w') = Some i ->
        i_src i = "" /\ i_paused i = true /\ i_onended i = None)
  /\ pauseButton (get_div w' m) = false
  /\ playButton (get_div w' m) = false
  /\ replayButton (get_div w' m) = true
  /\ speedButton (get_div w' m) = None.
Proof.
  intros w' id. subst w'. unfold playback_ends, audio_onEnded. fold id.
  unfold ended_frame.
  rewrite !updateAudioControls_pb.
  set (w1 := ended_cleanup (with_pb (map_set id FINISHED) w)).
  set (w2 := updateAudioControls env m (with_pb (map_set id FINISHED) w1)).
  assert (Hid2 : ds_messageId (get_div w2 m) = id).
  { subst w2. apply (updateAudioControls_prop (fun d => ds_messageId d = id));
      [apply messageId_ui_independent | reflexivity]. }
  split; [cbn; apply lookup_insert_eq|].
  split.
  { intros k Hk. cbn. rewrite !lookup_insert_ne by congruence. reflexivity. }
  split; [reflexivity|]. split; [reflexivity|].
  split.
  { intros i. cbn. destruct (inlineAudioElement (unlock w)); cbn; [|discriminate].
    intros [= <-]. repeat split. }
  unfold updateAudioControls at 1 2 3 4. rewrite !get_div_upd_div_eq.
  change (get_div (with_pb (map_set id FINISHED) w2) m) with (get_div w2 m).
  rewrite Hid2. cbn [pb with_pb map_set messageStateMap].
  rewrite lookup_insert_eq. repeat split.
Qed.

End ResumeFacts.
(** ** EventSystem *)

Section EventFacts.
Import EventSystem.

Lemma same_listener_refl l : same_listener l l = true.
Proof.
  unfold same_listener. rewrite String.eqb_refl, Nat.eqb_refl.
  destruct (opt_capture (l_options l)); reflexivity.
Qed.

Lemma filter_none_removed l (ls : list Listener) :
  existsb (same_listener l) ls = false ->
  List.filter (fun x => negb (same_listener l x)) ls = ls.
Proof.
  induction ls as [|x ls IH]; cbn; [reflexivity|].
  intros H. apply orb_false_iff in H as [Hx Hls].
  rewrite Hx. cbn. rewrite IH by exact Hls. reflexivity.
Qed.

Lemma removeEventListener_addEventListener l ls :
  existsb (same_listener l) ls = false ->
  removeEventListener l (addEventListener l ls) = ls.
Proof.
  intros H. unfold addEventListener, removeEventListener. rewrite H.
  rewrite List.filter_app, (filter_none_removed l ls H). cbn.
  rewrite same_listener_refl. cbn. apply app_nil_r.
Qed.

Lemma existsb_addEventListener l ls :
  existsb (same_listener l) (addEventListener l ls) = true.
Proof.
  unfold addEventListener. destruct (existsb (same_listener l) ls) eqn:H; [exact H|].
  rewrite existsb_app. cbn. rewrite same_listener_refl. apply orb_true_r.
Qed.

Lemma In_addEventListener x l ls :
  In x (addEventListener l ls) -> In x ls \/ x = l.
Proof.
  unfold addEventListener. destruct (existsb _ ls); [auto|].
  intros H. apply in_app_or in H as [H|[H|[]]]; auto.
Qed.

Lemma listeners_of_set_attached_eq el ls s :
  listeners_of (set_attached el ls s) el = ls.
Proof. unfold listeners_of. cbn. rewrite lookup_insert_eq. reflexivity. Qed.

Lemma listeners_of_set_attached_ne el e ls s :
  e <> el -> listeners_of (set_attached el ls s) e = listeners_of s e.
Proof.
  intros H. unfold listeners_of. cbn.
  rewrite lookup_insert_ne by congruence. reflexivity.
Qed.

(** What [register] does on an element. *)
Lemma register_Some stamp el eventType handler options s :
  register stamp (Some el) eventType handler options s =
  (let l := {| l_eventType := eventType; l_handler := handler;
               l_options := options |} in
   let handlerId := eventType ++ "_" ++ stamp (issued s) in
   (set_attached el (addEventListener l (listeners_of s el))
      {| listeners :=
           <[Some el := <[handlerId := l]> (default ∅ (listeners s !! Some el))]>
             (listeners s);
         attached := attached s; issued := S (issued s) |},
    Ok handlerId)).
Proof. reflexivity. Qed.

Lemma append_grows (a b : string) : b <> "" -> a ++ b <> a.
Proof.
  intros Hb. induction a as [|x a IH]; cbn; [exact Hb|].
  intros [= H]. exact (IH H).
Qed.

(** X11. Registering a handler and unregistering it with the id that
    [register] returned is a round trip: [unregister] answers [true], the
    listener list of the element is what it was, and so are the entries the
    registry holds; nothing changes for any other element. The id has to be
    new for the element and the listener must not be attached already. *)
Theorem unregister_undoes_register stamp (el : nat) (eventType : string)
  (handler : nat) (options : Options) (s : Events) :
  let handlerId := eventType ++ "_" ++ stamp (issued s) in
  let l := {| l_eventType := eventType; l_handler := handler;
              l_options := options |} in
  default ∅ (listeners s !! Some el) !! handlerId = None ->
  existsb (same_listener l) (listeners_of s el) = false ->
  let s1 := fst (register stamp (Some el) eventType handler options s) in
  let s2 := fst (unregister (Some el) handlerId s1) in
  snd (register stamp (Some el) eventType handler options s) = Ok handlerId
  /\ In l (listeners_of s1 el)
  /\ snd (unregister (Some el) handlerId s1) = Ok true
  /\ listeners_of s2 el = listeners_of s el
  /\ default ∅ (listeners s2 !! Some el) = default ∅ (listeners s !! Some el)
  /\ (forall e, e <> Some el -> listeners s2 !! e = listeners s !! e)
  /\ (forall e, e <> el -> listeners_of s2 e = listeners_of s e).
Proof.
  intros handlerId l Hfresh Hnew s1 s2.
  rewrite register_Some in *. cbn zeta in *. fold handlerId l in s1 |- *.
  cbn [fst snd] in s1 |- *.
  set (m := default ∅ (listeners s !! Some el)) in *.
  assert (H1 : listeners s1 !! Some el = Some (<[handlerId := l]> m)).
  { subst s1. cbn. apply lookup_insert_eq. }
  assert (Hl1 : listeners_of s1 el = addEventListener l (listeners_of s el)).
  { subst s1. apply listeners_of_set_attached_eq. }
  assert (Hun : unregister (Some el) handlerId s1 =
    (set_listeners (<[Some el := delete handlerId (<[handlerId := l]> m)]> (listeners s1))
       (set_attached el (removeEventListener l (listeners_of s1 el)) s1), Ok true)).
  { unfold unregister. rewrite bind_get, H1, lookup_insert_eq. reflexivity. }
  subst s2. rewrite Hun. cbn [fst snd].
  split; [reflexivity|].
  split.
  { rewrite Hl1. unfold addEventListener. rewrite Hnew.
    apply in_or_app. right. left. reflexivity. }
  split; [reflexivity|].
  split.
  { change (listeners_of (set_listeners ?x ?y) el) with (listeners_of y el).
    rewrite listeners_of_set_attached_eq, Hl1.
    apply removeEventListener_addEventListener, Hnew. }
  split.
  { cbn. rewrite lookup_insert_eq. cbn. apply delete_insert_id, Hfresh. }
  split.
  { intros e He. cbn. rewrite !lookup_insert_ne by congruence. reflexivity. }
  intros e He.
  change (listeners_of (set_listeners ?x ?y) e) with (listeners_of y e).
  rewrite listeners_of_set_attached_ne by exact He.
  subst s1. rewrite register_Some. cbn zeta. cbn [fst].
  rewrite listeners_of_set_attached_ne by exact He. reflexivity.
Qed.

(** The listeners [removeEach] leaves. *)
Lemma In_removeEach (m : gmap string Listener) (ls : list Listener) x :
  In x (removeEach m ls) <->
  In x ls /\ forall id l, m !! id = Some l -> same_listener l x = false.
Proof.
  unfold removeEach.
  apply (map_fold_weak_ind
           (fun r m => In x r <->
              In x ls /\ forall id l, m !! id = Some l -> same_listener l x = false)).
  - split; [intros H; split; [exact H|]|intros [H _]; exact H].
    intros id l Hl. rewrite lookup_empty in Hl. discriminate.
  - intros i l0 m0 r Hi IH. unfold removeEventListener.
    rewrite List.filter_In, IH. split.
    + intros [[Hin Hall] Hneg]. split; [exact Hin|].
      intros id l Hl. destruct (decide (id = i)) as [->|Hne].
      * rewrite lookup_insert_eq in Hl. injection Hl as <-.
        apply negb_true_iff, Hneg.
      * rewrite lookup_insert_ne in Hl by congruence. exact (Hall id l Hl).
    + intros [Hin Hall]. split; [split; [exact Hin|]|].
      * intros id l Hl. apply (Hall id l).
        rewrite lookup_insert_ne; [exact Hl|]. intros ->. congruence.
      * apply negb_true_iff, (Hall i l0). apply lookup_insert_eq.
Qed.

(** X12. [unregisterAll(element)] forgets the element: the registry has no
    entry for it any more, none of the listeners it held for the element is
    still attached, no listener is added, and the other elements keep their
    registry entries and their listeners. *)
Theorem unregisterAll_forgets_the_element (el : nat) (s : Events) :
  let s' := fst (unregisterAll (Some el) s) in
  snd (unregisterAll (Some el) s) = Ok tt
  /\ listeners s' !! Some el = None
  /\ (forall m id l, listeners s !! Some el = Some m -> m !! id = Some l ->
        existsb (same_listener l) (listeners_of s' el) = false)
  /\ (forall x, In x (listeners_of s' el) -> In x (listeners_of s el))
  /\ (forall e, e <> Some el -> listeners s' !! e = listeners s !! e)
  /\ (forall e, e <> el -> listeners_of s' e = listeners_of s e).
Proof.
  intros s'. subst s'. unfold unregisterAll. rewrite bind_get.
  destruct (listeners s !! Some el) as [m|] eqn:Hm.
  - rewrite !bind_modify. unfold modify. cbn [fst snd].
    split; [reflexivity|].
    split; [cbn; apply lookup_delete_eq|].
    change (listeners_of (set_listeners ?x ?y)) with (listeners_of y).
    split.
    { intros m' id l [= <-] Hl. rewrite listeners_of_set_attached_eq.
      destruct (existsb _ _) eqn:Hex; [|reflexivity].
      apply existsb_exists in Hex as (x & Hin & Hsame).
      apply In_removeEach in Hin as [_ Hall].
      rewrite (Hall id l Hl) in Hsame. discriminate. }
    split.
    { intros x. rewrite listeners_of_set_attached_eq.
      intros H. apply In_removeEach in H as [H _]. exact H. }
    split.
    { intros e He. cbn. apply lookup_delete_ne. congruence. }
    intros e He. apply listeners_of_set_attached_ne, He.
  - cbn [fst snd ret]. split; [reflexivity|]. split; [exact Hm|].
    split; [intros m' id l H; discriminate|]. auto.
Qed.

End EventFacts.

(** ** AudioManager *)

Section AudioManagerFacts.
Import EventSystem AudioManager.

(** X14. [AudioManager.removeEventListener(element, type, callback)] does
    not remove what [AudioManager.addEventListener(element, type, callback)]
    added: it looks the type up as a handler id, finds none, answers [false]
    and changes nothing, so the listener stays attached. *)
Theorem removeEventListener_does_not_remove stamp (el : nat) (type : string)
  (callback : nat) (options : Options) (a : App) :
  default ∅ (listeners (registry a) !! Some el) !! type = None ->
  let a1 := fst (addEventListener stamp (Some el) type callback options a) in
  removeEventListener (Some el) type callback a1 = (a1, Ok false)
  /\ existsb (same_listener {| l_eventType := type; l_handler := callback;
                               l_options := options |})
       (listeners_of (registry a1) el) = true.
Proof.
  intros Hfree a1. subst a1.
  unfold addEventListener, removeEventListener, in_registry.
  rewrite register_Some. cbn zeta. cbn [fst snd registry page recorder].
  split.
  - unfold unregister. rewrite bind_get. cbn [listeners set_attached].
    rewrite lookup_insert_eq, lookup_insert_ne, Hfree; [reflexivity|].
    apply append_grows. discriminate.
  - rewrite listeners_of_set_attached_eq. apply existsb_addEventListener.
Qed.

End AudioManagerFacts.

Section RegisterMultipleFacts.
Import EventSystem.

Lemma handlers_for_addEventListener (handler : nat) (type : string) options s el :
  In handler
     (handlers_for
        (set_attached el
           (addEventListener
              {| l_eventType := type; l_handler := handler; l_options := options |}
              (listeners_of s el)) s) el type).
Proof.
  unfold handlers_for. rewrite listeners_of_set_attached_eq.
  pose proof (existsb_addEventListener
                {| l_eventType := type; l_handler := handler; l_options := options |}
                (listeners_of s el)) as H.
  apply existsb_exists in H as (x & Hx & Hsame).
  unfold same_listener in Hsame. cbn in Hsame.
  apply andb_prop in Hsame as [Hsame _]. apply andb_prop in Hsame as [Ht Hh].
  apply String.eqb_eq in Ht. apply Nat.eqb_eq in Hh.
  apply in_map_iff. exists x. split; [symmetry; exact Hh|].
  apply List.filter_In. split; [exact Hx|]. rewrite <- Ht. apply String.eqb_refl.
Qed.

Lemma handlers_for_register_kept stamp el eventType handler options s h type :
  In h (handlers_for s el type) ->
  In h (handlers_for
          (fst (register stamp (Some el) eventType handler options s)) el type).
Proof.
  rewrite register_Some. cbn zeta. cbn [fst]. unfold handlers_for.
  rewrite listeners_of_set_attached_eq.
  intros H. apply in_map_iff in H as (x & Hh & Hx). apply List.filter_In in Hx as [Hx Ht].
  apply in_map_iff. exists x. split; [exact Hh|]. apply List.filter_In. split; [|exact Ht].
  unfold addEventListener.
  match goal with |- context [existsb ?f ?l] => destruct (existsb f l) end.
  - exact Hx.
  - apply in_or_app. left. exact Hx.
Qed.

Lemma registerMultiple_runs stamp el eventTypes handler options :
  forall s,
    (exists ids,
       snd (registerMultiple stamp (Some el) eventTypes handler options s) = Ok ids
       /\ List.length ids = List.length eventTypes)
    /\ (forall h type,
          In h (handlers_for s el type) ->
          In h (handlers_for
                  (fst (registerMultiple stamp (Some el) eventTypes handler options s))
                  el type))
    /\ (forall type,
          In type eventTypes ->
          In handler
             (handlers_for
                (fst (registerMultiple stamp (Some el) eventTypes handler options s))
                el type)).
Proof.
  induction eventTypes as [|t rest IH]; intros s; cbn [registerMultiple].
  - split; [exists []; split; reflexivity|]. split; [intros h type H; exact H|].
    intros type [].
  - pose proof (handlers_for_register_kept stamp el t handler options s) as Hkept.
    pose proof (handlers_for_addEventListener handler t options
                  {| listeners :=
                       <[Some el := <[t ++ "_" ++ stamp (issued s) :=
                                        {| l_eventType := t; l_handler := handler;
                                           l_options := options |}]>
                                      (default ∅ (listeners s !! Some el))]>
                         (listeners s);
                     attached := attached s; issued := S (issued s) |} el) as Hnew.
    revert Hkept Hnew.
    rewrite (bind_Ok _ _ _ _ _ (register_Some stamp el t handler options s)).
    rewrite register_Some. cbn zeta. cbn [fst].
    match goal with |- context [bind _ _ ?s1] => set (ev1 := s1) end.
    intros Hkept Hnew.
    destruct (IH ev1) as ((ids & Hids & Hlen) & Hk & Hin).
    unfold bind at 1 2 3.
    destruct (registerMultiple stamp (Some el) rest handler options ev1)
      as [ev2 [ids'|err]] eqn:Hrest; cbn [fst snd] in *; [|discriminate].
    injection Hids as ->.
    split; [exists ((t ++ "_" ++ stamp (issued s)) :: ids); split;
            [reflexivity | cbn; rewrite Hlen; reflexivity]|].
    split.
    + intros h type H. apply Hk, Hkept, H.
    + intros type [<-|H]; [apply Hk; exact Hnew | apply Hin, H].
Qed.

(** X27. [registerMultipleOnce(element, eventTypes, handler)] attaches the
    handler once for each type of the list: it returns one id per type, and
    an event of any of the types on the element runs the handler. Handlers
    already attached to the element stay. *)
Theorem registerMultipleOnce_attaches_every_type stamp (el : nat)
  (eventTypes : list string) (handler : nat) options (s : Events) :
  (exists ids,
     snd (registerMultipleOnce stamp (Some el) eventTypes handler options s) = Ok ids
     /\ List.length ids = List.length eventTypes)
  /\ (forall type,
        In type eventTypes ->
        In handler
           (handlers_for
              (fst (registerMultipleOnce stamp (Some el) eventTypes handler options s))
              el type))
  /\ (forall h type,
        In h (handlers_for s el type) ->
        In h (handlers_for
                (fst (registerMultipleOnce stamp (Some el) eventTypes handler options s))
                el type)).
Proof.
  unfold registerMultipleOnce.
  destruct (registerMultiple_runs stamp el eventTypes handler (with_once options) s)
    as (H1 & H2 & H3).
  split; [exact H1|]. split; [exact H3 | exact H2].
Qed.

End RegisterMultipleFacts.
(** ** The retry ladder *)

Section RetryFacts.
Import EventSystem PlayRetry.

Lemma plays_call c s :
  plays (call c s) = (plays s ++ match c with CPlay k => [k] | _ => [] end)%list.
Proof. unfold plays, call. cbn. rewrite omap_app. destruct c; reflexivity. Qed.

Lemma waits_call c s :
  waits (call c s) = (waits s ++ match c with CWait ms => [ms] | _ => [] end)%list.
Proof. unfold waits, call. cbn. rewrite omap_app. destruct c; reflexivity. Qed.

Lemma recover_frame env k s :
  plays (recover env k s) = plays s /\ waits (recover env k s) = waits s
  /\ events (recover env k s) = events s.
Proof.
  unfold recover.
  destruct (k =? 1)%nat; [|destruct (k =? 2)%nat; [|destruct (k =? 3)%nat;
    [destruct (context_suspended env)|]]];
    rewrite ?plays_call, ?waits_call, ?app_nil_r; auto.
Qed.

Lemma try_play_frame delay attempt s :
  plays (try_play delay attempt s) = (plays s ++ [attempt])%list
  /\ waits (try_play delay attempt s) = (waits s ++ [delay])%list
  /\ events (try_play delay attempt s) = events s.
Proof.
  unfold try_play.
  destruct (1 <? attempt)%nat; rewrite !plays_call, !waits_call, ?app_nil_r; auto.
Qed.

(** One attempt of the ladder. *)
Lemma attemptPlay_attempt fuel env forcePlay delay attempt s :
  (6 <? attempt)%nat = false ->
  attemptPlay (S fuel) env forcePlay delay attempt s =
  if started (play_outcome env attempt) then Some (try_play delay attempt s)
  else attemptPlay fuel env forcePlay (delay + 2 ^ attempt * 100) (S attempt)
         (recover env attempt (try_play delay attempt s)).
Proof. intros H. cbn [attemptPlay]. rewrite H. reflexivity. Qed.

Lemma attemptPlay_gives_up fuel env forcePlay delay attempt s :
  (6 <? attempt)%nat = true ->
  attemptPlay fuel env forcePlay delay attempt s =
  Some (setupInteractionHandlers env forcePlay s).
Proof. intros H. destruct fuel; cbn [attemptPlay]; rewrite H; reflexivity. Qed.

Lemma setupInteractionHandlers_frame env forcePlay s :
  plays (setupInteractionHandlers env forcePlay s) = plays s
  /\ waits (setupInteractionHandlers env forcePlay s) = waits s.
Proof. split; reflexivity. Qed.

Ltac ladder_frame :=
  repeat first
    [ rewrite (proj1 (setupInteractionHandlers_frame _ _ _))
    | rewrite (proj2 (setupInteractionHandlers_frame _ _ _))
    | rewrite (proj1 (recover_frame _ _ _))
    | rewrite (proj1 (proj2 (recover_frame _ _ _)))
    | rewrite (proj2 (proj2 (recover_frame _ _ _)))
    | rewrite (proj1 (try_play_frame _ _ _))
    | rewrite (proj1 (proj2 (try_play_frame _ _ _)))
    | rewrite (proj2 (proj2 (try_play_frame _ _ _))) ];
  rewrite <- ?app_assoc.

(** X15. The retry ladder of [playMessageAudio] always comes to an end and
    calls [play()] at most six times, stopping at the first call that
    starts playback; before attempt [k] it waits [100 * (2^k - 2)] ms (0,
    200, 600, 1400, 3000, 6200). The event registry is touched only when all
    six attempts are refused, by [setupInteractionHandlers]. More fuel than
    the six of [playWithRetry] changes nothing. *)
Theorem playWithRetry_tries_at_most_six_times env (forcePlay : nat) (s : Retry) :
  (forall fuel, 6 <= fuel ->
     attemptPlay fuel env forcePlay 0 1 s = playWithRetry env forcePlay s)
  /\ exists s',
       playWithRetry env forcePlay s = Some s'
       /\ match first_start env 6 1 with
          | Some k =>
              plays s' = (plays s ++ seq 1 k)%list
              /\ waits s' =
                 (waits s ++ List.map (fun j => 100 * (2 ^ j - 2)) (seq 1 k))%list
              /\ events s' = events s
          | None =>
              plays s' = (plays s ++ seq 1 6)%list
              /\ waits s' =
                 (waits s ++ List.map (fun j => 100 * (2 ^ j - 2)) (seq 1 6))%list
              /\ events s' = events (setupInteractionHandlers env forcePlay s)
          end.
Proof.
  split.
  - intros fuel Hfuel. unfold playWithRetry.
    destruct fuel as [|[|[|[|[|[|fuel]]]]]]; try lia.
    rewrite !attemptPlay_attempt by reflexivity.
    rewrite !attemptPlay_gives_up by reflexivity. reflexivity.
  - unfold playWithRetry, first_start.
    rewrite !attemptPlay_attempt by reflexivity.
    rewrite !attemptPlay_gives_up by reflexivity.
    destruct (started (play_outcome env 1));
      [eexists; split; [reflexivity|]; ladder_frame; repeat split; reflexivity|].
    destruct (started (play_outcome env 2));
      [eexists; split; [reflexivity|]; ladder_frame; repeat split; reflexivity|].
    destruct (started (play_outcome env 3));
      [eexists; split; [reflexivity|]; ladder_frame; repeat split; reflexivity|].
    destruct (started (play_outcome env 4));
      [eexists; split; [reflexivity|]; ladder_frame; repeat split; reflexivity|].
    destruct (started (play_outcome env 5));
      [eexists; split; [reflexivity|]; ladder_frame; repeat split; reflexivity|].
    destruct (started (play_outcome env 6));
      [eexists; split; [reflexivity|]; ladder_frame; repeat split; reflexivity|].
    eexists; split; [reflexivity|]. ladder_frame. repeat split; try reflexivity.
    unfold setupInteractionHandlers. cbn [events]. ladder_frame. reflexivity.
Qed.

Lemma playWithRetry_all_refused env forcePlay s :
  first_start env 6 1 = None ->
  exists s1, events s1 = events s
    /\ playWithRetry env forcePlay s = Some (setupInteractionHandlers env forcePlay s1).
Proof.
  unfold playWithRetry, first_start.
  rewrite !attemptPlay_attempt by reflexivity.
  rewrite !attemptPlay_gives_up by reflexivity.
  destruct (started (play_outcome env 1)); [discriminate|].
  destruct (started (play_outcome env 2)); [discriminate|].
  destruct (started (play_outcome env 3)); [discriminate|].
  destruct (started (play_outcome env 4)); [discriminate|].
  destruct (started (play_outcome env 5)); [discriminate|].
  destruct (started (play_outcome env 6)); [discriminate|].
  intros _. eexists. split; [|reflexivity]. ladder_frame. reflexivity.
Qed.

(** The listeners an element has after [registerForElements]. *)
Lemma In_registerForElements stamp elems eventType handler options ev e x :
  In x (listeners_of
          (fst (registerForElements stamp elems eventType handler options ev)) e) ->
  In x (listeners_of ev e)
  \/ x = {| l_eventType := eventType; l_handler := handler; l_options := options |}.
Proof.
  revert ev. induction elems as [|[el|] rest IH]; intros ev; cbn [registerForElements].
  - auto.
  - rewrite (bind_Ok _ _ _ _ _ (register_Some stamp el eventType handler options ev)).
    cbn zeta. set (ev1 := set_attached _ _ _).
    unfold bind at 1. destruct (registerForElements _ rest _ _ _ ev1) as [ev2 [ids|err]] eqn:Hrest;
      cbn [fst]; intros H;
      (assert (H2 : In x (listeners_of ev1 e) \/ x = {| l_eventType := eventType;
                      l_handler := handler; l_options := options |})
        by (apply IH; rewrite Hrest; exact H));
      (destruct H2 as [H2|H2]; [|auto]);
      subst ev1; (destruct (decide (e = el)) as [->|Hne];
       [rewrite listeners_of_set_attached_eq in H2;
        apply In_addEventListener in H2; exact H2
       |rewrite listeners_of_set_attached_ne in H2 by exact Hne; left; exact H2]).
  - unfold bind, register, get, modify, throw. cbn. auto.
Qed.

Lemma fst_bind_ret {S A B} (c : M S A) (f : A -> B) (s : S) :
  fst (bind c (fun x => ret (f x)) s) = fst (c s).
Proof. unfold bind. destruct (c s) as [s' [a|e]]; reflexivity. Qed.

Lemma In_registerForElements_kept stamp rest eventType handler options el l :
  ~ In (Some el) rest -> ~ In None rest ->
  forall ev,
    In l (listeners_of ev el) ->
    In l (listeners_of
            (fst (registerForElements stamp rest eventType handler options ev)) el).
Proof.
  induction rest as [|[e|] rest IH]; intros Hel Hnone ev H.
  - exact H.
  - cbn [registerForElements].
    rewrite (bind_Ok _ _ _ _ _ (register_Some stamp e eventType handler options ev)).
    cbn zeta. rewrite fst_bind_ret.
    apply IH; [intros H'; apply Hel; right; exact H'
              |intros H'; apply Hnone; right; exact H'|].
    rewrite listeners_of_set_attached_ne; [exact H|].
    intros ->. apply Hel. left. reflexivity.
  - destruct Hnone. left. reflexivity.
Qed.

Lemma In_registerForElements_head stamp el rest eventType handler options ev :
  existsb (same_listener {| l_eventType := eventType; l_handler := handler;
                            l_options := options |}) (listeners_of ev el) = false ->
  ~ In (Some el) rest -> ~ In None rest ->
  In {| l_eventType := eventType; l_handler := handler; l_options := options |}
     (listeners_of
        (fst (registerForElements stamp (Some el :: rest) eventType handler options ev))
        el).
Proof.
  intros Hnew Hel Hnone. cbn [registerForElements].
  rewrite (bind_Ok _ _ _ _ _ (register_Some stamp el eventType handler options ev)).
  cbn zeta. rewrite fst_bind_ret.
  apply In_registerForElements_kept; [exact Hel | exact Hnone |].
  rewrite listeners_of_set_attached_eq. unfold addEventListener.
  rewrite Hnew. apply in_or_app. right. left. reflexivity.
Qed.

(** X16. When all six attempts are refused, the handler that should start
    playback on the next user interaction is attached to the document under
    the single event type ["click,touchstart,mousedown,keydown"]: no
    [click], [touchstart], [mousedown] or [keydown] event, on any element,
    runs it. *)
Theorem last_resort_handler_is_not_run_by_a_click env (forcePlay : nat)
  (s s' : Retry) :
  first_start env 6 1 = None ->
  (forall e l, In l (listeners_of (events s) e) -> l_handler l <> forcePlay) ->
  playWithRetry env forcePlay s = Some s' ->
  In forcePlay
     (handlers_for (events s') document "click,touchstart,mousedown,keydown")
  /\ forall e type,
       In type ["click"; "touchstart"; "mousedown"; "keydown"] ->
       ~ In forcePlay (handlers_for (events s') e type).
Proof.
  intros Hall Hfresh Hrun.
  destruct (playWithRetry_all_refused env forcePlay s Hall) as (s1 & He & Hs1).
  rewrite Hs1 in Hrun. injection Hrun as <-.
  unfold setupInteractionHandlers. cbn [events]. rewrite He.
  set (l := {| l_eventType := Array_toString ["click"; "touchstart"; "mousedown"; "keydown"];
               l_handler := forcePlay;
               l_options := {| opt_once := true; opt_passive := false;
                               opt_capture := false |} |}).
  split.
  - unfold handlers_for. apply in_map_iff. exists l. split; [reflexivity|].
    apply List.filter_In. split; [|reflexivity].
    apply In_registerForElements_head.
    + destruct (existsb _ _) eqn:Hex; [|reflexivity].
      apply existsb_exists in Hex as (x & Hin & Hsame).
      exfalso. apply (Hfresh _ _ Hin).
      unfold same_listener in Hsame. cbn in Hsame.
      apply andb_true_iff in Hsame as [Hsame _].
      apply andb_true_iff in Hsame as [_ Hh].
      symmetry. apply Nat.eqb_eq, Hh.
    + intros [H|[H|[]]]; discriminate.
    + intros [H|[H|[]]]; discriminate.
  - intros e type Hty Hin. unfold handlers_for in Hin.
    apply in_map_iff in Hin as (x & Hx & Hin).
    apply List.filter_In in Hin as [Hin Htype].
    apply In_registerForElements in Hin as [Hin| ->].
    + exact (Hfresh _ _ Hin Hx).
    + cbn in Htype. destruct Hty as [<-|[<-|[<-|[<-|[]]]]]; discriminate.
Qed.

End RetryFacts.
(** ** More on unlocking *)

Section UnlockMore.
Import AudioUnlockUtils.

Lemma keeps_new_Promise {A} (I : World -> Prop) (executor : M World A) :
  keeps I executor -> keeps I (new_Promise executor).
Proof.
  intros H w Hw. unfold new_Promise. specialize (H w Hw).
  destruct (executor w) as [w' r]. exact H.
Qed.

(** An invariant of the unlock state that every technique respects. *)
Lemma keeps_unlock_executor (I : World -> Prop) env force prevent :
  (forall w f, I w ->
     (forall u, f u = log_technique TAudioContext u
                \/ (exists i, f u = log_technique (TSilentAudio i) u)
                \/ f u = log_technique TInlineElement u
                \/ f u = log_technique TSimulateInteractions u
                \/ f u = log_technique TStoredAudio (set_stored_unlockedAudio true u)
                \/ f u = set_audioUnlocked true u
                \/ f u = set_inline_in_document true u
                \/ f u = set_inlineAudioElement (Some fresh_inline) u) ->
     I (with_unlock f w)) ->
  keeps I (unlock_executor env force prevent).
Proof.
  intros HI.
  unfold unlock_executor, technique_audioContext, silent_probe,
    createInlineAudioElement, store_unlockedAudio.
  repeat keeps_step; intros w Hw; apply HI; try exact Hw; intros u; eauto 10.
Qed.

Lemma unlockAudio_keeps_unlocked env force prevent :
  keeps (fun w => audioUnlocked (unlock w) = true) (unlockAudio env force prevent).
Proof.
  unfold unlockAudio. apply keeps_get_bind. intros w Hw.
  destruct (_ && _); [exact Hw|]. destruct (_ && _); [exact Hw|].
  assert (K : keeps (fun w => audioUnlocked (unlock w) = true)
                (modify (with_unlock (fun u =>
                   set_audioUnlockAttempts (S (audioUnlockAttempts u)) u)) ;;
                 new_Promise (unlock_executor env force prevent))).
  { apply keeps_bind; [apply keeps_modify; intros w' Hw'; exact Hw'|].
    intros _. apply keeps_new_Promise, keeps_unlock_executor.
    intros w' f Hw' Hf. cbn.
    destruct (Hf (unlock w')) as [->|[[i ->]|[->|[->|[->|[->|[->| ->]]]]]]];
      cbn; auto. }
  exact (K w Hw).
Qed.

(** A computation that ends by marking audio as unlocked. *)
Lemma ends_unlocked_bind {A B} (c : M World A) (k : A -> M World B) :
  (forall a w b, snd (k a w) = Ok b -> audioUnlocked (unlock (fst (k a w))) = true) ->
  forall w b, snd (bind c k w) = Ok b ->
    audioUnlocked (unlock (fst (bind c k w))) = true.
Proof.
  intros Hk w b. unfold bind. destruct (c w) as [w' [a|e]]; [apply Hk|discriminate].
Qed.

Lemma unlock_executor_true env force prevent w :
  snd (unlock_executor env force prevent w) = Ok true ->
  audioUnlocked (unlock (fst (unlock_executor env force prevent w))) = true.
Proof.
  unfold unlock_executor, try_catch.
  match goal with
  | |- context [match ?c w with _ => _ end] =>
      assert (H : forall b, snd (c w) = Ok b ->
                   audioUnlocked (unlock (fst (c w))) = true);
      [|destruct (c w) as [w' [b|e]]; cbn [fst snd] in *;
        [intros _; exact (H b eq_refl) | discriminate]]
  end.
  revert w. do 8 (apply ends_unlocked_bind; intros _).
  intros w b _. reflexivity.
Qed.

(** X17. [unlockAudio] never locks audio again, forced or not, and whenever
    its promise resolves with [true] audio is marked as unlocked. *)
Theorem unlockAudio_never_locks_again env (forceAttempt preventRecursion : bool)
  (w : World) :
  let out := unlockAudio env forceAttempt preventRecursion w in
  (audioUnlocked (unlock w) = true -> audioUnlocked (unlock (fst out)) = true)
  /\ (snd out = Ok (Resolved true) -> audioUnlocked (unlock (fst out)) = true).
Proof.
  cbn zeta. split; [apply unlockAudio_keeps_unlocked|].
  destruct (audioUnlocked (unlock w)) eqn:Hu.
  - intros _. apply unlockAudio_keeps_unlocked, Hu.
  - unfold unlockAudio. rewrite bind_get, Hu. cbn [andb].
    destruct (_ && _); [discriminate|].
    rewrite bind_modify. unfold new_Promise.
    set (w1 := with_unlock _ w).
    pose proof (unlock_executor_true env forceAttempt preventRecursion w1) as H.
    destruct (unlock_executor env forceAttempt preventRecursion w1) as [w2 [[|]|e]];
      cbn [fst snd settle] in *; try discriminate.
    intros _. apply H. reflexivity.
Qed.

(** X18. Calls of [unlockAudio] without [forceAttempt] give up once the
    attempt counter has passed five: while audio is not unlocked, each of
    them resolves [false] at once and leaves the state as it is, whatever
    the platform would answer. *)
Theorem unlockAudio_gives_up_after_six_attempts (calls : list (Env * bool))
  (w : World) :
  audioUnlocked (unlock w) = false -> 5 < audioUnlockAttempts (unlock w) ->
  (forall env preventRecursion,
     unlockAudio env false preventRecursion w = (w, Ok (Resolved false)))
  /\ fold_left (fun w c => fst (unlockAudio (fst c) false (snd c) w)) calls w = w.
Proof.
  intros Hlocked H5.
  assert (Hstep : forall env prevent,
            unlockAudio env false prevent w = (w, Ok (Resolved false))).
  { intros env prevent. unfold unlockAudio. rewrite bind_get, Hlocked.
    apply Nat.ltb_lt in H5. rewrite H5. reflexivity. }
  split; [exact Hstep|].
  induction calls as [|[env prevent] calls IH]; [reflexivity|].
  cbn [fold_left fst snd]. rewrite Hstep. exact IH.
Qed.

End UnlockMore.
(** ** Chat requests and automatic reading *)

Section ChatFacts.
Import AudioUnlockUtils AudioPlaybackManager TTSManager Chat.

(** X19. [getBotResponse] never throws. For a question that is not blank
    it ends, whatever the server replies, with the thinking indicator
    removed, [window.pendingBotResponse] cleared and exactly one bot message
    appended: the answer, or the error text when the request failed or
    carried no answer. The message is appended while the flag is still set.
    A blank question changes nothing. *)
Theorem getBotResponse_appends_one_message env (question : string)
  (c : Conversation) :
  let out := getBotResponse env question c in
  snd out = Ok tt
  /\ if String.eqb question "" || String.eqb (trim env question) ""
     then fst out = c
     else pendingBotResponse (fst out) = false
          /\ thinkingIndicator (fst out) = false
          /\ appended (fst out) =
             (appended c ++ [{| am_text := shown_for env (chat_fetch env question);
                                am_pending := true |}])%list.
Proof.
  cbn zeta. unfold getBotResponse.
  destruct (String.eqb question "" || String.eqb (trim env question) "");
    [split; reflexivity|].
  unfold try_catch, bind, modify, throw, appendMessage, shown_for,
    appendThinkingIndicator, removeThinkingIndicator, set_pendingBotResponse.
  destruct (chat_fetch env question) as [e|[|] [[a|]|]]; cbn;
    destruct (thinkingIndicator c); cbn; repeat split.
Qed.

Lemma requestTTS_state env text w : fst (requestTTS env text w) = w.
Proof.
  unfold requestTTS. rewrite try_catch_rethrow.
  destruct (tts_fetch env text) as [e|ok status [ct|] size url]; cbn;
    try destruct ok; cbn; try reflexivity.
  destruct (includes ct "audio/"); cbn; [|reflexivity].
  destruct (size =? 0)%N; reflexivity.
Qed.

(** X20. [getBotResponseWithAudio] falls back to text: it rejects exactly
    when the chat request fails, and otherwise resolves with the answer of
    the chat request, with the URL of the synthesized audio when synthesis
    succeeds and with [null] when it fails. The page is not touched. *)
Theorem getBotResponseWithAudio_falls_back_to_text env cenv (question : string)
  (w : World) :
  let out := getBotResponseWithAudio env cenv question w in
  fst out = w
  /\ if chat_fails (chat_fetch cenv question)
     then exists e, snd out = Throw e
     else snd out =
          Ok {| answer := chat_answer (chat_fetch cenv question);
                audioUrl :=
                  match chat_answer (chat_fetch cenv question) with
                  | Some text =>
                      match snd (requestTTS env text w) with
                      | Ok url => Some url
                      | Throw _ => None
                      end
                  | None => None
                  end |}.
Proof.
  cbn zeta. unfold getBotResponseWithAudio. unfold bind at 1.
  rewrite try_catch_rethrow.
  destruct (chat_fetch cenv question) as [e|[|] [[a|]|]]; cbn;
    try (split; [reflexivity|eauto]; fail).
  unfold try_catch, bind, ret.
  pose proof (requestTTS_state env a w) as Hst.
  destruct (requestTTS env a w) as [w' [url|e]]; cbn in *; subst; split; reflexivity.
Qed.

End ChatFacts.

Section AutoReadFacts.
Import AudioUnlockUtils AudioPlaybackManager TTSManager AutoRead.

(** X21. A message is read automatically at most once: whatever a first
    call of [autoReadBotMessage] does, a second call for the same message
    changes nothing, so at most one timer is ever set for it; neither call
    throws. *)
Theorem autoReadBotMessage_triggers_once env (msgDiv : nat) (text1 text2 : string)
  (isWelcome1 isWelcome2 : bool) (s : Reader) :
  let s1 := fst (autoReadBotMessage env msgDiv text1 isWelcome1 s) in
  snd (autoReadBotMessage env msgDiv text1 isWelcome1 s) = Ok tt
  /\ autoReadBotMessage env msgDiv text2 isWelcome2 s1 = (s1, Ok tt)
  /\ (timers s1 = timers s
      \/ timers s1 = (timers s ++ [{| p_msgDiv := msgDiv; p_text := text1;
                                      p_isWelcome := isWelcome1 |}])%list).
Proof.
  cbn zeta.
  destruct (truthy (ds_audioUrl (get_div (world s) msgDiv))
            || audioHandled (marks_of s msgDiv)
            || autoReadTriggered (marks_of s msgDiv) || pending s) eqn:Hg.
  - assert (H1 : forall t i, autoReadBotMessage env msgDiv t i s = (s, Ok tt)).
    { intros t i. unfold autoReadBotMessage. rewrite bind_get, Hg. reflexivity. }
    rewrite !H1. cbn [fst snd]. auto.
  - assert (H1 : exists w',
              autoReadBotMessage env msgDiv text1 isWelcome1 s =
              ({| world := w';
                  marks := <[msgDiv := {| audioHandled := audioHandled (marks_of s msgDiv);
                                          autoReadTriggered := true |}]> (marks s);
                  pending := pending s;
                  timers := (timers s ++ [{| p_msgDiv := msgDiv; p_text := text1;
                                             p_isWelcome := isWelcome1 |}])%list |},
               Ok tt)).
    { unfold autoReadBotMessage. rewrite bind_get, Hg, bind_modify.
      set (s0 := {| world := world s; marks := _; pending := pending s;
                    timers := timers s |}).
      destruct (unlockAudio_frame env false false (world s0)) as (u & b & Hu).
      eexists. unfold bind, in_world, modify. rewrite Hu. reflexivity. }
    destruct H1 as (w' & H1). rewrite H1. cbn [fst snd].
    split; [reflexivity|]. split; [|right; reflexivity].
    unfold autoReadBotMessage. rewrite bind_get.
    unfold marks_of. cbn [marks]. rewrite lookup_insert_eq.
    cbn [default autoReadTriggered]. rewrite orb_true_r. reflexivity.
Qed.

End AutoReadFacts.
(** ** Hoare triples for the monad *)

Section TripleFacts.
Context {S : Type}.

Lemma ensures_total {A} (I : S -> Prop) (c : M S A) : total I c -> ensures I c I.
Proof. intros H. exact H. Qed.

Lemma ensures_ret {A} (P : S -> Prop) (a : A) : ensures P (ret a) P.
Proof. intros s H. split; [exact H | eauto]. Qed.

Lemma ensures_modify (P Q : S -> Prop) (f : S -> S) :
  (forall s, P s -> Q (f s)) -> ensures P (modify f) Q.
Proof. intros H s Hs. split; [apply H, Hs | eauto]. Qed.

Lemma ensures_bind {A B} (P Q R : S -> Prop) (c : M S A) (k : A -> M S B) :
  ensures P c Q -> (forall a, ensures Q (k a) R) -> ensures P (bind c k) R.
Proof.
  intros Hc Hk s Hs. destruct (Hc s Hs) as [HQ [a Ha]]. unfold bind.
  destruct (c s) as [s' r]. cbn in *. subst r. apply Hk, HQ.
Qed.

Lemma ensures_get_bind {B} (P R : S -> Prop) (k : S -> M S B) :
  (forall s, P s -> R (fst (k s s)) /\ exists b, snd (k s s) = Ok b) ->
  ensures P (bind get k) R.
Proof. intros H s Hs. rewrite bind_get. apply H, Hs. Qed.

Lemma ensures_weaken {A} (P P' Q Q' : S -> Prop) (c : M S A) :
  (forall s, P' s -> P s) -> (forall s, Q s -> Q' s) ->
  ensures P c Q -> ensures P' c Q'.
Proof.
  intros HP HQ H s Hs. destruct (H s (HP s Hs)) as [H1 H2].
  split; [apply HQ, H1 | exact H2].
Qed.

End TripleFacts.

(** ** Ending and starting a recording *)

Section RecordingMore.
Import RecordingManager.

Lemma alerts_app r es :
  List.filter is_alert (effects r ++ es) = (alerts r ++ List.filter is_alert es)%list.
Proof. apply List.filter_app. Qed.

Lemma total_effect (I : Rec -> Prop) e :
  (forall r, I r -> I (set_effects (effects r ++ [e])%list r)) -> total I (effect e).
Proof. intros H. unfold effect. apply total_modify, H. Qed.

Lemma total_if_userInput (I : Rec -> Prop) f :
  (forall r, I r -> I (set_userInput (f <$> userInput r) r)) -> total I (if_userInput f).
Proof. intros H. unfold if_userInput. apply total_modify, H. Qed.

Lemma total_hideRecordingUI (I : Rec -> Prop) :
  (forall r, I r -> is_Some (userInput r)) ->
  (forall r, I r -> I (set_recordingUI (Some false) r)) ->
  (forall r i, I r -> userInput r = Some i ->
     I (set_userInput (Some (set_focused false i)) r)) ->
  total I hideRecordingUI.
Proof.
  intros Hin Hui Hfoc. unfold hideRecordingUI. apply total_get_bind. intros r Hr.
  destruct (recordingUI r); [|split; [exact Hr | eauto]].
  rewrite bind_modify. unfold on_userInput. rewrite bind_get.
  pose proof (Hui r Hr) as H1. destruct (Hin _ H1) as [i Hi].
  rewrite Hi. cbn. split; [apply Hfoc; assumption | eauto].
Qed.

Ltac rec_frame :=
  intros; cbn beta in *;
  repeat match goal with H : _ /\ _ |- _ => destruct H end;
  repeat match goal with r : Rec |- _ => destruct r end;
  unfold alerts, dispatches, microphone_requests in *; cbn in *;
  rewrite ?List.filter_app in *; cbn in *; rewrite ?app_nil_r in *;
  subst; cbn in *;
  repeat split; intros; try discriminate; try congruence;
  try (apply in_or_app; left; solve [auto]);
  try (apply in_or_app; right; left; reflexivity);
  try match goal with |- is_Some (_ <$> ?x) => destruct x; cbn in *; eauto end;
  eauto.

(** X22. [stopRecording] releases the microphone. Called while a stream is
    held and with the text input present, it completes, the recorder is no
    longer recording, the track of the stream is stopped (on Safari through
    a 50 ms timer), the stream and the audio context are dropped, no alert
    is shown, and calling [stopRecording] again changes nothing. *)
Theorem stopRecording_releases_the_microphone env (shouldKeepTranscript : bool)
  (r : Rec) (m : Mic) :
  is_Some (userInput r) -> micStream r = Some m ->
  let out := stopRecording env shouldKeepTranscript r in
  snd out = Ok tt
  /\ isRecording (fst out) = false
  /\ micStream (fst out) = None
  /\ audioContext (fst out) = None
  /\ recordingTimer (fst out) = false
  /\ In (track_stop env m) (effects (fst out))
  /\ alerts (fst out) = alerts r
  /\ (forall keep, stopRecording env keep (fst out) = (fst out, Ok tt)).
Proof.
  intros Hin Hmic out. subst out.
  pose (J := fun (mic : option Mic) (closed stopped : bool) (r' : Rec) =>
    is_Some (userInput r') /\ micStream r' = mic /\ alerts r' = alerts r
    /\ isRecording r' = false /\ recordingTimer r' = false
    /\ (closed = true -> audioContext r' = None)
    /\ (stopped = true -> In (track_stop env m) (effects r'))).
  unfold stopRecording. rewrite bind_get, Hmic.
  rewrite bool_decide_eq_true_2 by eauto. rewrite andb_false_r.
  rewrite !bind_modify, bind_get.
  set (r4 := set_animationFrameId false _).
  assert (H4 : J (Some m) false false r4).
  { subst r4 J. destruct r. cbn in *. repeat split; auto; discriminate. }
  match goal with
  | |- context [snd (?c r4)] =>
      assert (E : ensures (J (Some m) false false) c (J None true true))
  end.
  { clear H4. clearbody r4.
    apply (ensures_bind _ (J (Some m) false false)).
    { apply ensures_total. unfold recognition_abort.
      repeat first
        [ apply total_hideRecordingUI
        | apply total_effect
        | total_step ]; subst J; rec_frame. }
    intros _. apply ensures_get_bind. intros r' Hr'.
    assert (Hm' : micStream r' = Some m) by apply Hr'. rewrite Hm'. clear Hm'.
    revert r' Hr'.
    match goal with
    | |- forall r', _ -> _ (fst (?c r')) /\ _ =>
        change (ensures (J (Some m) false false) c (J None true true))
    end.
    apply (ensures_bind _ (J (Some m) false true)).
    { subst J. unfold track_stop, effect. destruct (isSafari env);
        apply ensures_modify; rec_frame. }
    intros _. apply (ensures_bind _ (J None false true)).
    { apply ensures_modify. subst J. rec_frame. }
    intros _. apply (ensures_bind _ (J None true true)).
    { apply ensures_modify. intros r' Hr'. destruct (audioContext r') eqn:Hctx;
        revert Hr'; subst J; rec_frame. }
    intros _. apply ensures_total.
    repeat first
      [ apply total_hideRecordingUI
      | apply total_effect
      | apply total_if_userInput
      | total_step ]; subst J; rec_frame. }
  destruct (E r4 H4) as [(_ & Hm' & Hal & Hrec & Htim & Hctx & Hstop) [[] Hok]].
  split; [exact Hok|]. split; [exact Hrec|]. split; [exact Hm'|].
  split; [apply Hctx; reflexivity|]. split; [exact Htim|].
  split; [apply Hstop; reflexivity|]. split; [exact Hal|].
  intros keep. unfold stopRecording. rewrite bind_get, Hrec, Hm'.
  rewrite bool_decide_eq_false_2 by (intros [? ?]; discriminate). reflexivity.
Qed.

Lemma bind_effect {B} e (k : unit -> M Rec B) (r : Rec) :
  bind (effect e) k r = k tt (set_effects (effects r ++ [e])%list r).
Proof. reflexivity. Qed.

Lemma bind_assoc {S A B C} (c : M S A) (k : A -> M S B) (k' : B -> M S C) (s : S) :
  bind (bind c k) k' s = bind c (fun a => bind (k a) k') s.
Proof. unfold bind. destruct (c s) as [s' [a|e]]; reflexivity. Qed.

Lemma total_run {S A} (I : S -> Prop) (c : M S A) (s : S) :
  total I c -> I s -> exists s' a, c s = (s', Ok a) /\ I s'.
Proof.
  intros H Hs. destruct (H s Hs) as [HI [a Ha]].
  destruct (c s) as [s' r]. cbn in *. subst r. eauto.
Qed.

(** What the click handler does before it asks for the microphone, when no
    stream is held (lines 440-470). *)
Lemma click_prefix env (r : Rec) :
  micStream r = None ->
  exists r1 r2,
    resetMicrophoneAccess env r = (r1, Ok tt)
    /\ when (playbackManager_present env) (effect EReleasePlaybackResources) r1
       = (r2, Ok tt)
    /\ isRecording r2 = isRecording r /\ micStream r2 = None
    /\ audioContext r2 = None /\ alerts r2 = alerts r
    /\ microphone_requests r2 = microphone_requests r /\ cfg r2 = cfg r
    /\ userInput r2 = userInput r /\ recordingUI r2 = recordingUI r
    /\ recordRTC r2 = recordRTC r /\ mediaRecorder r2 = mediaRecorder r.
Proof.
  intros Hmic.
  pose (I := fun r2 : Rec =>
    isRecording r2 = isRecording r /\ micStream r2 = None
    /\ audioContext r2 = None /\ alerts r2 = alerts r
    /\ microphone_requests r2 = microphone_requests r /\ cfg r2 = cfg r
    /\ userInput r2 = userInput r /\ recordingUI r2 = recordingUI r
    /\ recordRTC r2 = recordRTC r /\ mediaRecorder r2 = mediaRecorder r).
  assert (H1 : exists r1, resetMicrophoneAccess env r = (r1, Ok tt) /\ I r1).
  { unfold resetMicrophoneAccess. rewrite bind_get, Hmic.
    repeat first [rewrite bind_ret | rewrite bind_modify].
    set (r3 := set_audioContext None _).
    assert (H3 : I r3).
    { subst r3 I. destruct r. cbn in *. repeat split; auto. }
    clearbody r3.
    match goal with
    | |- exists r1, ?c r3 = _ /\ _ => assert (T : total I c)
    end.
    { repeat first [ apply total_effect | total_step ]; subst I; rec_frame. }
    destruct (total_run I _ r3 T H3) as (r1 & [] & Hrun & HI). eauto. }
  destruct H1 as (r1 & Hr1 & HI1).
  assert (T : total I (when (playbackManager_present env)
                         (effect EReleasePlaybackResources))).
  { repeat first [ apply total_effect | total_step ]; subst I; rec_frame. }
  destruct (total_run I _ r1 T HI1) as (r2 & [] & Hr2 & HI2).
  exists r1, r2. split; [exact Hr1|]. split; [exact Hr2 | exact HI2].
Qed.

(** X23. A click on the voice button in a browser without speech
    recognition (and not on Android) shows the "not supported" alert and
    nothing else: the microphone is not asked for and no recording
    starts. *)
Theorem voiceButton_click_on_an_unsupported_browser env (r : Rec) :
  isRecording r = false -> micStream r = None ->
  speechRecognitionSupported (cfg r) = false -> isAndroid (cfg r) = false ->
  let out := voiceButton_click env r in
  snd out = Ok tt
  /\ isRecording (fst out) = false
  /\ micStream (fst out) = None
  /\ alerts (fst out) = (alerts r ++ [EAlert msg_unsupported])%list
  /\ microphone_requests (fst out) = microphone_requests r.
Proof.
  intros Hrec Hmic Hsr Hand out. subst out.
  destruct (click_prefix env r Hmic)
    as (r1 & r2 & Hr1 & Hr2 & Hrec2 & Hmic2 & _ & Hal2 & Hreq2 & Hcfg2 & _).
  unfold voiceButton_click, try_catch.
  rewrite bind_get, Hrec, Hmic, bind_ret, bind_get, Hmic.
  rewrite bind_assoc, (bind_Ok _ _ _ _ _ Hr1).
  rewrite bind_assoc, (bind_Ok _ _ _ _ _ Hr2).
  rewrite bind_assoc, bind_get, Hcfg2, Hsr, Hand. cbn [negb andb].
  rewrite bind_assoc, bind_effect, bind_ret. cbn [negb fst snd ret].
  unfold alerts, microphone_requests in *. cbn.
  rewrite !List.filter_app. cbn. rewrite app_nil_r.
  rewrite Hrec2, Hal2, Hreq2. repeat split; assumption.
Qed.

(** X24. A click on the voice button when the microphone cannot be
    obtained: the handler completes, the microphone has been asked for once,
    no recording starts, the microphone check is scheduled, and the
    "microphone" alert is shown unless the error is [NotAllowedError]. *)
Theorem voiceButton_click_when_the_microphone_is_refused env (r : Rec)
  (e : string) :
  isRecording r = false -> micStream r = None ->
  speechRecognitionSupported (cfg r) || isAndroid (cfg r) = true ->
  getUserMedia env = Throw e ->
  let out := voiceButton_click env r in
  snd out = Ok tt
  /\ isRecording (fst out) = false
  /\ micStream (fst out) = None
  /\ alerts (fst out) =
     (alerts r ++ if String.eqb e "NotAllowedError" then []
                  else [EAlert msg_microphone])%list
  /\ microphone_requests (fst out) = S (microphone_requests r)
  /\ In (ESetTimeout 500 TCheckMicrophone) (effects (fst out)).
Proof.
  intros Hrec Hmic Hsup Hgum out. subst out.
  destruct (click_prefix env r Hmic)
    as (r1 & r2 & Hr1 & Hr2 & Hrec2 & Hmic2 & _ & Hal2 & Hreq2 & Hcfg2 & _).
  set (r3 := set_effects (effects r2 ++ [EGetUserMedia])%list r2).
  set (r4 := set_effects (effects r3 ++ [ESetTimeout 500 TCheckMicrophone])%list r3).
  assert (Hout : voiceButton_click env r =
            (if String.eqb e "NotAllowedError" then r4
             else set_effects (effects r4 ++ [EAlert msg_microphone])%list r4, Ok tt)).
  { unfold voiceButton_click, try_catch.
    rewrite bind_get, Hrec, Hmic, bind_ret, bind_get, Hmic.
    rewrite bind_assoc, (bind_Ok _ _ _ _ _ Hr1).
    rewrite bind_assoc, (bind_Ok _ _ _ _ _ Hr2).
    rewrite bind_assoc, bind_get, Hcfg2.
    assert (Hc : negb (speechRecognitionSupported (cfg r)) && negb (isAndroid (cfg r))
                 = false).
    { destruct (speechRecognitionSupported (cfg r)), (isAndroid (cfg r));
        try reflexivity; discriminate Hsup. }
    rewrite Hc, !bind_assoc, bind_effect, Hgum.
    unfold throw, bind at 1. fold r3.
    assert (Hstop : stopRecording env false r3 = (r3, Ok tt)).
    { unfold stopRecording. rewrite bind_get. subst r3.
      cbn [isRecording micStream set_effects].
      rewrite Hrec2, Hrec, Hmic2. reflexivity. }
    rewrite (bind_Ok _ _ _ _ _ Hstop), bind_effect. fold r4.
    destruct (String.eqb e "NotAllowedError"); reflexivity. }
  rewrite Hout. cbn [fst snd].
  unfold alerts, microphone_requests in *.
  destruct (String.eqb e "NotAllowedError"); subst r4 r3; cbn;
    rewrite !List.filter_app; cbn; rewrite ?app_nil_r, ?length_app; cbn;
    rewrite Hrec2, Hal2, Hreq2; repeat split; try assumption; try lia;
    rewrite ?in_app_iff; cbn; auto 10.
Qed.

(** X25. The timer of [stopRecording(true)], outside Android and with
    [getBotResponse] on the page. The transcript is the recognized text when
    auto-send is on and something was recognized, and the trimmed content of
    the input otherwise. It is handed to the chat at most once, and only
    when auto-send is on and the transcript is not empty; then the input is
    emptied. With auto-send off the transcript is put in the input and
    nothing is sent. In every case the input is editable again and the
    processing flag is cleared. *)
Theorem stopRecording_settle_sends_the_transcript_once env (r : Rec) (inp : Input) :
  userInput r = Some inp -> isAndroid (cfg r) = false ->
  has_getBotResponse env = true ->
  let transcript :=
    if autoTranscribeVoice env && negb (String.eqb (currentTranscript r) "")
    then currentTranscript r else js_trim env (value inp) in
  let out := stopRecording_settle env true r in
  snd out = Ok tt
  /\ processingTranscript (fst out) = false
  /\ (readOnly <$> userInput (fst out)) = Some false
  /\ dispatches (fst out) =
     (dispatches r ++
      if autoTranscribeVoice env && negb (String.eqb transcript "")
      then [EChat (setting_alwaysReadOutLoud env && has_getBotResponseAndAudio env)
              transcript]
      else [])%list
  /\ (value <$> userInput (fst out)) =
     Some (if String.eqb transcript "" then value inp
           else if autoTranscribeVoice env then "" else transcript).
Proof.
  destruct r as [ir ms rg rr mr ac an so st rt af pt ct ui ru ef [ia ie sr]].
  destruct inp as [v ro fo].
  cbn. intros -> -> Hgbr.
  unfold stopRecording_settle, dispatch_chat, effect, if_userInput.
  unfold bind, when, modify, get, ret. cbn. rewrite Hgbr. cbn.
  unfold dispatches.
  destruct (autoTranscribeVoice env); cbn.
  - destruct (String.eqb ct "") eqn:Hct; cbn.
    + destruct (String.eqb (js_trim env v) "") eqn:Htr; cbn.
      * rewrite app_nil_r. repeat split.
      * destruct (has_appendMessage env),
          (setting_alwaysReadOutLoud env && has_getBotResponseAndAudio env); cbn;
          rewrite ?List.filter_app, <- ?app_assoc; cbn; rewrite ?app_nil_r;
          repeat split.
    + rewrite Hct. cbn.
      destruct (has_appendMessage env),
        (setting_alwaysReadOutLoud env && has_getBotResponseAndAudio env); cbn;
        rewrite ?List.filter_app, <- ?app_assoc; cbn; rewrite ?app_nil_r;
        repeat split.
  - destruct (String.eqb (js_trim env v) "") eqn:Htr; cbn;
      rewrite ?List.filter_app, <- ?app_assoc; cbn; rewrite ?app_nil_r;
      repeat split.
Qed.

(** X26. A click on the voice button of a desktop browser with speech
    recognition, when the microphone and an audio context can be obtained:
    the microphone is asked for once, the recorder holds the stream and an
    audio context, it is recording, the input is read-only, the set-up of
    the recognizer is scheduled and no alert is shown. *)
Theorem voiceButton_click_starts_a_recording env (r : Rec) (mic : Mic)
  (c : CtxState) :
  isRecording r = false -> micStream r = None ->
  isAndroid (cfg r) = false -> speechRecognitionSupported (cfg r) = true ->
  getUserMedia env = Ok mic -> new_AudioContext env = Ok c ->
  let out := voiceButton_click env r in
  snd out = Ok tt
  /\ isRecording (fst out) = true
  /\ micStream (fst out) = Some mic
  /\ is_Some (audioContext (fst out))
  /\ source (fst out) = Some (mic_id mic)
  /\ recordingTimer (fst out) = true
  /\ (readOnly <$> userInput (fst out)) = (fun _ => true) <$> userInput r
  /\ alerts (fst out) = alerts r
  /\ microphone_requests (fst out) = S (microphone_requests r)
  /\ In (ESetTimeout 100 TRecognitionSetup) (effects (fst out)).
Proof.
  intros Hrec Hmic Hand Hsr Hgum Hnew out. subst out.
  destruct (click_prefix env r Hmic)
    as (r1 & r2 & Hr1 & Hr2 & Hrec2 & Hmic2 & Hctx2 & Hal2 & Hreq2 & Hcfg2 & Hui2 & _).
  unfold voiceButton_click, try_catch.
  rewrite bind_get, Hrec, Hmic, bind_ret, bind_get, Hmic.
  rewrite bind_assoc, (bind_Ok _ _ _ _ _ Hr1).
  rewrite bind_assoc, (bind_Ok _ _ _ _ _ Hr2).
  rewrite bind_assoc, bind_get, Hcfg2, Hsr, Hand. cbn [negb andb].
  rewrite !bind_assoc, bind_effect, Hgum, bind_assoc, bind_modify, bind_ret.
  cbn [negb].
  clear Hr1 Hr2 r1.
  rewrite Hrec in Hrec2. rewrite <- Hal2, <- Hreq2, <- Hui2.
  clear Hal2 Hreq2 Hui2 Hrec Hmic.
  rewrite <- Hcfg2 in Hand, Hsr. clear Hcfg2.
  destruct r2 as [ir ms rg rr mr ac an so st rt af pt ct ui ru ef [ia ie sr]].
  cbn in Hrec2, Hmic2, Hctx2, Hand, Hsr. subst.
  unfold audio_setup, startRecording, showRecordingUI, new_ctx, effect,
    if_userInput, alerts, microphone_requests.
  unfold bind, when, modify, get, ret. rewrite Hnew.
  destruct (shared_audioContext env) as [[]|], c; cbn;
    repeat case_bool_decide;
    cbn in *; rewrite ?List.filter_app; cbn; rewrite ?app_nil_r, ?length_app; cbn;
    repeat split; eauto; try lia;
    try (destruct ui; reflexivity);
    rewrite ?in_app_iff; cbn; auto 10.
Qed.

End RecordingMore.

(** ** The properties at work on the example pages *)

Section PlaybackWitnesses.
Import AudioUnlockUtils AudioPlaybackManager PlaybackControls Examples Scenarios.


Lemma playMessageAudio_without_url_resets_the_message_witness :
  ds_messageId (get_div a_is_playing 1) = Some "b"
  /\ snd (playMessageAudio desktop 1 None a_is_playing) = Ok tt
  /\ messageStateMap (pb (fst (playMessageAudio desktop 1 None a_is_playing)))
       !! Some "b" = Some IDLE
  /\ ds_audioUrl (get_div (fst (playMessageAudio desktop 1 None a_is_playing)) 1)
     = Some "undefined".
Proof.
  assert (Hb : "b" <> "") by discriminate.
  pose proof (playMessageAudio_without_url_resets_the_message desktop 1 "b"
                a_is_playing eq_refl eq_refl Hb) as H.
  cbv zeta in H. destruct H as (H1 & H2 & _ & H4 & _).
  split; [reflexivity|]. split; [assumption|]. split; assumption.
Defined.


Lemma pauseAudio_pauses_and_records_the_position_witness :
  currentlyPlayingMsgDiv (pb a_two_seconds_in) = Some 0
  /\ messageStateMap (pb (pauseAudio_frame desktop (pauseAudio desktop a_two_seconds_in)))
       !! Some "a" = Some PAUSED
  /\ ds_currentPosition
       (get_div (pauseAudio_frame desktop (pauseAudio desktop a_two_seconds_in)) 0)
     = Some "2".
Proof.
  assert (Ha : "a" <> "") by discriminate.
  pose proof (pauseAudio_pauses_and_records_the_position desktop a_two_seconds_in
                0 "a"
                {| a_src := "blob:a"; a_paused := false; a_currentTime := 2%Q;
                   a_playbackRate := one; a_owner := 0 |}
                eq_refl eq_refl Ha eq_refl) as H.
  cbv zeta in H. destruct H as (H1 & _ & _ & _ & H5 & _).
  split; [reflexivity|]. split; assumption.
Defined.

Lemma resumeAudio_leaves_the_other_messages_witness :
  Some "a" <> ds_messageId (get_div a_is_playing 1)
  /\ snd (resumeAudio desktop play_starts 1 (Some "blob:b") a_is_playing) = Ok tt
  /\ messageStateMap
       (pb (fst (resumeAudio desktop play_starts 1 (Some "blob:b") a_is_playing)))
       !! Some "a" = Some PLAYING.
Proof.
  assert (Hk : Some "a" <> ds_messageId (get_div a_is_playing 1))
    by (vm_compute; discriminate).
  pose proof (resumeAudio_leaves_the_other_messages desktop play_starts 1
                (Some "blob:b") a_is_playing (Some "a") Hk) as H.
  cbv zeta in H. destruct H as (H1 & H2).
  split; [exact Hk|]. split; [exact H1|]. rewrite H2. reflexivity.
Defined.

Lemma resumeAudio_plays_or_resets_witness :
  ds_messageId (get_div a_is_playing 0) = Some "a"
  /\ resume_fails desktop play_starts 0 (Some "blob:a") a_is_playing = false
  /\ messageStateMap
       (pb (fst (resumeAudio desktop play_starts 0 (Some "blob:a") a_is_playing)))
       !! Some "a" = Some PLAYING.
Proof.
  assert (Ha : "a" <> "") by discriminate.
  pose proof (resumeAudio_plays_or_resets desktop play_starts 0 (Some "blob:a")
                a_is_playing "a" eq_refl Ha) as H.
  cbv zeta in H. destruct H as (_ & H2 & _).
  split; [reflexivity|]. split; [reflexivity|]. exact H2.
Defined.

Lemma resumeAudio_continues_where_pauseAudio_stopped_witness :
  unlockedAudio (pb a_two_seconds_in)
  = Some {| a_src := "blob:a"; a_paused := false; a_currentTime := 2%Q;
            a_playbackRate := one; a_owner := 0 |}
  /\ parseFloat desktop (num_to_string desktop (JNum 2%Q)) = JNum 2%Q
  /\ exists au',
       unlockedAudio
         (pb (fst (resumeAudio desktop play_starts 0 (Some "blob:a")
                     (pauseAudio_frame desktop (pauseAudio desktop a_two_seconds_in)))))
       = Some au'
       /\ (a_currentTime au' == 2)%Q /\ a_paused au' = false.
Proof.
  assert (Ha : "a" <> "") by discriminate.
  assert (Hpos : (0 <= 2)%Q) by (vm_compute; discriminate).
  assert (Hstr : num_to_string desktop (JNum 2%Q) <> "") by (vm_compute; discriminate).
  pose proof (resumeAudio_continues_where_pauseAudio_stopped desktop play_starts
                a_two_seconds_in 0 "a"
                {| a_src := "blob:a"; a_paused := false; a_currentTime := 2%Q;
                   a_playbackRate := one; a_owner := 0 |}
                (Some "blob:a") eq_refl eq_refl eq_refl eq_refl eq_refl Ha eq_refl
                Hpos Hstr eq_refl) as H.
  cbv zeta in H. destruct H as (_ & _ & _ & au' & H1 & H2 & H3 & _).
  split; [reflexivity|]. split; [reflexivity|].
  exists au'. split; [exact H1|]. split; [exact H2 | exact H3].
Defined.

Lemma unlockAudio_gives_up_after_six_attempts_witness :
  audioUnlocked (unlock six_attempts) = false
  /\ 5 < audioUnlockAttempts (unlock six_attempts)
  /\ fold_left (fun w c => fst (unlockAudio (fst c) false (snd c) w))
       [(desktop, false); (desktop_without_audioContext, true)] six_attempts
     = six_attempts.
Proof.
  assert (H5 : 5 < audioUnlockAttempts (unlock six_attempts)) by (vm_compute; lia).
  pose proof (unlockAudio_gives_up_after_six_attempts
                [(desktop, false); (desktop_without_audioContext, true)]
                six_attempts eq_refl H5) as H.
  destruct H as (_ & H).
  split; [reflexivity|]. split; [exact H5 | exact H].
Defined.

End PlaybackWitnesses.

Section EventWitnesses.
Import EventSystem Examples Scenarios.

Lemma unregister_undoes_register_witness :
  existsb (same_listener {| l_eventType := "keydown"; l_handler := 1;
                            l_options := no_options |})
    (listeners_of no_events document) = false
  /\ snd (unregister (Some document) "keydown_1700000000000_k3x9q2a" one_listener)
     = Ok true
  /\ listeners_of
       (fst (unregister (Some document) "keydown_1700000000000_k3x9q2a" one_listener))
       document
     = listeners_of no_events document.
Proof.
  pose proof (unregister_undoes_register (fun _ => "1700000000000_k3x9q2a")
                document "keydown" 1 no_options no_events eq_refl eq_refl) as H.
  cbv zeta in H. destruct H as (_ & _ & H3 & H4 & _).
  split; [reflexivity|]. split; [exact H3 | exact H4].
Defined.

Lemma removeEventListener_does_not_remove_witness :
  default ∅ (listeners (AudioManager.registry app) !! Some document) !! "keydown"
  = None
  /\ snd (AudioManager.removeEventListener (Some document) "keydown" 2
            (fst (AudioManager.addEventListener (fun _ => "1700000000000_k3x9q2a")
                    (Some document) "keydown" 2 no_options app)))
     = Ok false.
Proof.
  pose proof (removeEventListener_does_not_remove (fun _ => "1700000000000_k3x9q2a")
                document "keydown" 2 no_options app eq_refl) as H.
  cbv zeta in H. destruct H as (H1 & _).
  split; [reflexivity|]. rewrite H1. reflexivity.
Defined.

Lemma last_resort_handler_is_not_run_by_a_click_witness :
  PlayRetry.first_start always_rejected 6 1 = None
  /\ PlayRetry.playWithRetry always_rejected 9 ladder_start = Some ladder_end
  /\ ~ In 9 (handlers_for (PlayRetry.events ladder_end) document "click").
Proof.
  assert (Hfresh : forall e l,
             In l (listeners_of (PlayRetry.events ladder_start) e) -> l_handler l <> 9).
  { intros e l H. unfold listeners_of in H. cbn in H.
    rewrite lookup_empty in H. destruct H. }
  assert (Hrun : PlayRetry.playWithRetry always_rejected 9 ladder_start = Some ladder_end)
    by (vm_compute; reflexivity).
  pose proof (last_resort_handler_is_not_run_by_a_click always_rejected 9
                ladder_start ladder_end eq_refl Hfresh Hrun) as H.
  destruct H as (_ & H).
  split; [reflexivity|]. split; [exact Hrun|].
  apply H. left. reflexivity.
Defined.

End EventWitnesses.

Section RecordingWitnesses.
Import RecordingManager Examples Scenarios.

Lemma stopRecording_releases_the_microphone_witness :
  micStream recording = Some {| mic_id := 7; mic_active := true |}
  /\ snd (stopRecording chrome false recording) = Ok tt
  /\ micStream (fst (stopRecording chrome false recording)) = None
  /\ In (track_stop chrome {| mic_id := 7; mic_active := true |})
       (effects (fst (stopRecording chrome false recording))).
Proof.
  assert (Hin : is_Some (userInput recording)) by (vm_compute; eexists; reflexivity).
  pose proof (stopRecording_releases_the_microphone chrome false recording
                {| mic_id := 7; mic_active := true |} Hin eq_refl) as H.
  cbv zeta in H. destruct H as (H1 & _ & H3 & _ & _ & H6 & _).
  split; [reflexivity|]. split; [exact H1|]. split; [exact H3 | exact H6].
Defined.

Lemma voiceButton_click_on_an_unsupported_browser_witness :
  speechRecognitionSupported (cfg idle_without_recognition) = false
  /\ alerts (fst (voiceButton_click chrome idle_without_recognition))
     = [EAlert msg_unsupported]
  /\ microphone_requests (fst (voiceButton_click chrome idle_without_recognition)) = 0.
Proof.
  pose proof (voiceButton_click_on_an_unsupported_browser chrome
                idle_without_recognition eq_refl eq_refl eq_refl eq_refl) as H.
  cbv zeta in H. destruct H as (_ & _ & _ & H4 & H5).
  split; [reflexivity|]. split; [exact H4 | exact H5].
Defined.

Lemma voiceButton_click_when_the_microphone_is_refused_witness :
  getUserMedia chrome_without_microphone = Throw "NotFoundError"
  /\ isRecording (fst (voiceButton_click chrome_without_microphone idle_with_draft))
     = false
  /\ alerts (fst (voiceButton_click chrome_without_microphone idle_with_draft))
     = [EAlert msg_microphone].
Proof.
  pose proof (voiceButton_click_when_the_microphone_is_refused
                chrome_without_microphone idle_with_draft "NotFoundError"
                eq_refl eq_refl eq_refl eq_refl) as H.
  cbv zeta in H. destruct H as (_ & H2 & _ & H4 & _).
  split; [reflexivity|]. split; [exact H2 | exact H4].
Defined.

Lemma stopRecording_settle_sends_the_transcript_once_witness :
  userInput idle_with_draft
  = Some {| value := "draft"; readOnly := false; focused := true |}
  /\ dispatches (fst (stopRecording_settle chrome true idle_with_draft)) = []
  /\ (value <$> userInput (fst (stopRecording_settle chrome true idle_with_draft)))
     = Some "draft".
Proof.
  pose proof (stopRecording_settle_sends_the_transcript_once chrome idle_with_draft
                {| value := "draft"; readOnly := false; focused := true |}
                eq_refl eq_refl eq_refl) as H.
  cbv zeta in H. destruct H as (_ & _ & _ & H4 & H5).
  split; [reflexivity|]. split; [exact H4 | exact H5].
Defined.

Lemma voiceButton_click_starts_a_recording_witness :
  getUserMedia chrome = Ok {| mic_id := 7; mic_active := true |}
  /\ isRecording (fst (voiceButton_click chrome idle_with_draft)) = true
  /\ micStream (fst (voiceButton_click chrome idle_with_draft))
     = Some {| mic_id := 7; mic_active := true |}.
Proof.
  pose proof (voiceButton_click_starts_a_recording chrome idle_with_draft
                {| mic_id := 7; mic_active := true |} CtxRunning
                eq_refl eq_refl eq_refl eq_refl eq_refl eq_refl) as H.
  cbv zeta in H. destruct H as (_ & H2 & H3 & _).
  split; [reflexivity|]. split; [exact H2 | exact H3].
Defined.

End RecordingWitnesses.
